(** * burp-mcp-server: the race engine and its request/response helpers

    A shallow embedding of
      - internal/tools/normalize.go      (normalizeRawRequest)
      - internal/tools/race_request.go   (raceRequestHandler's bounds,
        executeRace, readHTTPResponse, readChunkedBody, readFull,
        fixContentLength)
      - internal/burp/parser.go          (ParseHTTPResponse)
    together with the parts of Go's [strings], [strconv], [fmt] and [bufio]
    packages those functions call.

    Go strings and byte slices are byte sequences: they are [list ascii]
    here, and the functions of [strings] that decode UTF-8 (TrimSpace,
    ToLower, EqualFold) work on the bytes of the runes.  A Go [int] is a
    [Z] (64 bits; the width matters in the range check of [strconv] and
    in the allocation limit of [make]).  An [error] is its message.
    A call either returns, panics, or (for the loops, which run on fuel)
    runs out of fuel: [run]. *)

From Stdlib Require Import ZArith Ascii String List Lia DecimalString.
From stdpp Require Import base list strings gmap.

Open Scope Z_scope.

Abbreviation bytes := (list ascii).
Abbreviation error := (list ascii).

(** ** Go's standard library, as far as the sources use it *)
Module Go.

Definition CR : ascii := "013"%char.
Definition LF : ascii := "010"%char.

(** A literal without control characters. *)
Definition str (s : string) : bytes := list_ascii_of_string s.

(** [strings.HasPrefix]. *)
Fixpoint HasPrefix (s prefix : bytes) {struct prefix} : bool :=
  match prefix, s with
  | [], _ => true
  | _ :: _, [] => false
  | p :: ps, c :: cs => Ascii.eqb c p && HasPrefix cs ps
  end.

(** [strings.HasSuffix]. *)
Definition HasSuffix (s suffix : bytes) : bool :=
  HasPrefix (rev s) (rev suffix).

(** [strings.Index]: the offset of the first occurrence; [None] is Go's -1. *)
Fixpoint Index (s substr : bytes) : option nat :=
  if HasPrefix s substr then Some 0%nat
  else match s with
       | [] => None
       | _ :: s' => option_map S (Index s' substr)
       end.

(** [strings.Contains]. *)
Definition Contains (s substr : bytes) : bool :=
  match Index s substr with Some _ => true | None => false end.

(** [strings.ReplaceAll s old new] for a non-empty [old]: occurrences are
    found left to right and do not overlap.  [skip] counts the bytes of a
    match that are still to be passed over. *)
Fixpoint replaceFrom (skip : nat) (s old new : bytes) : bytes :=
  match s with
  | [] => []
  | c :: s' =>
      match skip with
      | S k => replaceFrom k s' old new
      | O => if HasPrefix s old
             then new ++ replaceFrom (length old - 1) s' old new
             else c :: replaceFrom 0 s' old new
      end
  end.

Definition ReplaceAll (s old new : bytes) : bytes := replaceFrom 0 s old new.

(** [strings.Split] and [strings.SplitN] (Go's [genSplit]) for a non-empty
    separator.  [limit] is the number of cuts still allowed, [None] for
    no bound (Go's n < 0). *)
Definition consHead (c : ascii) (parts : list bytes) : list bytes :=
  match parts with
  | [] => [[c]]
  | p :: ps => (c :: p) :: ps
  end.

Fixpoint splitFrom (skip : nat) (limit : option nat) (s sep : bytes)
  : list bytes :=
  match s with
  | [] => [[]]
  | c :: s' =>
      match skip with
      | S k => splitFrom k limit s' sep
      | O =>
          match limit with
          | Some O => [s]
          | _ =>
              if HasPrefix s sep
              then [] :: splitFrom (length sep - 1) (option_map Nat.pred limit) s' sep
              else consHead c (splitFrom 0 limit s' sep)
          end
      end
  end.

Definition Split (s sep : bytes) : list bytes := splitFrom 0 None s sep.

Definition SplitN (s sep : bytes) (n : Z) : list bytes :=
  if n =? 0 then []
  else if n <? 0 then splitFrom 0 None s sep
  else splitFrom 0 (Some (Z.to_nat (n - 1))) s sep.

(** [strings.Join]. *)
Fixpoint Join (elems : list bytes) (sep : bytes) : bytes :=
  match elems with
  | [] => []
  | [e] => e
  | e :: rest => e ++ sep ++ Join rest sep
  end.

(** [strings.ToLower], as far as the ASCII bytes of its result go: the
    letters 'A'..'Z' are mapped to 'a'..'z', and so are the two runes
    outside of ASCII whose lower case is an ASCII letter, U+0130 (the
    bytes C4 B0) to 'i' and U+212A, the Kelvin sign (E2 84 AA), to 'k'.
    Go maps every other rune outside of ASCII to a rune outside of ASCII,
    and a byte that is no UTF-8 to U+FFFD; such bytes are kept as they
    are here.  The sources only look for ASCII texts in the result
    (HasPrefix and Contains of a literal), and on these the two
    agree. *)
Definition lowerByte (c : ascii) : ascii :=
  let n := nat_of_ascii c in
  if (65 <=? n)%nat && (n <=? 90)%nat then ascii_of_nat (n + 32) else c.

Definition isUpperI (b1 b2 : ascii) : bool :=
  (nat_of_ascii b1 =? 196)%nat && (nat_of_ascii b2 =? 176)%nat.

Definition isKelvin (b1 b2 b3 : ascii) : bool :=
  (nat_of_ascii b1 =? 226)%nat && (nat_of_ascii b2 =? 132)%nat
  && (nat_of_ascii b3 =? 170)%nat.

Fixpoint ToLower (s : bytes) : bytes :=
  match s with
  | [] => []
  | b1 :: s1 =>
      match s1 with
      | b2 :: s2 =>
          if isUpperI b1 b2 then "i"%char :: ToLower s2
          else match s2 with
               | b3 :: s3 =>
                   if isKelvin b1 b2 b3 then "k"%char :: ToLower s3
                   else lowerByte b1 :: ToLower s1
               | [] => lowerByte b1 :: ToLower s1
               end
      | [] => lowerByte b1 :: ToLower s1
      end
  end.

(** [strings.TrimSpace]: strips the white space of Unicode from both
    ends.  These are the ASCII bytes '\t', '\n', '\v', '\f', '\r' and
    ' ', and, in UTF-8, the runes U+0085 and U+00A0 (C2 85, C2 A0),
    U+1680 (E1 9A 80), U+2000 to U+200A (E2 80 80 to E2 80 8A), U+2028,
    U+2029 and U+202F (E2 80 A8, E2 80 A9, E2 80 AF), U+205F (E2 81 9F)
    and U+3000 (E3 80 80).  Go decodes the first rune, and from the end
    the last rune; a rune is one of these exactly when its bytes are the
    ones listed. *)
Definition isSpace (c : ascii) : bool :=
  let n := nat_of_ascii c in
  ((9 <=? n)%nat && (n <=? 13)%nat) || (n =? 32)%nat.

Definition isSpace2 (b1 b2 : ascii) : bool :=
  let n2 := nat_of_ascii b2 in
  (nat_of_ascii b1 =? 194)%nat && ((n2 =? 133)%nat || (n2 =? 160)%nat).

Definition isSpace3 (b1 b2 b3 : ascii) : bool :=
  let n1 := nat_of_ascii b1 in
  let n2 := nat_of_ascii b2 in
  let n3 := nat_of_ascii b3 in
  ((n1 =? 225)%nat && (n2 =? 154)%nat && (n3 =? 128)%nat)
  || ((n1 =? 226)%nat && (n2 =? 128)%nat
      && (((128 <=? n3)%nat && (n3 <=? 138)%nat)
          || (n3 =? 168)%nat || (n3 =? 169)%nat || (n3 =? 175)%nat))
  || ((n1 =? 226)%nat && (n2 =? 129)%nat && (n3 =? 159)%nat)
  || ((n1 =? 227)%nat && (n2 =? 128)%nat && (n3 =? 128)%nat).

Fixpoint trimLeft (s : bytes) : bytes :=
  match s with
  | [] => []
  | b1 :: s1 =>
      if isSpace b1 then trimLeft s1
      else match s1 with
           | b2 :: s2 =>
               if isSpace2 b1 b2 then trimLeft s2
               else match s2 with
                    | b3 :: s3 =>
                        if isSpace3 b1 b2 b3 then trimLeft s3 else s
                    | [] => s
                    end
           | [] => s
           end
  end.

(** The same from the end, on the bytes in reverse order. *)
Fixpoint trimRight (r : bytes) : bytes :=
  match r with
  | [] => []
  | b1 :: r1 =>
      if isSpace b1 then trimRight r1
      else match r1 with
           | b2 :: r2 =>
               if isSpace2 b2 b1 then trimRight r2
               else match r2 with
                    | b3 :: r3 =>
                        if isSpace3 b3 b2 b1 then trimRight r3 else r
                    | [] => r
                    end
           | [] => r
           end
  end.

Definition TrimSpace (s : bytes) : bytes :=
  rev (trimRight (rev (trimLeft s))).

(** Digits of [strconv]: the value of a byte in a base up to 36. *)
Definition digitVal (c : ascii) : option Z :=
  let n := Z.of_nat (nat_of_ascii c) in
  if (48 <=? n) && (n <=? 57) then Some (n - 48)
  else if (97 <=? n) && (n <=? 122) then Some (n - 97 + 10)
  else if (65 <=? n) && (n <=? 90) then Some (n - 65 + 10)
  else None.

Fixpoint parseDigits (base : Z) (acc : Z) (s : bytes) : option Z :=
  match s with
  | [] => Some acc
  | c :: s' =>
      match digitVal c with
      | Some d => if d <? base then parseDigits base (acc * base + d) s' else None
      | None => None
      end
  end.

Definition parseUnsigned (base : Z) (s : bytes) : option Z :=
  match s with
  | [] => None
  | _ => parseDigits base 0 s
  end.

Definition minInt64 : Z := - 2 ^ 63.
Definition maxInt64 : Z := 2 ^ 63 - 1.

(** [strconv.ParseInt s base 64] for an explicit base: an optional sign,
    then at least one digit; a value outside of int64 is an error. *)
Definition ParseInt (s : bytes) (base : Z) : option Z :=
  let signed :=
    match s with
    | c :: ds =>
        if Ascii.eqb c "+" then parseUnsigned base ds
        else if Ascii.eqb c "-" then option_map Z.opp (parseUnsigned base ds)
        else parseUnsigned base s
    | [] => None
    end in
  match signed with
  | Some v => if (minInt64 <=? v) && (v <=? maxInt64) then Some v else None
  | None => None
  end.

(** [strconv.Atoi]: [ParseInt] in base 10 at the width of [int]. *)
Definition Atoi (s : bytes) : option Z := ParseInt s 10.

(** [fmt.Sprintf "%d"]. *)
Definition Itoa (n : Z) : bytes := str (NilZero.string_of_int (Z.to_int n)).

(** [fmt]'s "%v" of an error value. *)
Definition showError (e : option error) : bytes :=
  match e with
  | Some msg => msg
  | None => str "<nil>"
  end.

(** The ways a call can end.  A panic is not recovered anywhere in the
    sources: it ends the process.  The loops of the sources run on fuel
    here; the fuel they are given is always enough (section Totality). *)
Inductive run (A : Type) : Type :=
  | Ret (a : A)
  | Panic
  | OutOfFuel.
Arguments Ret {A} a.
Arguments Panic {A}.
Arguments OutOfFuel {A}.

(** A [bufio.Reader] on a stream: the bytes that are still to arrive, and
    the error the stream reports once they are used up (io.EOF, a passed
    deadline, a reset). *)
Record Reader : Type := mkReader { pending : bytes; failure : error }.

(** The first [delim] of [s]: the bytes up to and including it, and the
    bytes after it. *)
Fixpoint cutAfter (delim : ascii) (s : bytes) : option (bytes * bytes) :=
  match s with
  | [] => None
  | c :: s' =>
      if Ascii.eqb c delim then Some ([c], s')
      else match cutAfter delim s' with
           | Some (line, rest) => Some (c :: line, rest)
           | None => None
           end
  end.

(** ReadString of [bufio.Reader]: the bytes up to and including the first
    [delim]; when the stream ends before a [delim], the bytes read so far
    together with the stream's error. *)
Definition ReadString (reader : Reader) (delim : ascii)
  : bytes * option error * Reader :=
  match cutAfter delim (pending reader) with
  | Some (line, rest) => (line, None, mkReader rest (failure reader))
  | None => (pending reader, Some (failure reader),
             mkReader [] (failure reader))
  end.

(** Go's [len] as an [int]. *)
Definition len {A : Type} (l : list A) : Z := Z.of_nat (length l).

(** [make([]byte, size)] for the next [size] bytes of [reader].  The
    runtime panics on a negative length, and on a length above its
    allocation limit ([runtime.maxAlloc], 2^48 bytes on the 64-bit
    platforms).  A length above the limit whose bytes the stream does
    hold is served here: a stream of more than 2^48 bytes is not one
    that a connection delivers (executeRace gives every connection a
    deadline of thirty seconds), and the properties of responses below
    are stated for streams up to that length.  Up to the limit the
    machine is taken to have the memory; the runtime ends the process
    when it has not. *)
Definition maxAlloc : Z := 2 ^ 48.

Definition makePanics (size : Z) (reader : Reader) : bool :=
  (size <? 0) || ((maxAlloc <? size) && (len (pending reader) <? size)).

End Go.
Import Go.


Definition CRLF : bytes := [CR; LF].
Definition CRLFCRLF : bytes := [CR; LF; CR; LF].

(** ** internal/burp/parser.go *)
Module burp.

Record ParsedHTTPResponse : Type := {
  StatusCode : Z;
  StatusLine : bytes;
  Headers : gmap bytes bytes;
  Body : bytes;
  BodySize : Z;
  Truncated : bool
}.

(** The "Parse headers" loop of ParseHTTPResponse; the state is the header
    map. *)
Fixpoint parseHeaders (fuel : nat) (reader : Reader)
    (headers : gmap bytes bytes) : run (gmap bytes bytes) :=
  match fuel with
  | O => OutOfFuel
  | S fuel' =>
      let '(line, err, reader) := ReadString reader LF in
      let line := TrimSpace line in
      match line, err with
      | [], Some _ => Ret headers
      | [], None => parseHeaders fuel' reader headers
      | _ :: _, _ =>
          let headers :=
            match Index line (str ":") with
            | Some colonIdx =>
                if (0 <? colonIdx)%nat then
                  let key := TrimSpace (take colonIdx line) in
                  let value := TrimSpace (drop (colonIdx + 1) line) in
                  <[key := value]> headers
                else headers
            | None => headers
            end in
          match err with
          | Some _ => Ret headers
          | None => parseHeaders fuel' reader headers
          end
      end
  end.

(** The "Body handling" part of ParseHTTPResponse: offset, then limit.
    The result is the body and the Truncated flag. *)
Definition applyOffsetLimit (bodyBytes : bytes) (bodyOffset bodyLimit : Z)
  : bytes * bool :=
  if len bodyBytes >? 0 then
    let bodyBytes :=
      if bodyOffset >? 0 then
        if bodyOffset >=? len bodyBytes then []
        else drop (Z.to_nat bodyOffset) bodyBytes
      else bodyBytes in
    if (bodyLimit >? 0) && (len bodyBytes >? bodyLimit)
    then (take (Z.to_nat bodyLimit) bodyBytes, true)
    else (bodyBytes, false)
  else ([], false).

(** The split of ParseHTTPResponse at the blank line: header section and
    body bytes. *)
Definition splitHeaderBody (raw : bytes) : bytes * bytes :=
  match Index raw CRLFCRLF with
  | Some idx => (take idx raw, drop (idx + 4) raw)
  | None =>
      match Index raw [LF; LF] with
      | Some idx => (take idx raw, drop (idx + 2) raw)
      | None => (raw, [])
      end
  end.

(** The status code of a trimmed status line: its second field, when that
    is a number. *)
Definition statusCodeOf (statusLine : bytes) : Z :=
  let parts := SplitN statusLine (str " ") 3 in
  if len parts >=? 2 then
    match parts !! 1%nat with
    | Some field =>
        match Atoi field with
        | Some code => code
        | None => 0
        end
    | None => 0
    end
  else 0.

(** ParseHTTPResponse; [None] in the result is Go's nil.  The header
    section is read through a [bufio.Reader] on a string, whose only error
    is io.EOF, so that the early return after the status line is never
    taken. *)
Definition ParseHTTPResponse (raw : bytes) (bodyOffset bodyLimit : Z)
  : run (option ParsedHTTPResponse) :=
  match raw with
  | [] => Ret None
  | _ =>
      let '(headerSection, bodyBytes) := splitHeaderBody raw in
      let reader := mkReader headerSection (str "EOF") in
      let '(statusLine, _, reader) := ReadString reader LF in
      let statusLine := TrimSpace statusLine in
      match parseHeaders (S (length (pending reader))) reader ∅ with
      | Ret headers =>
          let '(body, truncated) :=
            applyOffsetLimit bodyBytes bodyOffset bodyLimit in
          Ret (Some {| StatusCode := statusCodeOf statusLine;
                       StatusLine := statusLine;
                       Headers := headers;
                       Body := body;
                       BodySize := len bodyBytes;
                       Truncated := truncated |})
      | Panic => Panic
      | OutOfFuel => OutOfFuel
      end
  end.

End burp.

(** ** internal/tools *)
Module tools.

(** *** normalize.go *)

Definition normalizeRawRequest (raw : bytes) : bytes :=
  let s := ReplaceAll raw CRLF [LF] in
  let s := ReplaceAll s [LF] CRLF in
  if negb (HasSuffix s CRLFCRLF) then
    if HasSuffix s CRLF then s ++ CRLF
    else s ++ CRLFCRLF
  else s.

(** *** race_request.go: constants and the handler's defaults *)

Definition maxRaceCount : Z := 50.
Definition defaultRaceCount : Z := 10.
Definition defaultRaceBodyLimit : Z := 500.

(** raceRequestHandler, "Count defaults and bounds" (an omitted JSON field
    is Go's zero value). *)
Definition effectiveCount (inputCount : Z) : Z :=
  let count := inputCount in
  let count := if count <=? 0 then defaultRaceCount else count in
  let count := if count >? maxRaceCount then maxRaceCount else count in
  count.

(** raceRequestHandler, "Body limit defaults". *)
Definition effectiveBodyLimit (inputBodyLimit : Z) : Z :=
  if inputBodyLimit =? 0 then defaultRaceBodyLimit else inputBodyLimit.

(** *** race_request.go: fixContentLength *)

Definition contentLengthLine (bodyLen : Z) : bytes :=
  str "Content-Length: " ++ Itoa bodyLen.

Definition isContentLength (line : bytes) : bool :=
  HasPrefix (ToLower line) (str "content-length:").

(** One turn of the loop over [lines]: the state is [(rebuilt, hasCL)]. *)
Definition rebuildStep (bodyLen : Z) (st : list bytes * bool) (line : bytes)
  : list bytes * bool :=
  let '(rebuilt, hasCL) := st in
  if isContentLength line
  then (rebuilt ++ [contentLengthLine bodyLen], true)
  else (rebuilt ++ [line], hasCL).

Definition fixContentLength (raw : bytes) : bytes :=
  let sep := CRLFCRLF in
  match Index raw sep with
  | None => raw
  | Some idx =>
      let headerSection := take idx raw in
      let body := drop (idx + length sep) raw in
      let lines := Split headerSection CRLF in
      let '(rebuilt, hasCL) :=
        fold_left (rebuildStep (len body)) lines ([], false) in
      let rebuilt :=
        if negb hasCL && (len body >? 0)
        then rebuilt ++ [contentLengthLine (len body)]
        else rebuilt in
      Join rebuilt CRLF ++ sep ++ body
  end.

(** raceRequestHandler, "Normalize the raw request and fix Content-Length". *)
Definition prepareRequest (raw : bytes) : bytes :=
  let rawNorm := normalizeRawRequest raw in
  let rawNorm := fixContentLength rawNorm in
  rawNorm.

(** executeRace, phase 2: [rawRequest[:len-1]] and [rawRequest[len-1:]].
    Slicing an empty request panics. *)
Definition splitLastByte (rawRequest : bytes) : run (bytes * bytes) :=
  match rawRequest with
  | [] => Panic
  | _ => Ret (take (length rawRequest - 1) rawRequest,
              drop (length rawRequest - 1) rawRequest)
  end.

(** *** race_request.go: the response reader *)

(** readFull: the loop calls Read until [n] bytes (the length of the
    buffer) have arrived or the stream fails; on a stream with fewer than
    [n] pending bytes that is all of them, and the stream's error. *)
Definition readFull (reader : Reader) (n : nat)
  : bytes * option error * Reader :=
  (take n (pending reader),
   if (length (pending reader) <? n)%nat then Some (failure reader) else None,
   mkReader (drop n (pending reader)) (failure reader)).

(** The loop of readChunkedBody; the state is the reader and [body].
    [make([]byte, size)] panics on a negative [size] and on one above
    the allocation limit. *)
Fixpoint chunkLoop (fuel : nat) (reader : Reader) (body : bytes)
  : run (bytes * option error * Reader) :=
  match fuel with
  | O => OutOfFuel
  | S fuel' =>
      let '(sizeLine, err, reader) := ReadString reader LF in
      match err with
      | Some e => Ret (body, Some e, reader)
      | None =>
          let sizeStr := TrimSpace sizeLine in
          match ParseInt sizeStr 16 with
          | None => Ret (body, None, reader)
          | Some size =>
              if size =? 0 then
                let '(_, _, reader) := ReadString reader LF in
                Ret (body, None, reader)
              else if makePanics size reader then Panic
              else
                let '(chunk, err, reader) := readFull reader (Z.to_nat size) in
                let body := body ++ chunk in
                match err with
                | Some e => Ret (body, Some e, reader)
                | None =>
                    let '(_, _, reader) := ReadString reader LF in
                    chunkLoop fuel' reader body
                end
          end
      end
  end.

Definition readChunkedBody (reader : Reader)
  : run (bytes * option error * Reader) :=
  chunkLoop (S (length (pending reader))) reader [].

(** What a header line does to [contentLength] and [chunked]. *)
Definition headerContentLength (trimmed : bytes) (contentLength : Z) : Z :=
  if HasPrefix (ToLower trimmed) (str "content-length:") then
    let valStr := TrimSpace (drop (length (str "content-length:")) trimmed) in
    match Atoi valStr with
    | Some cl => cl
    | None => contentLength
    end
  else contentLength.

Definition headerChunked (trimmed : bytes) (chunked : bool) : bool :=
  if HasPrefix (ToLower trimmed) (str "transfer-encoding:") then
    let val := TrimSpace (drop (length (str "transfer-encoding:")) trimmed) in
    if Contains (ToLower val) (str "chunked") then true else chunked
  else chunked.

(** The "Read headers" loop of readHTTPResponse.  It ends with the error
    of a failed read, or with the response so far, [contentLength] and
    [chunked]. *)
Fixpoint headerLoop (fuel : nat) (reader : Reader) (response : bytes)
    (contentLength : Z) (chunked : bool)
  : run ((error + bytes * Z * bool) * Reader) :=
  match fuel with
  | O => OutOfFuel
  | S fuel' =>
      let '(line, err, reader) := ReadString reader LF in
      match err with
      | Some e => Ret (inl (str "reading headers: " ++ e), reader)
      | None =>
          let response := response ++ line in
          let trimmed := TrimSpace line in
          match trimmed with
          | [] => Ret (inr (response, contentLength, chunked), reader)
          | _ =>
              let contentLength := headerContentLength trimmed contentLength in
              let chunked := headerChunked trimmed chunked in
              headerLoop fuel' reader response contentLength chunked
          end
      end
  end.

(** The "Read body" part of readHTTPResponse. *)
Definition readBody (reader : Reader) (response : bytes)
    (contentLength : Z) (chunked : bool)
  : run (bytes * option error * Reader) :=
  if chunked then
    match readChunkedBody reader with
    | Ret (body, Some _, reader) => Ret (response, None, reader)
    | Ret (body, None, reader) => Ret (response ++ body, None, reader)
    | Panic => Panic
    | OutOfFuel => OutOfFuel
    end
  else if contentLength >? 0 then
    if makePanics contentLength reader then Panic else
    let '(body, err, reader) := readFull reader (Z.to_nat contentLength) in
    match err, body with
    | Some _, [] => Ret (response, None, reader)
    | _, _ => Ret (response ++ body, None, reader)
    end
  else Ret (response, None, reader).

Definition readHTTPResponse (reader : Reader)
  : run (bytes * option error * Reader) :=
  let '(statusLine, err, reader) := ReadString reader LF in
  match err with
  | Some e => Ret ([], Some (str "reading status line: " ++ e), reader)
  | None =>
      let response := statusLine in
      match headerLoop (S (length (pending reader))) reader response (-1) false with
      | Ret (inl e, reader) => Ret ([], Some e, reader)
      | Ret (inr (response, contentLength, chunked), reader) =>
          readBody reader response contentLength chunked
      | Panic => Panic
      | OutOfFuel => OutOfFuel
      end
  end.

(** *** race_request.go: executeRace *)

Record RaceResponseEntry : Type := {
  Index : Z;
  StatusCode : Z;
  Body : bytes
}.

(** What the network does to one connection slot: the result of dialConn
    (an error, or a connection, given by what its reader will deliver),
    and the results of writing and flushing the request prefix. *)
Record Slot : Type := {
  dial : error + Reader;
  prefixWrite : option error;
  prefixFlush : option error
}.

(** Phase 1: [conns] and [connErrors] once all dials are joined.  Every
    task writes the two cells of its own index only. *)
Definition dialAll (net : nat -> Slot) (count : nat)
  : list (option Reader) * list (option error) :=
  (map (fun idx => match dial (net idx) with
                   | inr conn => Some conn
                   | inl _ => None
                   end) (seq 0 count),
   map (fun idx => match dial (net idx) with
                   | inr _ => None
                   | inl err => Some err
                   end) (seq 0 count)).

(** Phase 2, one turn of the loop over [conns]. *)
Definition sendPrefix (net : nat -> Slot) (i : nat)
    (rc : option Reader) (connError : option error)
  : option Reader * option error :=
  match rc with
  | None => (None, connError)
  | Some c =>
      match prefixWrite (net i) with
      | Some err => (None, Some (str "prefix write: " ++ err))
      | None =>
          match prefixFlush (net i) with
          | Some err => (None, Some (str "prefix flush: " ++ err))
          | None => (Some c, connError)
          end
      end
  end.

Definition sendPrefixes (net : nat -> Slot)
    (conns : list (option Reader)) (connErrors : list (option error))
  : list (option Reader) * list (option error) :=
  let turns := imap (fun i '(rc, e) => sendPrefix net i rc e)
                    (zip conns connErrors) in
  (map fst turns, map snd turns).

(** Phase 4, the task that reads the response of slot [idx]: the entry
    it stores in [results[idx]]. *)
Definition readSlot (reader : Reader) (bodyLimit : Z) (idx : nat)
  : run RaceResponseEntry :=
  match readHTTPResponse reader with
  | Ret (resp, Some err, _) =>
      Ret {| Index := Z.of_nat idx;
             StatusCode := 0;
             Body := str "read error: " ++ err |}
  | Ret (resp, None, _) =>
      match burp.ParseHTTPResponse resp 0 bodyLimit with
      | Ret (Some parsed) =>
          Ret {| Index := Z.of_nat idx;
                 StatusCode := burp.StatusCode parsed;
                 Body := burp.Body parsed |}
      | Ret None =>
          Ret {| Index := Z.of_nat idx; StatusCode := 0; Body := [] |}
      | Panic => Panic
      | OutOfFuel => OutOfFuel
      end
  | Panic => Panic
  | OutOfFuel => OutOfFuel
  end.


(** Phase 4: the entry of slot [idx]: the placeholder written by the loop
    for a slot without connection, or what the slot's reading task
    stores. *)
Definition slotEntry (conns : list (option Reader))
    (connErrors : list (option error)) (bodyLimit : Z) (idx : nat)
  : run RaceResponseEntry :=
  match conns !! idx with
  | None => Panic
  | Some None =>
      Ret {| Index := Z.of_nat idx;
             StatusCode := 0;
             Body := str "connection failed: "
                       ++ showError (default None (connErrors !! idx)) |}
  | Some (Some reader) => readSlot reader bodyLimit idx
  end.

(** [results[idx] = entry]; an index outside of the slice panics. *)
Definition store (results : list RaceResponseEntry) (idx : nat)
    (entry : RaceResponseEntry) : run (list RaceResponseEntry) :=
  if (idx <? length results)%nat then Ret (<[idx := entry]> results)
  else Panic.

(** Phase 4: the writes to [results].  The loop writes the placeholders
    and the reading tasks write the other entries, in any interleaving:
    [sched] lists the slots in the order of these writes. *)
Fixpoint collect (conns : list (option Reader))
    (connErrors : list (option error)) (bodyLimit : Z)
    (sched : list nat) (results : list RaceResponseEntry)
  : run (list RaceResponseEntry) :=
  match sched with
  | [] => Ret results
  | idx :: sched' =>
      match slotEntry conns connErrors bodyLimit idx with
      | Ret entry =>
          match store results idx entry with
          | Ret results => collect conns connErrors bodyLimit sched' results
          | Panic => Panic
          | OutOfFuel => OutOfFuel
          end
      | Panic => Panic
      | OutOfFuel => OutOfFuel
      end
  end.

(** executeRace.  [net] is what the network does to each slot and [sched]
    the order in which the slots of phase 4 are completed; the tasks of a
    phase touch the cells of their own index only, and every phase is
    joined before the next one starts.  The final byte of phase 3 is
    written without looking at the result.  [count] is a [nat]: the
    handler passes a count in [1, 50].  The result is Go's pair: the
    entries, or the error. *)
Definition executeRace (net : nat -> Slot) (rawRequest : bytes)
    (count : nat) (bodyLimit : Z) (sched : list nat)
  : run (list RaceResponseEntry + error) :=
  let '(conns, connErrors) := dialAll net count in
  let ready := length (filter (fun rc => is_Some rc) conns) in
  if (ready =? 0)%nat then
    match connErrors !! 0%nat with
    | None => Panic
    | Some first =>
        Ret (inr (str "all " ++ Itoa (Z.of_nat count)
                    ++ str " connections failed: " ++ showError first))
    end
  else
    match splitLastByte rawRequest with
    | Ret (prefix, lastByte) =>
        let '(conns, connErrors) := sendPrefixes net conns connErrors in
        let results :=
          replicate count {| Index := 0; StatusCode := 0; Body := [] |} in
        match collect conns connErrors bodyLimit sched results with
        | Ret results => Ret (inl results)
        | Panic => Panic
        | OutOfFuel => OutOfFuel
        end
    | Panic => Panic
    | OutOfFuel => OutOfFuel
    end.

End tools.

Import tools.

(** ** Notions used to state the properties *)

(** A line holds no "\r\n". *)
Definition crlfFree (l : bytes) : Prop := Go.Index l CRLF = None.

(** The lines of a header block that ends at the first "\r\n\r\n": there
    is a first line, no line holds "\r\n", and only the first line may be
    empty. *)
Definition headerLines (ls : list bytes) : Prop :=
  ls <> [] /\ Forall crlfFree ls /\ Forall (fun l => l <> []) (tail ls).

(** What fixContentLength makes of one header line, and of the lines of a
    header block when the body has [n] bytes. *)
Definition rebuildLine (n : Z) (line : bytes) : bytes :=
  if isContentLength line then contentLengthLine n else line.

Definition withContentLength (n : Z) (lines : list bytes) : list bytes :=
  map (rebuildLine n) lines
  ++ (if negb (existsb isContentLength lines) && (n >? 0)
      then [contentLengthLine n] else []).

(** A header line as it is typed: no "\r" and no "\n" in it. *)
Definition isPlain (l : bytes) : bool :=
  forallb (fun c => negb (Ascii.eqb c CR) && negb (Ascii.eqb c LF)) l.

Definition nonEmpty (l : bytes) : bool :=
  match l with [] => false | _ => true end.

(** The request with header lines [ls], line ends [nl] and body [body]. *)
Definition rawRequestOf (ls : list bytes) (nl body : bytes) : bytes :=
  Join ls nl ++ nl ++ nl ++ body.

(** The lines of a typed header block: a first line, and no empty line
    after it. *)
Definition headerBlock (ls : list bytes) : bool :=
  match ls with
  | [] => false
  | _ :: rest => forallb isPlain ls && forallb nonEmpty rest
  end.

(** The chunked transfer coding of a body cut into [chunks]: for each
    chunk its size in hexadecimal, "\r\n", its bytes and "\r\n"; then the
    chunk of size zero and the final "\r\n".  [upper] chooses between the
    digits A-F and a-f. *)
Definition hexDigit (upper : bool) (d : Z) : ascii :=
  ascii_of_nat
    (Z.to_nat (if d <? 10 then 48 + d else if upper then 55 + d else 87 + d)).

(** The hexadecimal digits of [n], the lowest first. *)
Fixpoint hexRev (upper : bool) (fuel : nat) (n : Z) : bytes :=
  match fuel with
  | O => []
  | S fuel' =>
      if n <? 16 then [hexDigit upper n]
      else hexDigit upper (n mod 16) :: hexRev upper fuel' (n / 16)
  end.

Definition hexOf (upper : bool) (n : Z) : bytes :=
  rev (hexRev upper (S (Z.to_nat n)) n).

Definition encodeChunk (upper : bool) (chunk : bytes) : bytes :=
  hexOf upper (len chunk) ++ CRLF ++ chunk ++ CRLF.

Definition encodeChunked (upper : bool) (chunks : list bytes) : bytes :=
  concat (map (encodeChunk upper) chunks) ++ str "0" ++ CRLF ++ CRLF.

(** A chunk of a chunked body is not empty (the chunk of size zero ends
    the body), and its size is an int64. *)
Definition isChunk (chunk : bytes) : bool :=
  (0 <? len chunk) && (len chunk <=? maxInt64).

(** A byte of a size line with the value [d]: a digit, no space, no
    "\n" and no sign. *)
Definition sizeByte (c : ascii) (d : Z) : Prop :=
  digitVal c = Some d /\ isSpace c = false /\ c <> LF /\
  Ascii.eqb c "+" = false /\ Ascii.eqb c "-" = false.

(** A line of a response: it ends with its only "\n". *)
Definition isLine (line : bytes) : bool :=
  match cutAfter LF line with
  | Some (_, []) => true
  | _ => false
  end.

(** A header line is a line that is not blank; the blank line ends the
    headers. *)
Definition isHeaderLine (line : bytes) : bool :=
  isLine line && nonEmpty (TrimSpace line).

Definition isBlankLine (line : bytes) : bool :=
  isLine line && negb (nonEmpty (TrimSpace line)).

(** A Transfer-Encoding header whose value contains "chunked", whatever
    the case of the letters. *)
Definition transferChunked (line : bytes) : bool :=
  let trimmed := TrimSpace line in
  HasPrefix (ToLower trimmed) (str "transfer-encoding:")
  && Contains (ToLower (TrimSpace (drop 18 trimmed))) (str "chunked").

(** The integer of a Content-Length header. *)
Definition contentLengthOf (line : bytes) : option Z :=
  let trimmed := TrimSpace line in
  if HasPrefix (ToLower trimmed) (str "content-length:")
  then Atoi (TrimSpace (drop 15 trimmed))
  else None.

(** The integer of the last Content-Length header that has one. *)
Fixpoint lastContentLength (headers : list bytes) : option Z :=
  match headers with
  | [] => None
  | h :: rest =>
      match lastContentLength rest with
      | Some n => Some n
      | None => contentLengthOf h
      end
  end.

(** The framing of a body, as the headers decide it. *)
Inductive Framing : Type :=
  | ChunkedBody
  | FixedBody (n : Z)
  | NoBody.

Definition framing (headers : list bytes) : Framing :=
  if existsb transferChunked headers then ChunkedBody
  else match lastContentLength headers with
       | Some n => if n >? 0 then FixedBody n else NoBody
       | None => NoBody
       end.

(** Reading a body in a given framing after the head (status line,
    headers and blank line) of a response: by chunked decoding, a body
    that ends with an error being left out; or the next [n] bytes, as far
    as the stream has them, unless [n] is more than can be allocated,
    which is a panic; or nothing. *)
Definition readFramed (f : Framing) (head : bytes) (reader : Reader)
  : run (bytes * option error * Reader) :=
  match f with
  | ChunkedBody =>
      match readChunkedBody reader with
      | Ret (body, None, reader) => Ret (head ++ body, None, reader)
      | Ret (_, Some _, reader) => Ret (head, None, reader)
      | Panic => Panic
      | OutOfFuel => OutOfFuel
      end
  | FixedBody n =>
      if maxAlloc <? n then Panic
      else Ret (head ++ take (Z.to_nat n) (pending reader), None,
                mkReader (drop (Z.to_nat n) (pending reader))
                  (failure reader))
  | NoBody => Ret (head, None, reader)
  end.

(** What happens to slot [idx], told from what the network does to that
    slot alone: a placeholder with status 0 and the error of the dial or
    of the prefix for a slot that has no connection to read from, and
    otherwise what reading the slot's response gives. *)
Definition describeSlot (net : nat -> Slot) (bodyLimit : Z) (idx : nat)
  : run RaceResponseEntry :=
  let failed (msg : bytes) :=
    Ret {| Index := Z.of_nat idx; StatusCode := 0;
           Body := str "connection failed: " ++ msg |} in
  match dial (net idx) with
  | inl err => failed err
  | inr reader =>
      match prefixWrite (net idx), prefixFlush (net idx) with
      | Some err, _ => failed (str "prefix write: " ++ err)
      | None, Some err => failed (str "prefix flush: " ++ err)
      | None, None => readSlot reader bodyLimit idx
      end
  end.

(** Every dial of the [count] slots fails. *)
Definition allDialsFail (net : nat -> Slot) (count : nat) : Prop :=
  forall i, (i < count)%nat -> exists err, dial (net i) = inl err.

(** The body section of a response, as ParseHTTPResponse cuts it. *)
Definition bodyOf (resp : bytes) : bytes := snd (burp.splitHeaderBody resp).

(** The two cells of slot [idx] after phase 1 and after phase 2. *)
Definition dialled (net : nat -> Slot) (idx : nat)
  : option Reader * option error :=
  match dial (net idx) with
  | inr conn => (Some conn, None)
  | inl err => (None, Some err)
  end.

Definition afterPrefix (net : nat -> Slot) (idx : nat)
  : option Reader * option error :=
  sendPrefix net idx (fst (dialled net idx)) (snd (dialled net idx)).


(** ** Sample data for the properties that are checked on an input *)

Definition refused : Slot :=
  {| dial := inl (str "connection refused");
     prefixWrite := None; prefixFlush := None |}.

(** A slot that connects, takes the prefix, and answers with [stream]
    before the connection ends. *)
Definition answering (stream : bytes) : Slot :=
  {| dial := inr (mkReader stream (str "EOF"));
     prefixWrite := None; prefixFlush := None |}.

Definition okLine : bytes := str "HTTP/1.1 200 OK" ++ CRLF.

(** Slot 0 is refused, slot 1 answers 200 with a body of five bytes,
    slot 2 answers 404 in chunks. *)
Definition sampleNet (idx : nat) : Slot :=
  match idx with
  | 0%nat => refused
  | 1%nat => answering (okLine ++ str "Content-Length: 5" ++ CRLF ++ CRLF
                        ++ str "hello")
  | _ => answering (str "HTTP/1.1 404 Not Found" ++ CRLF
                    ++ str "Transfer-Encoding: chunked" ++ CRLF ++ CRLF
                    ++ encodeChunked false [str "not "; str "found"])
  end.

(** A response whose chunked body is cut after three of the five bytes
    of its first chunk, and the same with a Content-Length. *)
Definition cutChunked : bytes :=
  okLine ++ str "Transfer-Encoding: chunked" ++ CRLF ++ CRLF
  ++ str "5" ++ CRLF ++ str "hel".

Definition cutFixed : bytes :=
  okLine ++ str "Content-Length: 5" ++ CRLF ++ CRLF ++ str "hel".


(** * The rest of the sources *)

(** ** More of Go's standard library *)
Module GoMore.

(** [strings.LastIndex]: the offset of the last occurrence; [None] is
    Go's -1. *)
Fixpoint LastIndex (s substr : bytes) : option nat :=
  match s with
  | [] => if HasPrefix [] substr then Some 0%nat else None
  | _ :: s' =>
      match LastIndex s' substr with
      | Some i => Some (S i)
      | None => if HasPrefix s substr then Some 0%nat else None
      end
  end.

(** [strings.EqualFold s t] for a [t] of ASCII bytes (the sources pass
    "host"): the runes of [s] and the bytes of [t] are equal up to the
    case of the letters.  Besides an ASCII letter in either case, the
    runes that fold to an ASCII letter are U+017F, the long s (the bytes
    C5 BF), for 's', and U+212A, the Kelvin sign (E2 84 AA), for 'k'.
    A byte of [s] that is no UTF-8 is the rune U+FFFD and folds to no
    letter. *)
Definition isLongS (b1 b2 : ascii) : bool :=
  (nat_of_ascii b1 =? 197)%nat && (nat_of_ascii b2 =? 191)%nat.

Fixpoint EqualFold (s t : bytes) {struct s} : bool :=
  match s, t with
  | [], [] => true
  | [], _ :: _ => false
  | _ :: _, [] => false
  | b1 :: s1, c :: t' =>
      if (nat_of_ascii b1 <? 128)%nat
      then Ascii.eqb (lowerByte b1) (lowerByte c) && EqualFold s1 t'
      else match s1 with
           | b2 :: s2 =>
               if isLongS b1 b2
               then Ascii.eqb (lowerByte c) "s" && EqualFold s2 t'
               else match s2 with
                    | b3 :: s3 =>
                        if isKelvin b1 b2 b3
                        then Ascii.eqb (lowerByte c) "k" && EqualFold s3 t'
                        else false
                    | [] => false
                    end
           | [] => false
           end
  end.

End GoMore.
Import GoMore.

(** ** internal/burp/client.go *)
Module client.

(** An item of a tool result: a text, or content of another kind. *)
Inductive Content : Type :=
  | TextContent (Text : bytes)
  | OtherContent.

(** ExtractText: the loop over [result.Content]; the state is [text]. *)
Definition ExtractText (content : list Content) : bytes :=
  fold_left
    (fun text c =>
       match c with
       | TextContent t =>
           let text := if nonEmpty text then text ++ [LF] else text in
           text ++ t
       | OtherContent => text
       end)
    content [].

End client.

(** ** internal/burp/parser.go, the other parsers *)
Module parser.

Definition annMarker : bytes := str ", messageAnnotations=Annotations{".
Definition respMarker : bytes := str ", httpResponse=".
Definition reqPrefix : bytes := str "HttpRequestResponse{httpRequest=".
Definition reqPrefix2 : bytes := str "httpRequest=".

Definition UnwrapResponse (raw : bytes) : bytes :=
  let raw :=
    match LastIndex raw annMarker with
    | Some idx => take idx raw
    | None => raw
    end in
  match Go.Index raw respMarker with
  | Some idx => drop (idx + length respMarker) raw
  | None => raw
  end.

Definition UnwrapRequest (raw : bytes) : bytes :=
  let raw :=
    match LastIndex raw annMarker with
    | Some idx => take idx raw
    | None => raw
    end in
  let requestPart :=
    match Go.Index raw respMarker with
    | Some idx => take idx raw
    | None => raw
    end in
  if HasPrefix requestPart reqPrefix
  then drop (length reqPrefix) requestPart
  else if HasPrefix requestPart reqPrefix2
  then drop (length reqPrefix2) requestPart
  else requestPart.

Record ParsedHTTPRequest : Type := {
  Method : bytes;
  Path : bytes;
  Host : bytes;
  Headers : gmap bytes bytes;
  Body : bytes
}.

(** One turn of the "Parse headers" loop of ParseRawRequest; the state
    is the header map and the host. *)
Definition requestHeader (st : gmap bytes bytes * bytes) (line : bytes)
  : gmap bytes bytes * bytes :=
  let '(headers, host) := st in
  let line := TrimSpace line in
  match line with
  | [] => st
  | _ =>
      match Go.Index line (str ":") with
      | Some colonIdx =>
          if (0 <? colonIdx)%nat then
            let key := TrimSpace (take colonIdx line) in
            let value := TrimSpace (drop (colonIdx + 1) line) in
            (<[key := value]> headers,
             if EqualFold key (str "host") then value else host)
          else st
      | None => st
      end
  end.

Definition ParseRawRequest (raw : bytes) : ParsedHTTPRequest :=
  let raw := ReplaceAll raw CRLF [LF] in
  let '(headerSection, body) :=
    match Go.Index raw [LF; LF] with
    | Some idx => (take idx raw, drop (idx + 2) raw)
    | None => (raw, [])
    end in
  let lines := Split headerSection [LF] in
  match lines with
  | [] => {| Method := []; Path := []; Host := []; Headers := ∅; Body := body |}
  | first :: rest =>
      let requestLine := TrimSpace first in
      let parts := SplitN requestLine (str " ") 3 in
      let '(method, path) :=
        match parts with
        | m :: p :: _ => (m, p)
        | _ => ([], [])
        end in
      let '(headers, host) := fold_left requestHeader rest (∅, []) in
      {| Method := method; Path := path; Host := host;
         Headers := headers; Body := body |}
  end.

Record ScannerIssue : Type := {
  Name : bytes;
  Severity : bytes;
  Confidence : bytes;
  URL : bytes;
  IssueDetail : bytes
}.

Definition isSeparatorLine (line : bytes) : bool :=
  if len line <? 3 then false
  else forallb (fun c => negb (negb (Ascii.eqb c "-") && negb (Ascii.eqb c "=")
                                && negb (Ascii.eqb c "*"))) line.

Definition extractValue (line : bytes) : bytes :=
  match Go.Index line (str ":") with
  | None => line
  | Some idx => TrimSpace (drop (idx + 1) line)
  end.

(** One turn of the loop over the lines in splitIssueBlocks; the state
    is [blocks2] and the builder [current]. *)
Definition blockStep (st : list bytes * bytes) (line : bytes)
  : list bytes * bytes :=
  let '(blocks2, current) := st in
  let trimmed := TrimSpace line in
  if isSeparatorLine trimmed then
    if len current >? 0 then (blocks2 ++ [current], []) else (blocks2, current)
  else
    let current := if len current >? 0 then current ++ [LF] else current in
    (blocks2, current ++ line).

Definition splitIssueBlocks (raw : bytes) : list bytes :=
  let blocks := Split raw [LF; LF] in
  if len blocks >? 1 then blocks
  else
    let lines := Split raw [LF] in
    let '(blocks2, current) := fold_left blockStep lines ([], []) in
    let blocks2 := if len current >? 0 then blocks2 ++ [current] else blocks2 in
    if len blocks2 >? 1 then blocks2 else [raw].

(** One turn of the loop over the lines of a block in
    ParseScannerIssues. *)
Definition issueLine (detailLimit : Z) (issue : ScannerIssue) (line : bytes)
  : ScannerIssue :=
  let line := TrimSpace line in
  let lower := ToLower line in
  if HasPrefix lower (str "issue:") || HasPrefix lower (str "name:")
     || HasPrefix lower (str "issue name:") then
    {| Name := extractValue line; Severity := Severity issue;
       Confidence := Confidence issue; URL := URL issue;
       IssueDetail := IssueDetail issue |}
  else if HasPrefix lower (str "severity:") then
    {| Name := Name issue; Severity := extractValue line;
       Confidence := Confidence issue; URL := URL issue;
       IssueDetail := IssueDetail issue |}
  else if HasPrefix lower (str "confidence:") then
    {| Name := Name issue; Severity := Severity issue;
       Confidence := extractValue line; URL := URL issue;
       IssueDetail := IssueDetail issue |}
  else if HasPrefix lower (str "url:") || HasPrefix lower (str "path:") then
    {| Name := Name issue; Severity := Severity issue;
       Confidence := Confidence issue; URL := extractValue line;
       IssueDetail := IssueDetail issue |}
  else if HasPrefix lower (str "detail:")
          || HasPrefix lower (str "issue detail:") then
    let detail := extractValue line in
    let detail :=
      if (detailLimit >? 0) && (len detail >? detailLimit)
      then take (Z.to_nat detailLimit) detail ++ str "..."
      else detail in
    {| Name := Name issue; Severity := Severity issue;
       Confidence := Confidence issue; URL := URL issue;
       IssueDetail := detail |}
  else issue.

(** The body of the loop over the blocks: the issue that a block adds to
    [issues], if any. *)
Definition issueOfBlock (detailLimit : Z) (block : bytes)
  : option ScannerIssue :=
  let block := TrimSpace block in
  match block with
  | [] => None
  | _ =>
      let issue :=
        fold_left (issueLine detailLimit) (Split block [LF])
          {| Name := []; Severity := []; Confidence := []; URL := [];
             IssueDetail := [] |} in
      let issue :=
        match Name issue with
        | [] =>
            if len block >? 0 then
              {| Name := if len block >? 200
                         then take 200 block ++ str "..."
                         else block;
                 Severity := Severity issue; Confidence := Confidence issue;
                 URL := URL issue; IssueDetail := IssueDetail issue |}
            else issue
        | _ => issue
        end in
      match Name issue with
      | [] => None
      | _ => Some issue
      end
  end.

(** ParseScannerIssues; Go's nil slice is the empty list. *)
Definition ParseScannerIssues (raw : bytes) (detailLimit : Z)
  : list ScannerIssue :=
  match raw with
  | [] => []
  | _ => omap (issueOfBlock detailLimit) (splitIssueBlocks raw)
  end.

(** The inner loop of splitHttpRequestResponseBlocks, at index [i] of
    [remaining] with [s] the bytes from there on: the index after the
    brace that brings [depth] back to 0; [None] is Go's [end = -1]. *)
Fixpoint closingBrace (s : bytes) (depth : Z) (i : nat) : option nat :=
  match s with
  | [] => None
  | c :: s' =>
      if Ascii.eqb c "{" then closingBrace s' (depth + 1) (S i)
      else if Ascii.eqb c "}" then
        let depth := depth - 1 in
        if depth =? 0 then Some (S i) else closingBrace s' depth (S i)
      else closingBrace s' depth (S i)
  end.

(** The outer loop; the state is [remaining] and [blocks]. *)
Fixpoint blocksLoop (fuel : nat) (remaining : bytes) (blocks : list bytes)
  : run (list bytes) :=
  match fuel with
  | O => OutOfFuel
  | S fuel' =>
      match Go.Index remaining (str "HttpRequestResponse{") with
      | None => Ret blocks
      | Some idx =>
          let start := idx in
          match closingBrace (drop start remaining) 0 start with
          | Some end_ =>
              if (start <? end_)%nat then
                blocksLoop fuel' (drop end_ remaining)
                  (blocks ++ [take (end_ - start) (drop start remaining)])
              else Ret blocks
          | None => Ret blocks
          end
      end
  end.

Definition splitHttpRequestResponseBlocks (raw : bytes) : run (list bytes) :=
  blocksLoop (S (length raw)) raw [].

End parser.

(** ** internal/tools: the handlers *)
Module handlers.

(** getScannerIssuesHandler, "DetailLimit: default 500, -1 = unlimited". *)
Definition effectiveDetailLimit (inputDetailLimit : Z) : Z :=
  let detailLimit := inputDetailLimit in
  let detailLimit := if detailLimit =? 0 then 500 else detailLimit in
  let detailLimit := if detailLimit <? 0 then 0 else detailLimit in
  detailLimit.

Record RaceRequestInput : Type := {
  Raw : bytes;
  Host : bytes;
  Port : Z;
  TLS : option bool;
  Count : Z;
  BodyLimit : Z
}.

(** What raceRequestHandler hands to executeRace. *)
Record RaceCall : Type := {
  host : bytes;
  port : Z;
  useTLS : bool;
  rawBytes : bytes;
  count : Z;
  bodyLimit : Z
}.

Section Handler.

(** [net.SplitHostPort]: host and port of "host:port", "[host]:port";
    [None] for its errors. *)
Variable SplitHostPort : bytes -> option (bytes * bytes).

(** raceRequestHandler up to the call of executeRace: an error, or the
    arguments of the call. *)
Definition raceCall (input : RaceRequestInput) : error + RaceCall :=
  match Raw input with
  | [] => inl (str "raw HTTP request is required")
  | _ =>
      let parsed := parser.ParseRawRequest (Raw input) in
      let host := Host input in
      let host := match host with [] => parser.Host parsed | _ => host end in
      match host with
      | [] => inl (str "host is required (provide in input or Host header)")
      | _ =>
          let '(host, inputPort) :=
            match SplitHostPort host with
            | Some (h, p) =>
                (h, if Port input =? 0
                    then match Atoi p with
                         | Some pn => pn
                         | None => Port input
                         end
                    else Port input)
            | None => (host, Port input)
            end in
          let useTLS := match TLS input with Some b => b | None => true end in
          let port := inputPort in
          let port := if port =? 0 then (if useTLS then 443 else 80) else port in
          let count := effectiveCount (Count input) in
          let bodyLimit := effectiveBodyLimit (BodyLimit input) in
          let rawNorm := normalizeRawRequest (Raw input) in
          let rawNorm := fixContentLength rawNorm in
          inr {| host := host; port := port; useTLS := useTLS;
                 rawBytes := rawNorm; count := count; bodyLimit := bodyLimit |}
      end
  end.

(** raceRequestHandler, "Build summary": the loop that fills
    [statusCounts]. *)
Definition statusCounts (results : list RaceResponseEntry) : gmap Z Z :=
  fold_left
    (fun counts r =>
       <[StatusCode r := default 0 (counts !! StatusCode r) + 1]> counts)
    results ∅.


End Handler.

(** sendRequestHandler, "Fall back to HTTP/1.1 if HTTP/2 response is
    empty or 502": the value of [needsFallback]. *)
Definition needsFallback (responseText : bytes) : bool :=
  let needsFallback := negb (nonEmpty (TrimSpace responseText)) in
  if negb needsFallback && HasPrefix responseText (str "HTTP/") then
    let parts := SplitN responseText (str " ") 3 in
    (len parts >=? 2)
    && match parts !! 1%nat with
       | Some code => if decide (code = str "502") then true else false
       | None => false
       end
  else needsFallback.

End handlers.

(** ** Notions used to state the properties of the rest of the code *)

(** The header lines and the body of a request, cut at the first
    "\r\n\r\n" as fixContentLength cuts it. *)
Definition headerLinesOf (raw : bytes) : list bytes :=
  match Go.Index raw CRLFCRLF with
  | Some idx => Split (take idx raw) CRLF
  | None => []
  end.

Definition bodyAfterHeaders (raw : bytes) : bytes :=
  match Go.Index raw CRLFCRLF with
  | Some idx => drop (idx + length CRLFCRLF) raw
  | None => []
  end.

(** A header line that is not a Content-Length line. *)
Definition otherHeader (line : bytes) : bool := negb (isContentLength line).

(** The body of the page that ParseHTTPResponse gives at an offset. *)
Definition pageOf (raw : bytes) (bodyOffset bodyLimit : Z) : bytes :=
  match burp.ParseHTTPResponse raw bodyOffset bodyLimit with
  | Ret (Some parsed) => burp.Body parsed
  | _ => []
  end.

(** The number of results with a status code. *)
Definition withStatus (code : Z) (results : list RaceResponseEntry) : Z :=
  len (List.filter (fun r => StatusCode r =? code) results).


(** The texts of the text items of a tool result, in their order, and
    the same without the empty texts it starts with. *)
Fixpoint textsOf (content : list client.Content) : list bytes :=
  match content with
  | [] => []
  | client.TextContent t :: rest => t :: textsOf rest
  | client.OtherContent :: rest => textsOf rest
  end.

Fixpoint skipEmpty (texts : list bytes) : list bytes :=
  match texts with
  | [] :: rest => skipEmpty rest
  | _ => texts
  end.

(** Burp's rendering of an exchange: the request after [wrapper], the
    response after ", httpResponse=" and the annotations after
    ", messageAnnotations=Annotations{". *)
Definition wrapped (wrapper request response annotations : bytes) : bytes :=
  wrapper ++ request ++ parser.respMarker ++ response
  ++ parser.annMarker ++ annotations.

(** A text of ASCII bytes. *)
Definition isASCII (s : bytes) : bool :=
  forallb (fun c => (nat_of_ascii c <? 128)%nat) s.

(** What TrimSpace does at either end of a text of ASCII bytes: the
    white space there is one byte wide. *)
Fixpoint trimBytes (s : bytes) : bytes :=
  match s with
  | [] => []
  | c :: s' => if isSpace c then trimBytes s' else s
  end.

Definition trimASCII (s : bytes) : bytes :=
  rev (trimBytes (rev (trimBytes s))).

(** A block of scanner output that is not blank. *)
Definition notBlank (block : bytes) : bool := nonEmpty (TrimSpace block).

(** A token: not empty, and without white space. *)
Definition isToken (s : bytes) : bool :=
  nonEmpty s && forallb (fun c => negb (isSpace c)) s.

(** A header as it is typed: the name a token without ":", the value
    without "\r" and "\n". *)
Definition isHeader (h : bytes * bytes) : bool :=
  isToken (fst h) && forallb (fun c => negb (Ascii.eqb c ":")) (fst h)
  && isPlain (snd h).

Definition headerText (h : bytes * bytes) : bytes :=
  fst h ++ str ": " ++ snd h.

(** The same in ASCII: a word is a token of ASCII bytes, a field a
    header whose name and value are ASCII. *)
Definition isWord (s : bytes) : bool := isToken s && isASCII s.

Definition isField (h : bytes * bytes) : bool :=
  isHeader h && isASCII (fst h) && isASCII (snd h).

(** The text of a request: request line, headers, blank line, body. *)
Definition requestText (method path version : bytes)
    (headers : list (bytes * bytes)) (nl body : bytes) : bytes :=
  rawRequestOf
    ((method ++ str " " ++ path ++ str " " ++ version)
     :: map headerText headers) nl body.

(** The map of the headers, a later header replacing an earlier one of
    the same name, and the value of the last header called "host",
    whatever the case of its letters. *)
Definition headerMap (headers : list (bytes * bytes)) : gmap bytes bytes :=
  fold_left (fun m h => <[fst h := TrimSpace (snd h)]> m) headers ∅.

Definition hostOf (headers : list (bytes * bytes)) : bytes :=
  fold_left (fun host h => if EqualFold (fst h) (str "host")
                           then TrimSpace (snd h) else host) headers [].

(** What may follow the status code on a status line: nothing, or a
    space and a reason phrase. *)
Definition isReason (tail : bytes) : bool :=
  isPlain tail
  && match tail with
     | [] => true
     | c :: _ => Ascii.eqb c " "
     end.

(** A reason phrase of ASCII bytes. *)
Definition isPhrase (tail : bytes) : bool := isReason tail && isASCII tail.

(** The text of a response: status line, headers, blank line, body,
    with line ends "\r\n". *)
Definition responseText (version code tail : bytes)
    (headers : list (bytes * bytes)) (body : bytes) : bytes :=
  rawRequestOf
    ((version ++ str " " ++ code ++ tail) :: map headerText headers)
    CRLF body.

(** The header lines of a typed response as they arrive: each with its
    "\r\n". *)
Definition wireHeaders (headers : list (bytes * bytes)) : list bytes :=
  map (fun h => headerText h ++ CRLF) headers.

(** The bytes [wire] that carry the body [body] of a response with the
    header lines [lines]: the body itself under a Content-Length that
    states its size, its chunked coding under Transfer-Encoding:
    chunked, and nothing when the headers announce no body. *)
Definition carries (lines : list bytes) (wire body : bytes) : Prop :=
  (framing lines = FixedBody (len body) /\ wire = body) \/
  (framing lines = ChunkedBody /\
   exists upper chunks, forallb isChunk chunks = true /\
                        wire = encodeChunked upper chunks /\
                        body = concat chunks) \/
  (framing lines = NoBody /\ wire = [] /\ body = []).

(** A block of proxy history: it starts with "HttpRequestResponse{",
    and the brace that closes this one is its last byte. *)
Definition isBlock (block : bytes) : bool :=
  HasPrefix block (str "HttpRequestResponse{")
  && match parser.closingBrace block 0 0 with
     | Some n => (n =? length block)%nat
     | None => false
     end.

(** Blocks, each after a text that does not hold the marker. *)
Definition blocksText (parts : list (bytes * bytes)) : bytes :=
  concat (map (fun p => fst p ++ snd p) parts).

Definition isGap (gap : bytes) : bool :=
  negb (Contains gap (str "HttpRequestResponse{")).

(** What may follow a field of a text cut at spaces: nothing, or a
    space and more. *)
Definition endsField (tail : bytes) : bool :=
  match tail with
  | [] => true
  | c :: _ => Ascii.eqb c " "
  end.

(** * Properties *)

(** [test b v]: the comparison [b] comes out as [v], by arithmetic. *)
Ltac test b v :=
  replace b with v
    by (symmetry;
        first [ apply Z.ltb_lt | apply Z.ltb_ge | apply Z.gtb_lt
              | apply Z.eqb_neq | apply Nat.ltb_lt | apply Nat.ltb_ge ];
        lia).

(** ** Go's strings: the facts the proofs below rest on *)
Section GoStrings.

Lemma HasPrefix_true (s p : bytes) :
  HasPrefix s p = true <-> exists r, s = p ++ r.
Proof.
  revert s; induction p as [|a p IH]; intros s; simpl.
  - split; [intros _; exists s; reflexivity | reflexivity].
  - destruct s as [|c s].
    + split; [discriminate | intros [r Hr]; discriminate].
    + rewrite andb_true_iff, Ascii.eqb_eq, IH. split.
      * intros [-> [r ->]]. exists r. reflexivity.
      * intros [r Hr]. injection Hr as -> ->. split; [reflexivity | eauto].
Qed.

Lemma HasPrefix_app (p r : bytes) : HasPrefix (p ++ r) p = true.
Proof. apply HasPrefix_true. exists r. reflexivity. Qed.

Lemma HasSuffix_true (s x : bytes) :
  HasSuffix s x = true <-> exists p, s = p ++ x.
Proof.
  unfold HasSuffix. rewrite HasPrefix_true. split.
  - intros [r Hr]. exists (rev r).
    rewrite <- (rev_involutive s), Hr, rev_app_distr, rev_involutive.
    reflexivity.
  - intros [p ->]. exists (rev p). apply rev_app_distr.
Qed.

(** Rewriting "\r\n" to "\n", one step at a time. *)
Lemma toLF_nil : ReplaceAll [] CRLF [LF] = [].
Proof. reflexivity. Qed.

Lemma toLF_crlf (s : bytes) :
  ReplaceAll (CR :: LF :: s) CRLF [LF] = LF :: ReplaceAll s CRLF [LF].
Proof. reflexivity. Qed.

Lemma toLF_other (c : ascii) (s : bytes) :
  HasPrefix (c :: s) CRLF = false ->
  ReplaceAll (c :: s) CRLF [LF] = c :: ReplaceAll s CRLF [LF].
Proof.
  intros H. unfold ReplaceAll. cbn [replaceFrom]. rewrite H. reflexivity.
Qed.

(** Rewriting "\n" to "\r\n" works byte by byte. *)
Lemma toCRLF_cons (c : ascii) (s : bytes) :
  ReplaceAll (c :: s) [LF] CRLF =
  (if Ascii.eqb c LF then CRLF else [c]) ++ ReplaceAll s [LF] CRLF.
Proof.
  unfold ReplaceAll. cbn [replaceFrom HasPrefix].
  rewrite andb_true_r. destruct (Ascii.eqb c LF); reflexivity.
Qed.

Lemma toCRLF_app (s t : bytes) :
  ReplaceAll (s ++ t) [LF] CRLF =
  ReplaceAll s [LF] CRLF ++ ReplaceAll t [LF] CRLF.
Proof.
  induction s as [|c s IH]; [reflexivity|].
  rewrite <- app_comm_cons, !toCRLF_cons, IH, app_assoc. reflexivity.
Qed.

(** The output of the second rewriting never starts with a bare "\n". *)
Lemma toCRLF_head (s : bytes) (c : ascii) :
  HasPrefix (c :: ReplaceAll s [LF] CRLF) CRLF = false.
Proof.
  destruct s as [|d s]; cbn [HasPrefix CRLF].
  - apply andb_false_r.
  - rewrite toCRLF_cons. destruct (Ascii.eqb d LF) eqn:E; cbn.
    + apply andb_false_r.
    + rewrite E. apply andb_false_r.
Qed.

(** The first rewriting undoes the second. *)
Lemma toLF_toCRLF (t : bytes) :
  ReplaceAll (ReplaceAll t [LF] CRLF) CRLF [LF] = t.
Proof.
  induction t as [|c t IH]; [reflexivity|].
  rewrite toCRLF_cons. destruct (Ascii.eqb c LF) eqn:E.
  - apply Ascii.eqb_eq in E. subst c. cbn [CRLF app].
    rewrite toLF_crlf, IH. reflexivity.
  - cbn [app]. rewrite toLF_other by apply toCRLF_head.
    rewrite IH. reflexivity.
Qed.

End GoStrings.

(** ** normalizeRawRequest *)

(** The three shapes of the result: the rewritten request, padded with
    what it lacks of the final "\r\n\r\n". *)
Lemma normalizeRawRequest_cases (raw : bytes) :
  let s := ReplaceAll (ReplaceAll raw CRLF [LF]) [LF] CRLF in
  (HasSuffix s CRLFCRLF = true /\ normalizeRawRequest raw = s) \/
  (HasSuffix s CRLFCRLF = false /\
   ((HasSuffix s CRLF = true /\ normalizeRawRequest raw = s ++ CRLF) \/
    normalizeRawRequest raw = s ++ CRLFCRLF)).
Proof.
  cbv zeta. unfold normalizeRawRequest.
  destruct (HasSuffix _ CRLFCRLF) eqn:E1; cbn [negb]; [left; auto|].
  right. split; [reflexivity|].
  destruct (HasSuffix _ CRLF) eqn:E2; [left; auto | right; auto].
Qed.

Lemma normalizeRawRequest_suffix (raw : bytes) :
  exists p, normalizeRawRequest raw = p ++ CRLFCRLF.
Proof.
  destruct (normalizeRawRequest_cases raw) as [[H ->]|[_ [[H ->]| ->]]].
  - apply HasSuffix_true in H. exact H.
  - apply HasSuffix_true in H. destruct H as [p ->].
    exists p. rewrite <- app_assoc. reflexivity.
  - eauto.
Qed.

(** The result is the "\n"-to-"\r\n" rewriting of some string. *)
Lemma normalizeRawRequest_image (raw : bytes) :
  exists t, normalizeRawRequest raw = ReplaceAll t [LF] CRLF.
Proof.
  destruct (normalizeRawRequest_cases raw) as [[_ ->]|[_ [[_ ->]| ->]]].
  - eauto.
  - exists (ReplaceAll raw CRLF [LF] ++ [LF]). rewrite toCRLF_app. reflexivity.
  - exists (ReplaceAll raw CRLF [LF] ++ [LF; LF]). rewrite toCRLF_app.
    reflexivity.
Qed.

Lemma normalizeRawRequest_idempotent (raw : bytes) :
  normalizeRawRequest (normalizeRawRequest raw) = normalizeRawRequest raw.
Proof.
  destruct (normalizeRawRequest_suffix raw) as [p Hp].
  destruct (normalizeRawRequest_image raw) as [t Ht].
  assert (ReplaceAll (ReplaceAll (normalizeRawRequest raw) CRLF [LF]) [LF] CRLF
          = normalizeRawRequest raw) as Hfix
    by (rewrite Ht at 1; rewrite toLF_toCRLF; symmetry; exact Ht).
  assert (HasSuffix (normalizeRawRequest raw) CRLFCRLF = true) as Hsuf
    by (apply HasSuffix_true; eauto).
  destruct (normalizeRawRequest_cases (normalizeRawRequest raw))
    as [[_ H]|[H _]]; rewrite Hfix in H; [exact H | congruence].
Qed.

(** ** The count bounds *)

(** C8: the effective connection count lies in [1, 50]; an omitted (zero)
    or non-positive count gives the default 10, a count above 50 gives 50,
    and a count in [1, 50] is kept. *)
Theorem effectiveCount_bounds (input : Z) :
  1 <= effectiveCount input <= 50 /\
  (input <= 0 -> effectiveCount input = 10) /\
  (50 < input -> effectiveCount input = 50) /\
  (1 <= input <= 50 -> effectiveCount input = input).
Proof.
  unfold effectiveCount, defaultRaceCount, maxRaceCount.
  destruct (Z.leb_spec input 0); [cbn; lia|].
  destruct (Z.gtb_spec input 50); lia.
Qed.
(** ** Go's strings: white space and case *)
Section GoUnicode.

Lemma isSpace2_ascii (b1 b2 : ascii) :
  (nat_of_ascii b1 < 128)%nat \/ (nat_of_ascii b2 < 128)%nat ->
  isSpace2 b1 b2 = false.
Proof.
  intros H. unfold isSpace2.
  destruct (Nat.eqb_spec (nat_of_ascii b1) 194);
    destruct (Nat.eqb_spec (nat_of_ascii b2) 133);
    destruct (Nat.eqb_spec (nat_of_ascii b2) 160); try reflexivity; lia.
Qed.

Lemma isSpace3_ascii (b1 b2 b3 : ascii) :
  (nat_of_ascii b1 < 128)%nat \/ (nat_of_ascii b2 < 128)%nat
  \/ (nat_of_ascii b3 < 128)%nat ->
  isSpace3 b1 b2 b3 = false.
Proof.
  intros H. unfold isSpace3.
  destruct (Nat.eqb_spec (nat_of_ascii b1) 225);
    destruct (Nat.eqb_spec (nat_of_ascii b1) 226);
    destruct (Nat.eqb_spec (nat_of_ascii b1) 227);
    try lia; cbn [andb orb]; try reflexivity;
    destruct (Nat.eqb_spec (nat_of_ascii b2) 154);
    destruct (Nat.eqb_spec (nat_of_ascii b2) 128);
    destruct (Nat.eqb_spec (nat_of_ascii b2) 129);
    try lia; cbn [andb orb]; try reflexivity;
    destruct H as [H | [H | H]]; try lia;
    rewrite ?orb_false_r;
    repeat match goal with
    | |- context [(?a =? ?b)%nat] => destruct (Nat.eqb_spec a b); try lia
    | |- context [(?a <=? ?b)%nat] => destruct (Nat.leb_spec a b); try lia
    end; reflexivity.
Qed.

(** A byte of ASCII that is no white space stays at the front and at
    the end. *)
Lemma trimLeft_head (c : ascii) (s : bytes) :
  (nat_of_ascii c < 128)%nat -> isSpace c = false ->
  trimLeft (c :: s) = c :: s.
Proof.
  intros Hc H. cbn [trimLeft]. rewrite H.
  destruct s as [|b2 [|b3 s]]; [reflexivity | |];
    rewrite isSpace2_ascii by auto; [reflexivity|].
  rewrite isSpace3_ascii by auto. reflexivity.
Qed.

Lemma trimRight_head (c : ascii) (r : bytes) :
  (nat_of_ascii c < 128)%nat -> isSpace c = false ->
  trimRight (c :: r) = c :: r.
Proof.
  intros Hc H. cbn [trimRight]. rewrite H.
  destruct r as [|b2 [|b3 r]]; [reflexivity | |];
    rewrite isSpace2_ascii by auto; [reflexivity|].
  rewrite isSpace3_ascii by auto. reflexivity.
Qed.

Lemma isASCII_cons (c : ascii) (s : bytes) :
  isASCII (c :: s) = true <-> (nat_of_ascii c < 128)%nat /\ isASCII s = true.
Proof.
  unfold isASCII. cbn [forallb]. rewrite andb_true_iff, Nat.ltb_lt.
  reflexivity.
Qed.

Lemma isASCII_app (s t : bytes) :
  isASCII (s ++ t) = true <-> isASCII s = true /\ isASCII t = true.
Proof. unfold isASCII. rewrite forallb_app, andb_true_iff. reflexivity. Qed.

Lemma isASCII_rev (s : bytes) : isASCII (rev s) = isASCII s.
Proof.
  induction s as [|c s IH]; [reflexivity|].
  cbn [rev]. destruct (isASCII (c :: s)) eqn:E.
  - apply isASCII_cons in E. destruct E as [Hc Hs].
    apply isASCII_app. rewrite IH. split; [exact Hs|].
    apply isASCII_cons. split; [exact Hc | reflexivity].
  - destruct (isASCII (rev s ++ [c])) eqn:E2; [|reflexivity].
    apply isASCII_app in E2. destruct E2 as [H1 H2].
    apply isASCII_cons in H2. rewrite IH in H1.
    rewrite <- E. symmetry. apply isASCII_cons. tauto.
Qed.

Lemma isASCII_bytes (s : bytes) :
  isASCII s = true <-> Forall (fun c => (nat_of_ascii c < 128)%nat) s.
Proof.
  induction s as [|c s IH]; [split; [constructor | reflexivity]|].
  rewrite isASCII_cons, IH. split.
  - intros [H1 H2]. constructor; assumption.
  - intros H. inversion H; auto.
Qed.

(** On ASCII, the white space at an end of a text is its bytes of
    white space. *)
Lemma trimLeft_ascii (s : bytes) :
  isASCII s = true -> trimLeft s = trimBytes s.
Proof.
  induction s as [|c s IH]; [reflexivity|]. intros H.
  apply isASCII_cons in H. destruct H as [Hc Hs].
  destruct (isSpace c) eqn:E.
  - cbn [trimLeft trimBytes]. rewrite E. auto.
  - rewrite trimLeft_head by assumption. cbn [trimBytes]. rewrite E.
    reflexivity.
Qed.

Lemma trimRight_ascii (s : bytes) :
  isASCII s = true -> trimRight s = trimBytes s.
Proof.
  induction s as [|c s IH]; [reflexivity|]. intros H.
  apply isASCII_cons in H. destruct H as [Hc Hs].
  destruct (isSpace c) eqn:E.
  - cbn [trimRight trimBytes]. rewrite E. auto.
  - rewrite trimRight_head by assumption. cbn [trimBytes]. rewrite E.
    reflexivity.
Qed.

Lemma trimBytes_ascii (s : bytes) :
  isASCII s = true -> isASCII (trimBytes s) = true.
Proof.
  induction s as [|c s IH]; [reflexivity|]. intros H.
  cbn [trimBytes]. destruct (isSpace c); [|exact H].
  apply isASCII_cons in H. tauto.
Qed.

Lemma TrimSpace_ascii (s : bytes) :
  isASCII s = true -> TrimSpace s = trimASCII s.
Proof.
  intros H. unfold TrimSpace, trimASCII. rewrite (trimLeft_ascii s H).
  rewrite trimRight_ascii; [reflexivity|].
  rewrite isASCII_rev. apply trimBytes_ascii. exact H.
Qed.

(** A byte of white space at the front goes. *)
Lemma TrimSpace_space (c : ascii) (v : bytes) :
  isSpace c = true -> TrimSpace (c :: v) = TrimSpace v.
Proof. intros H. unfold TrimSpace. cbn [trimLeft]. rewrite H. reflexivity. Qed.

(** A text between two bytes of ASCII that are no white space is
    trimmed. *)
Lemma TrimSpace_trimmed (a b : ascii) (s : bytes) :
  (nat_of_ascii a < 128)%nat -> isSpace a = false ->
  (nat_of_ascii b < 128)%nat -> isSpace b = false ->
  TrimSpace (a :: s ++ [b]) = a :: s ++ [b].
Proof.
  intros Ha Ha' Hb Hb'. unfold TrimSpace. rewrite trimLeft_head by assumption.
  change (a :: s ++ [b]) with ((a :: s) ++ [b]). rewrite rev_app_distr.
  change (rev [b] ++ rev (a :: s)) with (b :: rev (a :: s)).
  rewrite trimRight_head by assumption.
  change (b :: rev (a :: s)) with (rev [b] ++ rev (a :: s)).
  rewrite <- rev_app_distr. apply rev_involutive.
Qed.

Lemma TrimSpace_byte (a : ascii) :
  (nat_of_ascii a < 128)%nat -> isSpace a = false -> TrimSpace [a] = [a].
Proof.
  intros Ha Ha'. unfold TrimSpace. rewrite trimLeft_head by assumption.
  cbn [rev app]. rewrite trimRight_head by assumption. reflexivity.
Qed.

(** The white space taken from the end is taken in whole runes: what
    is left is not empty when a byte of ASCII that is no white space
    is under it. *)
Lemma trimRight_over (c : ascii) (y : bytes) :
  (nat_of_ascii c < 128)%nat -> isSpace c = false ->
  forall x, exists x', trimRight (x ++ c :: y) = x' ++ c :: y.
Proof.
  intros Hc Hc' x.
  induction x as [x IH] using (induction_ltof1 _ (@length ascii)).
  unfold ltof in IH.
  destruct x as [|b1 x1].
  { exists []. apply trimRight_head; assumption. }
  cbn [app trimRight]. destruct (isSpace b1).
  { apply IH. cbn [length]. lia. }
  destruct x1 as [|b2 x2].
  { cbn [app]. rewrite isSpace2_ascii by auto.
    destruct y as [|b3 y]; [exists [b1]; reflexivity|].
    rewrite isSpace3_ascii by auto. exists [b1]. reflexivity. }
  cbn [app]. destruct (isSpace2 b2 b1).
  { apply IH. cbn [length]. lia. }
  destruct x2 as [|b3 x3].
  { cbn [app]. rewrite isSpace3_ascii by auto. exists [b1; b2]. reflexivity. }
  cbn [app]. destruct (isSpace3 b3 b2 b1).
  { apply IH. cbn [length]. lia. }
  exists (b1 :: b2 :: b3 :: x3). reflexivity.
Qed.

Lemma TrimSpace_nonEmpty (a : ascii) (s : bytes) :
  (nat_of_ascii a < 128)%nat -> isSpace a = false ->
  nonEmpty (TrimSpace (a :: s)) = true.
Proof.
  intros Ha Ha'. unfold TrimSpace. rewrite trimLeft_head by assumption.
  cbn [rev].
  destruct (trimRight_over a [] Ha Ha' (rev s)) as [x' ->].
  rewrite rev_app_distr. reflexivity.
Qed.

(** Lower case, byte by byte on ASCII. *)
Lemma ToLower_head (c : ascii) (s : bytes) :
  (nat_of_ascii c < 128)%nat -> ToLower (c :: s) = lowerByte c :: ToLower s.
Proof.
  intros Hc. cbn [ToLower].
  assert (forall b2, isUpperI c b2 = false) as H1.
  { intros b2. unfold isUpperI.
    destruct (Nat.eqb_spec (nat_of_ascii c) 196); [lia | reflexivity]. }
  assert (forall b2 b3, isKelvin c b2 b3 = false) as H2.
  { intros b2 b3. unfold isKelvin.
    destruct (Nat.eqb_spec (nat_of_ascii c) 226); [lia | reflexivity]. }
  destruct s as [|b2 [|b3 s]]; rewrite ?H1, ?H2; reflexivity.
Qed.

Lemma ToLower_ascii (s : bytes) :
  isASCII s = true -> ToLower s = map lowerByte s.
Proof.
  induction s as [|c s IH]; [reflexivity|]. intros H.
  apply isASCII_cons in H. destruct H as [Hc Hs].
  rewrite ToLower_head by assumption. cbn [map]. rewrite IH by assumption.
  reflexivity.
Qed.

Lemma ToLower_app (s t : bytes) :
  isASCII s = true -> ToLower (s ++ t) = map lowerByte s ++ ToLower t.
Proof.
  induction s as [|c s IH]; [reflexivity|]. intros H.
  apply isASCII_cons in H. destruct H as [Hc Hs].
  cbn [app map]. rewrite ToLower_head by assumption.
  rewrite IH by assumption. reflexivity.
Qed.

End GoUnicode.


(** ** Lines and the header block *)
Section Lines.

Lemma Index_cons (c : ascii) (s x : bytes) :
  Go.Index (c :: s) x =
  if HasPrefix (c :: s) x then Some 0%nat else option_map S (Go.Index s x).
Proof. reflexivity. Qed.

Lemma Index_here (s x : bytes) :
  HasPrefix s x = true -> Go.Index s x = Some 0%nat.
Proof. intros H. destruct s; cbn [Go.Index]; rewrite H; reflexivity. Qed.

Lemma Index_split (s x : bytes) (i : nat) :
  Go.Index s x = Some i ->
  s = take i s ++ x ++ drop (i + length x) s /\ length (take i s) = i.
Proof.
  revert i. induction s as [|c s IH]; intros i.
  - cbn [Go.Index]. destruct (HasPrefix [] x) eqn:E; [|discriminate].
    intros [= <-]. apply HasPrefix_true in E. destruct E as [r Hr].
    destruct x; [|discriminate]. split; reflexivity.
  - rewrite Index_cons. destruct (HasPrefix (c :: s) x) eqn:E.
    + intros [= <-]. apply HasPrefix_true in E. destruct E as [r Hr].
      rewrite Hr. cbn [take Nat.add app]. rewrite drop_app_length.
      split; reflexivity.
    + destruct (Go.Index s x) as [j|] eqn:Ej; [|discriminate].
      intros [= <-]. destruct (IH j eq_refl) as [H1 H2].
      cbn [take Nat.add drop length]. rewrite <- app_comm_cons, <- H1, H2.
      split; reflexivity.
Qed.

Lemma crlfFree_nil : crlfFree [].
Proof. reflexivity. Qed.

Lemma crlfFree_cons (c : ascii) (l : bytes) :
  crlfFree (c :: l) <-> HasPrefix (c :: l) CRLF = false /\ crlfFree l.
Proof.
  unfold crlfFree. rewrite Index_cons.
  destruct (HasPrefix (c :: l) CRLF); [split; [discriminate | intros [? _]; discriminate]|].
  destruct (Go.Index l CRLF); cbn; split; try discriminate; auto.
  intros [_ ?]; discriminate.
Qed.

(** Inside a line that is followed by "\r", no "\r\n" starts. *)
Lemma crlfFree_head (c : ascii) (l k : bytes) :
  crlfFree (c :: l) -> HasPrefix k [CR] = true ->
  HasPrefix (c :: l ++ k) CRLF = false.
Proof.
  intros Hl Hk. apply crlfFree_cons in Hl. destruct Hl as [Hl _].
  destruct l as [|d l].
  - apply HasPrefix_true in Hk. destruct Hk as [r ->].
    cbn. apply andb_false_r.
  - exact Hl.
Qed.

Lemma HasPrefix_sep_crlf (s : bytes) :
  HasPrefix s CRLF = false -> HasPrefix s CRLFCRLF = false.
Proof.
  intros H. destruct (HasPrefix s CRLFCRLF) eqn:E; [|reflexivity].
  apply HasPrefix_true in E. destruct E as [r ->]. exact H.
Qed.

(** Induction on a string, "\r\n" by "\r\n" and byte by byte otherwise. *)
Lemma crlf_ind (P : bytes -> Prop) :
  P [] ->
  (forall s, P s -> P (CR :: LF :: s)) ->
  (forall c s, HasPrefix (c :: s) CRLF = false -> P s -> P (c :: s)) ->
  forall s, P s.
Proof.
  intros Hnil Hcrlf Hother s.
  enough (P s /\ forall c, P (c :: s)) by tauto.
  induction s as [|d s [IH1 IH2]].
  - split; [exact Hnil|]. intros c. apply Hother; [|exact Hnil].
    cbn. apply andb_false_r.
  - split; [apply IH2|]. intros c.
    destruct (HasPrefix (c :: d :: s) CRLF) eqn:E.
    + apply HasPrefix_true in E. destruct E as [r E].
      injection E as -> -> ->. apply Hcrlf, IH1.
    + apply Hother; [exact E | apply IH2].
Qed.

(** [Split] on "\r\n", one step at a time. *)
Lemma Split_nil : Split [] CRLF = [[]].
Proof. reflexivity. Qed.

Lemma Split_crlf (s : bytes) :
  Split (CR :: LF :: s) CRLF = [] :: Split s CRLF.
Proof. reflexivity. Qed.

Lemma Split_other (c : ascii) (s : bytes) :
  HasPrefix (c :: s) CRLF = false ->
  Split (c :: s) CRLF = consHead c (Split s CRLF).
Proof.
  intros H. unfold Split. cbn [splitFrom]. rewrite H. reflexivity.
Qed.

Lemma Split_not_nil (s : bytes) : Split s CRLF <> [].
Proof.
  induction s using crlf_ind.
  - discriminate.
  - rewrite Split_crlf. discriminate.
  - rewrite Split_other by assumption.
    destruct (Split s CRLF); discriminate.
Qed.

Lemma Join_cons (e : bytes) (rest : list bytes) (sep : bytes) :
  rest <> [] -> Join (e :: rest) sep = e ++ sep ++ Join rest sep.
Proof. destruct rest; [congruence | reflexivity]. Qed.

Lemma Join_consHead (c : ascii) (ls : list bytes) (sep : bytes) :
  ls <> [] -> Join (consHead c ls) sep = c :: Join ls sep.
Proof.
  destruct ls as [|p [|q ps]]; [congruence | reflexivity | reflexivity].
Qed.

Lemma Join_Split (s : bytes) : Join (Split s CRLF) CRLF = s.
Proof.
  induction s using crlf_ind.
  - reflexivity.
  - rewrite Split_crlf, Join_cons by apply Split_not_nil.
    rewrite IHs. reflexivity.
  - rewrite Split_other by assumption.
    rewrite Join_consHead by apply Split_not_nil. rewrite IHs. reflexivity.
Qed.

(** The first line of [Split s] starts as [s] does. *)
Lemma Split_head (s p : bytes) (ps : list bytes) (c : ascii) :
  Split s CRLF = p :: ps ->
  HasPrefix (c :: s) CRLF = false -> HasPrefix (c :: p) CRLF = false.
Proof.
  intros E H. destruct s as [|d s'].
  - injection E as <- _. exact H.
  - destruct (HasPrefix (d :: s') CRLF) eqn:Ed.
    + apply HasPrefix_true in Ed. destruct Ed as [r Ed].
      injection Ed as -> ->. rewrite Split_crlf in E. injection E as <- _.
      cbn. apply andb_false_r.
    + rewrite Split_other in E by assumption.
      destruct (Split s' CRLF); injection E as <- _; exact H.
Qed.

Lemma Split_crlfFree (s : bytes) : Forall crlfFree (Split s CRLF).
Proof.
  induction s using crlf_ind.
  - repeat constructor.
  - rewrite Split_crlf. constructor; [apply crlfFree_nil | assumption].
  - rewrite Split_other by assumption.
    destruct (Split s CRLF) as [|p ps] eqn:E;
      [exfalso; eapply Split_not_nil; eassumption|].
    cbn [consHead]. inversion IHs; subst. constructor; [|assumption].
    apply crlfFree_cons. split; [|assumption].
    eapply Split_head; eassumption.
Qed.

(** A line, then "\r\n": the line is cut off. *)
Lemma Split_line (l r : bytes) :
  crlfFree l -> Split (l ++ CRLF ++ r) CRLF = l :: Split r CRLF.
Proof.
  induction l as [|c l IH]; intros Hl.
  - apply Split_crlf.
  - rewrite <- app_comm_cons.
    rewrite Split_other by (apply crlfFree_head; [exact Hl | reflexivity]).
    apply crlfFree_cons in Hl. rewrite IH by tauto. reflexivity.
Qed.

Lemma Split_last (l : bytes) : crlfFree l -> Split l CRLF = [l].
Proof.
  induction l as [|c l IH]; intros Hl; [reflexivity|].
  apply crlfFree_cons in Hl. destruct Hl as [H1 H2].
  rewrite Split_other by assumption. rewrite IH by assumption. reflexivity.
Qed.

Lemma Split_Join (ls : list bytes) :
  ls <> [] -> Forall crlfFree ls -> Split (Join ls CRLF) CRLF = ls.
Proof.
  induction ls as [|l ls IH]; [congruence|]. intros _ H.
  inversion H as [|? ? Hl Hls]; subst.
  destruct ls as [|l2 ls].
  - apply Split_last, Hl.
  - rewrite Join_cons by discriminate. rewrite Split_line by assumption.
    rewrite IH by (assumption || discriminate). reflexivity.
Qed.

End Lines.

(** ** fixContentLength *)
Section FixContentLength.

Lemma Index_line (l k : bytes) (n : nat) :
  crlfFree l -> HasPrefix k [CR] = true ->
  Go.Index k CRLFCRLF = Some n ->
  Go.Index (l ++ k) CRLFCRLF = Some (length l + n)%nat.
Proof.
  intros Hl Hk Hn. induction l as [|c l IH]; [exact Hn|].
  rewrite <- app_comm_cons, Index_cons.
  rewrite HasPrefix_sep_crlf by (apply crlfFree_head; assumption).
  apply crlfFree_cons in Hl. rewrite IH by tauto. reflexivity.
Qed.

Lemma Join_head (l : bytes) (ls : list bytes) (B : bytes) :
  exists k, Join (l :: ls) CRLF ++ CRLFCRLF ++ B = l ++ k /\
            HasPrefix k [CR] = true.
Proof.
  destruct ls as [|l2 ls].
  - exists (CRLFCRLF ++ B). split; reflexivity.
  - exists (CRLF ++ Join (l2 :: ls) CRLF ++ CRLFCRLF ++ B).
    rewrite Join_cons by discriminate. rewrite <- !app_assoc.
    split; reflexivity.
Qed.

Lemma Index_after_crlf (rest : bytes) (n : nat) :
  HasPrefix rest CRLF = false ->
  Go.Index rest CRLFCRLF = Some n ->
  Go.Index (CRLF ++ rest) CRLFCRLF = Some (2 + n)%nat.
Proof.
  intros Hp Hn. cbn [CRLF app]. rewrite Index_cons.
  destruct (HasPrefix (CR :: LF :: rest) CRLFCRLF) eqn:E.
  - apply HasPrefix_true in E. destruct E as [r E]. injection E as ->.
    discriminate.
  - rewrite Index_cons.
    replace (HasPrefix (LF :: rest) CRLFCRLF) with false by reflexivity.
    rewrite Hn. reflexivity.
Qed.

(** The header block ends at the first "\r\n\r\n". *)
Lemma headerLines_Index (ls : list bytes) (B : bytes) :
  headerLines ls ->
  Go.Index (Join ls CRLF ++ CRLFCRLF ++ B) CRLFCRLF
  = Some (length (Join ls CRLF)).
Proof.
  intros (Hne & Hfree & Htail).
  induction ls as [|l ls IH]; [congruence|]. clear Hne.
  inversion Hfree as [|? ? Hl Hls]; subst.
  destruct ls as [|l2 ls].
  - cbn [Join]. rewrite (Index_line l _ 0) by (assumption || reflexivity).
    f_equal. lia.
  - cbn [tail] in Htail. inversion Htail as [|? ? Hl2 Htl]; subst.
    specialize (IH ltac:(discriminate) Hls).
    assert (Forall (fun l => l <> []) (tail (l2 :: ls))) as Ht2.
    { exact Htl. }
    specialize (IH Ht2).
    rewrite Join_cons by discriminate. rewrite <- !app_assoc.
    rewrite (Index_line l _ (2 + length (Join (l2 :: ls) CRLF)));
      [ f_equal; rewrite !length_app; cbn [length CRLF]; lia
      | assumption | reflexivity | ].
    apply Index_after_crlf; [|exact IH].
    destruct (Join_head l2 ls B) as (k & Hk & Hcr). rewrite Hk.
    destruct l2 as [|c2 l2]; [congruence|].
    rewrite <- app_comm_cons. apply crlfFree_head; [|exact Hcr].
    inversion Hls; assumption.
Qed.

Lemma Split_head_nil (s : bytes) (ps : list bytes) :
  Split s CRLF = [] :: ps -> s = [] \/ HasPrefix s CRLF = true.
Proof.
  destruct s as [|c s]; [auto|]. intros E. right.
  destruct (HasPrefix (c :: s) CRLF) eqn:Ec; [reflexivity|].
  rewrite Split_other in E by assumption.
  destruct (Split s CRLF); discriminate.
Qed.

Lemma Split_tail (h B : bytes) :
  Go.Index (h ++ CRLFCRLF ++ B) CRLFCRLF = Some (length h) ->
  Forall (fun l => l <> []) (tail (Split h CRLF)).
Proof.
  induction h as [| s IH | c s Hc IH] using crlf_ind.
  - constructor.
  - cbn [app length]. rewrite !Index_cons.
    destruct (HasPrefix (CR :: LF :: s ++ CRLFCRLF ++ B) CRLFCRLF) eqn:E1;
      [discriminate|].
    replace (HasPrefix (LF :: s ++ CRLFCRLF ++ B) CRLFCRLF) with false
      by reflexivity.
    destruct (Go.Index (s ++ CRLFCRLF ++ B) CRLFCRLF) as [n|] eqn:En;
      [|discriminate].
    cbn [option_map]. intros [= ->]. specialize (IH eq_refl).
    rewrite Split_crlf. cbn [tail].
    destruct (Split s CRLF) as [|p ps] eqn:Es;
      [exfalso; eapply Split_not_nil; eassumption|].
    constructor; [|exact IH].
    intros ->. apply Split_head_nil in Es.
    assert (HasPrefix (s ++ CRLFCRLF ++ B) CRLF = true) as Hp.
    { destruct Es as [-> | Hs]; [reflexivity|].
      apply HasPrefix_true in Hs. destruct Hs as [r ->].
      rewrite <- app_assoc. apply HasPrefix_app. }
    apply HasPrefix_true in Hp. destruct Hp as [r Hr].
    rewrite Hr in E1. discriminate.
  - cbn [app length]. rewrite Index_cons.
    destruct (HasPrefix (c :: s ++ CRLFCRLF ++ B) CRLFCRLF); [discriminate|].
    destruct (Go.Index (s ++ CRLFCRLF ++ B) CRLFCRLF) as [n|] eqn:En;
      [|discriminate].
    cbn [option_map]. intros [= ->]. specialize (IH eq_refl).
    rewrite Split_other by assumption.
    destruct (Split s CRLF) as [|p ps] eqn:Es; [constructor | exact IH].
Qed.

(** A string that holds "\r\n\r\n" is a header block, the separator and
    a body. *)
Lemma Index_headerLines (raw : bytes) (idx : nat) :
  Go.Index raw CRLFCRLF = Some idx ->
  exists ls B, headerLines ls /\ raw = Join ls CRLF ++ CRLFCRLF ++ B /\
               ls = Split (take idx raw) CRLF /\
               B = drop (idx + length CRLFCRLF) raw.
Proof.
  intros H. destruct (Index_split _ _ _ H) as [Hraw Hlen].
  exists (Split (take idx raw) CRLF), (drop (idx + length CRLFCRLF) raw).
  rewrite Join_Split. repeat split; try assumption.
  - apply Split_not_nil.
  - apply Split_crlfFree.
  - apply (Split_tail _ (drop (idx + length CRLFCRLF) raw)).
    rewrite <- Hraw, Hlen. exact H.
Qed.

Lemma fold_rebuildStep (n : Z) (ls acc : list bytes) (b : bool) :
  fold_left (rebuildStep n) ls (acc, b)
  = (acc ++ map (rebuildLine n) ls, b || existsb isContentLength ls).
Proof.
  revert acc b. induction ls as [|l ls IH]; intros acc b; cbn [fold_left].
  - rewrite app_nil_r, orb_false_r. reflexivity.
  - unfold rebuildStep at 2, rebuildLine. cbn [map existsb].
    destruct (isContentLength l) eqn:E; rewrite IH, <- app_assoc;
      cbn [app orb]; [rewrite orb_true_r | ]; reflexivity.
Qed.

(** fixContentLength on a header block, the separator and a body. *)
Lemma fixContentLength_header (ls : list bytes) (B : bytes) :
  headerLines ls ->
  fixContentLength (Join ls CRLF ++ CRLFCRLF ++ B)
  = Join (withContentLength (len B) ls) CRLF ++ CRLFCRLF ++ B.
Proof.
  intros H. unfold fixContentLength.
  rewrite headerLines_Index by assumption.
  rewrite take_app_length.
  replace (drop _ _) with B.
  2:{ rewrite drop_app_add', drop_app_length by reflexivity. reflexivity. }
  destruct H as (Hne & Hfree & _).
  rewrite Split_Join by assumption.
  rewrite fold_rebuildStep. cbn [app orb]. unfold withContentLength.
  destruct (_ && _); [|rewrite app_nil_r]; reflexivity.
Qed.

Lemma noLF_crlfFree (l : bytes) : Forall (fun c => c <> LF) l -> crlfFree l.
Proof.
  induction 1 as [|c l Hc Hl IH]; [reflexivity|].
  apply crlfFree_cons. split; [|assumption].
  destruct l as [|d l]; cbn; [apply andb_false_r|].
  inversion Hl; subst.
  destruct (Ascii.eqb_spec d LF); [congruence|]. apply andb_false_r.
Qed.

Lemma noLF_uint (d : Decimal.uint) :
  Forall (fun c => c <> LF) (str (NilEmpty.string_of_uint d)).
Proof. induction d; cbn; constructor; (discriminate || assumption). Qed.

Lemma noLF_Itoa (n : Z) : Forall (fun c => c <> LF) (Itoa n).
Proof.
  unfold Itoa. destruct (Z.to_int n) as [d|d]; cbn.
  - destruct d; try apply (noLF_uint (_ _)).
    repeat constructor; discriminate.
  - constructor; [discriminate|].
    destruct d; try apply (noLF_uint (_ _)).
    repeat constructor; discriminate.
Qed.

Lemma contentLengthLine_crlfFree (n : Z) : crlfFree (contentLengthLine n).
Proof.
  apply noLF_crlfFree. unfold contentLengthLine.
  apply Forall_app. split; [|apply noLF_Itoa].
  repeat constructor; discriminate.
Qed.

Lemma contentLengthLine_is (n : Z) : isContentLength (contentLengthLine n) = true.
Proof.
  unfold isContentLength, contentLengthLine.
  rewrite ToLower_app by reflexivity.
  apply HasPrefix_true. exists (" "%char :: ToLower (Itoa n)).
  reflexivity.
Qed.

Lemma rebuildLine_idempotent (n : Z) (l : bytes) :
  rebuildLine n (rebuildLine n l) = rebuildLine n l.
Proof.
  unfold rebuildLine. destruct (isContentLength l) eqn:E.
  - rewrite contentLengthLine_is. reflexivity.
  - rewrite E. reflexivity.
Qed.

Lemma rebuildLine_is (n : Z) (l : bytes) :
  isContentLength (rebuildLine n l) = isContentLength l.
Proof.
  unfold rebuildLine. destruct (isContentLength l) eqn:E;
    [apply contentLengthLine_is | exact E].
Qed.

Lemma existsb_rebuildLine (n : Z) (ls : list bytes) :
  existsb isContentLength (map (rebuildLine n) ls)
  = existsb isContentLength ls.
Proof.
  induction ls as [|l ls IH]; [reflexivity|].
  cbn [map existsb]. rewrite rebuildLine_is, IH. reflexivity.
Qed.

Lemma withContentLength_idempotent (n : Z) (ls : list bytes) :
  withContentLength n (withContentLength n ls) = withContentLength n ls.
Proof.
  unfold withContentLength at 1.
  assert (map (rebuildLine n) (withContentLength n ls) = withContentLength n ls)
    as ->.
  { unfold withContentLength. rewrite map_app, map_map.
    f_equal; [apply map_ext; intros; apply rebuildLine_idempotent|].
    destruct (_ && _); [|reflexivity].
    cbn [map]. unfold rebuildLine. rewrite contentLengthLine_is. reflexivity. }
  replace (negb (existsb isContentLength (withContentLength n ls)) && (n >? 0))
    with false; [apply app_nil_r|].
  symmetry. unfold withContentLength.
  rewrite existsb_app, existsb_rebuildLine.
  destruct (existsb isContentLength ls); [reflexivity|].
  destruct (n >? 0); cbn [negb andb existsb orb];
    [rewrite contentLengthLine_is|]; reflexivity.
Qed.

Lemma headerLines_withContentLength (n : Z) (ls : list bytes) :
  headerLines ls -> headerLines (withContentLength n ls).
Proof.
  intros (Hne & Hfree & Htail).
  assert (forall l, crlfFree l -> crlfFree (rebuildLine n l)) as Hrl.
  { intros l Hl. unfold rebuildLine.
    destruct (isContentLength l); [apply contentLengthLine_crlfFree | exact Hl]. }
  assert (forall l, l <> [] -> rebuildLine n l <> []) as Hrn.
  { intros l Hl. unfold rebuildLine.
    destruct (isContentLength l); [discriminate | exact Hl]. }
  unfold withContentLength. destruct ls as [|l ls]; [congruence|].
  cbn [map app tail] in *. repeat split.
  - discriminate.
  - inversion Hfree; subst. constructor; [auto|].
    apply Forall_app. split.
    + apply Forall_map. eapply Forall_impl; [eassumption | exact Hrl].
    + destruct (_ && _); repeat constructor. apply contentLengthLine_crlfFree.
  - apply Forall_app. split.
    + apply Forall_map. eapply Forall_impl; [eassumption | exact Hrn].
    + destruct (_ && _); repeat constructor. discriminate.
Qed.

Lemma fixContentLength_idempotent (raw : bytes) :
  fixContentLength (fixContentLength raw) = fixContentLength raw.
Proof.
  destruct (Go.Index raw CRLFCRLF) as [idx|] eqn:E.
  - destruct (Index_headerLines _ _ E) as (ls & B & Hls & -> & _).
    rewrite fixContentLength_header by assumption.
    rewrite fixContentLength_header
      by (apply headerLines_withContentLength; assumption).
    rewrite withContentLength_idempotent. reflexivity.
  - unfold fixContentLength. rewrite E. unfold fixContentLength.
    rewrite E. reflexivity.
Qed.

End FixContentLength.

(** ** Request preparation *)

Lemma Index_app_Some (p x r : bytes) :
  exists i, Go.Index (p ++ x ++ r) x = Some i.
Proof.
  induction p as [|c p [i IH]].
  - exists 0%nat. cbn [app]. apply Index_here, HasPrefix_app.
  - rewrite <- app_comm_cons, Index_cons.
    destruct (HasPrefix _ x); [eauto|]. rewrite IH. cbn. eauto.
Qed.

Lemma splitLastByte_snoc (q : bytes) (b : ascii) :
  splitLastByte (q ++ [b]) = Ret (q, [b]).
Proof.
  unfold splitLastByte. destruct (q ++ [b]) eqn:E.
  - destruct q; discriminate.
  - rewrite <- E, length_app. cbn [length].
    replace (length q + 1 - 1)%nat with (length q) by lia.
    rewrite take_app_length, drop_app_length. reflexivity.
Qed.

(** fixContentLength keeps the last byte of a request that ends with
    "\r\n\r\n". *)
Lemma fixContentLength_last (p : bytes) :
  exists q, fixContentLength (p ++ CRLFCRLF) = q ++ [LF].
Proof.
  destruct (Index_app_Some p CRLFCRLF []) as [i Hi].
  rewrite app_nil_r in Hi.
  destruct (Index_headerLines _ _ Hi) as (ls & B & Hls & Hraw & _).
  rewrite Hraw, fixContentLength_header by assumption.
  destruct B as [|b B' _] using rev_ind.
  - exists (Join (withContentLength (len (@nil ascii)) ls) CRLF ++ [CR; LF; CR]).
    rewrite <- app_assoc. reflexivity.
  - assert (b = LF) as ->.
    { change CRLFCRLF with ([CR; LF; CR] ++ [LF]) in Hraw at 1.
      rewrite !app_assoc in Hraw. apply app_inj_tail in Hraw.
      symmetry. apply Hraw. }
    exists (Join (withContentLength (len (B' ++ [LF])) ls) CRLF
            ++ CRLFCRLF ++ B').
    rewrite <- !app_assoc. reflexivity.
Qed.

(** C9: normalizeRawRequest always returns a string that ends with
    "\r\n\r\n", hence of at least four bytes; the prepared request is
    therefore never empty, its split in executeRace into all but the last
    byte and the last byte does not panic, and the last byte, the one
    that is sent in step, is "\n" (0x0A). *)
Theorem prepared_request_final_byte (raw : bytes) :
  (exists p, normalizeRawRequest raw = p ++ CRLFCRLF) /\
  (4 <= length (normalizeRawRequest raw))%nat /\
  (exists prefix, splitLastByte (prepareRequest raw) = Ret (prefix, [LF]) /\
                  prepareRequest raw = prefix ++ [LF]) /\
  LF = ascii_of_nat 10.
Proof.
  destruct (normalizeRawRequest_suffix raw) as [p Hp].
  split; [eauto|]. split; [rewrite Hp, length_app; cbn; lia|].
  split; [|reflexivity].
  unfold prepareRequest. rewrite Hp.
  destruct (fixContentLength_last p) as [q ->].
  exists q. split; [apply splitLastByte_snoc | reflexivity].
Qed.

(** C10: preparing twice is preparing once, for each of the two steps. *)
Theorem preparation_idempotent (s : bytes) :
  normalizeRawRequest (normalizeRawRequest s) = normalizeRawRequest s /\
  fixContentLength (fixContentLength s) = fixContentLength s.
Proof.
  split; [apply normalizeRawRequest_idempotent
         | apply fixContentLength_idempotent].
Qed.

(** ** Content-Length after preparation *)
Section ContentLength.

Lemma isPlain_Forall (l : bytes) :
  isPlain l = true -> Forall (fun c => c <> CR /\ c <> LF) l.
Proof.
  unfold isPlain. rewrite forallb_forall, List.Forall_forall.
  intros H c Hc. specialize (H c Hc). apply andb_true_iff in H.
  destruct H as [H1 H2].
  split; intros ->; [rewrite Ascii.eqb_refl in H1 | rewrite Ascii.eqb_refl in H2];
    discriminate.
Qed.

Lemma toCRLF_noLF (l : bytes) :
  Forall (fun c => c <> LF) l -> ReplaceAll l [LF] CRLF = l.
Proof.
  induction 1 as [|c l Hc _ IH]; [reflexivity|].
  rewrite toCRLF_cons, IH.
  destruct (Ascii.eqb_spec c LF); [congruence | reflexivity].
Qed.

Lemma toLF_noCR (s : bytes) :
  Forall (fun c => c <> CR) s -> ReplaceAll s CRLF [LF] = s.
Proof.
  induction 1 as [|c s Hc _ IH]; [reflexivity|].
  rewrite toLF_other, IH; [reflexivity|].
  cbn [HasPrefix CRLF]. destruct (Ascii.eqb_spec c CR); [congruence | reflexivity].
Qed.

Lemma headerBlock_lines (ls : list bytes) :
  headerBlock ls = true ->
  ls <> [] /\ Forall (fun l => Forall (fun c => c <> CR /\ c <> LF) l) ls /\
  Forall (fun l => l <> []) (tail ls).
Proof.
  destruct ls as [|l ls]; [discriminate|]. cbn [headerBlock tail].
  rewrite andb_true_iff, !forallb_forall. intros [H1 H2].
  split; [discriminate|]. split; apply List.Forall_forall; intros x Hx.
  - apply isPlain_Forall, H1, Hx.
  - specialize (H2 x Hx). destruct x; [discriminate | congruence].
Qed.

Lemma headerBlock_headerLines (ls : list bytes) :
  headerBlock ls = true -> headerLines ls.
Proof.
  intros H. destruct (headerBlock_lines ls H) as (H1 & H2 & H3).
  repeat split; [assumption | | assumption].
  eapply Forall_impl; [exact H2|]. intros l Hl. apply noLF_crlfFree.
  eapply Forall_impl; [exact Hl|]. cbn. tauto.
Qed.

(** With "\n" between plain lines, the request holds no "\r"; rewriting
    its "\n" gives the request with "\r\n" between the lines. *)
Lemma rawRequestOf_LF (ls : list bytes) (body : bytes) :
  Forall (fun l => Forall (fun c => c <> CR /\ c <> LF) l) ls ->
  Forall (fun c => c <> CR /\ c <> LF) body ->
  Forall (fun c => c <> CR) (rawRequestOf ls [LF] body) /\
  ReplaceAll (rawRequestOf ls [LF] body) [LF] CRLF = rawRequestOf ls CRLF body.
Proof.
  intros Hls Hbody. unfold rawRequestOf.
  assert (Forall (fun c => c <> CR) body /\ ReplaceAll body [LF] CRLF = body)
    as [Hb1 Hb2].
  { split; [|apply toCRLF_noLF]; (eapply Forall_impl; [exact Hbody|]);
      cbn; tauto. }
  assert (Forall (fun c => c <> CR) (Join ls [LF]) /\
          ReplaceAll (Join ls [LF]) [LF] CRLF = Join ls CRLF) as [Hj1 Hj2].
  { induction Hls as [|l ls Hl Hls IH]; [split; [constructor | reflexivity]|].
    assert (Forall (fun c => c <> CR) l /\ ReplaceAll l [LF] CRLF = l)
      as [Hl1 Hl2].
    { split; [|apply toCRLF_noLF]; (eapply Forall_impl; [exact Hl|]);
        cbn; tauto. }
    destruct ls as [|l2 ls]; [split; assumption|].
    destruct IH as [IH1 IH2].
    rewrite !Join_cons by discriminate. split.
    - apply Forall_app. split; [assumption|]. constructor; [discriminate|].
      exact IH1.
    - rewrite !toCRLF_app, Hl2, IH2. reflexivity. }
  split.
  - apply Forall_app. split; [assumption|].
    repeat (constructor; [discriminate|]). exact Hb1.
  - rewrite !toCRLF_app, Hj2, Hb2. reflexivity.
Qed.

(** Normalising a request of plain lines whose body holds no line end:
    the line ends become "\r\n", and "\r\n\r\n" is added after a body that
    does not end the request with "\r\n". *)
Lemma normalizeRawRequest_body (ls : list bytes) (nl body : bytes) (b : ascii) :
  Forall (fun l => Forall (fun c => c <> CR /\ c <> LF) l) ls ->
  Forall (fun c => c <> CR /\ c <> LF) (body ++ [b]) ->
  nl = [LF] \/ nl = CRLF ->
  normalizeRawRequest (rawRequestOf ls nl (body ++ [b]))
  = rawRequestOf ls CRLF (body ++ [b]) ++ CRLFCRLF.
Proof.
  intros Hls Hbody Hnl.
  destruct (rawRequestOf_LF ls (body ++ [b]) Hls Hbody) as [Hcr Hre].
  assert (ReplaceAll (ReplaceAll (rawRequestOf ls nl (body ++ [b])) CRLF [LF])
            [LF] CRLF = rawRequestOf ls CRLF (body ++ [b])) as Hs.
  { destruct Hnl as [-> | ->].
    - rewrite toLF_noCR by assumption. exact Hre.
    - rewrite <- Hre, toLF_toCRLF. reflexivity. }
  unfold normalizeRawRequest. rewrite Hs.
  assert (b <> LF) as Hb.
  { apply Forall_app in Hbody. destruct Hbody as [_ Hb].
    inversion Hb; subst. tauto. }
  assert (forall x, HasSuffix (rawRequestOf ls CRLF (body ++ [b])) (x ++ [LF])
                    = false) as Hno.
  { intros x. unfold HasSuffix, rawRequestOf.
    rewrite !app_assoc, !rev_unit. cbn [HasPrefix].
    destruct (Ascii.eqb_spec b LF); [congruence | reflexivity]. }
  pose proof (Hno [CR; LF; CR]) as H4. pose proof (Hno [CR]) as H2.
  cbn [app] in H4, H2. fold CRLFCRLF in H4. fold CRLF in H2.
  rewrite H4, H2. reflexivity.
Qed.

(** C2, as the code has it: for a request whose header block is followed
    by the body "abc", fixContentLength alone gives the block exactly one
    value, "Content-Length: 3", in place of every Content-Length line or
    after the last line when there is none, and keeps every other line
    in its place; the whole preparation first adds "\r\n\r\n" after the
    body, so that the prepared request has the body "abc\r\n\r\n" and the
    header "Content-Length: 7" in the same way. *)
Theorem content_length_of_abc (ls : list bytes) (nl : bytes) :
  headerBlock ls = true ->
  nl = [LF] \/ nl = CRLF ->
  prepareRequest (rawRequestOf ls nl (str "abc"))
  = rawRequestOf (withContentLength 7 ls) CRLF (str "abc" ++ CRLFCRLF) /\
  fixContentLength (rawRequestOf ls CRLF (str "abc"))
  = rawRequestOf (withContentLength 3 ls) CRLF (str "abc").
Proof.
  intros Hls Hnl.
  destruct (headerBlock_lines ls Hls) as (_ & Hplain & _).
  apply headerBlock_headerLines in Hls. split.
  - unfold prepareRequest. change (str "abc") with (str "ab" ++ ["c"%char]).
    assert (Forall (fun c => c <> CR /\ c <> LF) (str "ab" ++ ["c"%char]))
      as Habc by (repeat constructor; discriminate).
    rewrite (normalizeRawRequest_body ls nl (str "ab") "c"%char Hplain Habc Hnl).
    unfold rawRequestOf. rewrite <- !app_assoc.
    apply (fixContentLength_header ls (str "abc" ++ CRLFCRLF) Hls).
  - apply (fixContentLength_header ls (str "abc") Hls).
Qed.

Lemma content_length_of_abc_witness :
  let ls := [str "POST /pay HTTP/1.1"; str "Host: shop.test";
             str "content-length: 99"; str "Accept: */*"] in
  headerBlock ls = true /\
  prepareRequest (rawRequestOf ls [LF] (str "abc"))
  = rawRequestOf [str "POST /pay HTTP/1.1"; str "Host: shop.test";
                  str "Content-Length: 7"; str "Accept: */*"]
      CRLF (str "abc" ++ CRLFCRLF).
Proof.
  split; [reflexivity|].
  exact (proj1 (content_length_of_abc
                  [str "POST /pay HTTP/1.1"; str "Host: shop.test";
                   str "content-length: 99"; str "Accept: */*"]
                  [LF] eq_refl (or_introl eq_refl))).
Defined.

(** C2 as stated fails: whatever the Content-Length line says, the
    prepared request carries "Content-Length: 7", and nowhere
    "Content-Length: 3". *)
Lemma content_length_of_abc_counterexample :
  let raw := str "POST /pay HTTP/1.1" ++ CRLF ++ str "Host: shop.test"
             ++ CRLFCRLF ++ str "abc" in
  prepareRequest raw
  = str "POST /pay HTTP/1.1" ++ CRLF ++ str "Host: shop.test" ++ CRLF
    ++ str "Content-Length: 7" ++ CRLFCRLF ++ str "abc" ++ CRLFCRLF /\
  Contains (prepareRequest raw) (str "Content-Length: 3") = false.
Proof. split; vm_compute; reflexivity. Qed.

End ContentLength.

(** ** Chunked bodies *)
Section Chunked.

Lemma hexDigit_sizeByte (upper : bool) (d : Z) :
  0 <= d < 16 -> sizeByte (hexDigit upper d) d.
Proof.
  intros H.
  assert (d = 0 \/ d = 1 \/ d = 2 \/ d = 3 \/ d = 4 \/ d = 5 \/ d = 6 \/ d = 7 \/
          d = 8 \/ d = 9 \/ d = 10 \/ d = 11 \/ d = 12 \/ d = 13 \/ d = 14 \/
          d = 15) as Hd by lia.
  unfold sizeByte.
  destruct upper; repeat (destruct Hd as [-> | Hd]); try subst d;
    (repeat split; try reflexivity; discriminate).
Qed.

Lemma parseDigits_app (base acc : Z) (s1 s2 : bytes) :
  parseDigits base acc (s1 ++ s2) =
  match parseDigits base acc s1 with
  | Some v => parseDigits base v s2
  | None => None
  end.
Proof.
  revert acc. induction s1 as [|c s1 IH]; intros acc; [reflexivity|].
  cbn [app parseDigits]. destruct (digitVal c) as [d|]; [|reflexivity].
  destruct (d <? base); [apply IH | reflexivity].
Qed.

Lemma hexRev_parse (upper : bool) (fuel : nat) (n : Z) :
  0 <= n -> (Z.to_nat n < fuel)%nat ->
  parseDigits 16 0 (rev (hexRev upper fuel n)) = Some n /\
  hexRev upper fuel n <> [] /\
  Forall (fun c => exists d, sizeByte c d) (hexRev upper fuel n).
Proof.
  revert n. induction fuel as [|fuel IH]; intros n Hn Hf; [lia|].
  cbn [hexRev]. destruct (Z.ltb_spec n 16) as [Hlt|Hge].
  - destruct (hexDigit_sizeByte upper n ltac:(lia)) as (Hv & Hrest).
    repeat split; [|discriminate|].
    + cbn [rev app parseDigits]. rewrite Hv.
      test (n <? 16) true.
      reflexivity.
    + repeat constructor. exists n. split; assumption.
  - pose proof (Z.mod_pos_bound n 16 ltac:(lia)) as Hm.
    pose proof (Z.div_mod n 16 ltac:(lia)) as Hdm.
    assert (0 <= n / 16 < n) as Hq
      by (split; [apply Z.div_pos; lia | apply Z.div_lt; lia]).
    destruct (IH (n / 16) ltac:(lia) ltac:(lia)) as (Hp & _ & Hall).
    destruct (hexDigit_sizeByte upper (n mod 16) Hm) as (Hv & Hrest).
    repeat split; [|discriminate|].
    + cbn [rev]. rewrite parseDigits_app, Hp. cbn [parseDigits].
      rewrite Hv.
      test (n mod 16 <? 16) true.
      f_equal. lia.
    + constructor; [|exact Hall]. exists (n mod 16). split; assumption.
Qed.

Lemma hexOf_spec (upper : bool) (n : Z) :
  0 <= n ->
  parseDigits 16 0 (hexOf upper n) = Some n /\ hexOf upper n <> [] /\
  Forall (fun c => exists d, sizeByte c d) (hexOf upper n).
Proof.
  intros Hn. unfold hexOf.
  destruct (hexRev_parse upper (S (Z.to_nat n)) n Hn ltac:(lia))
    as (H1 & H2 & H3).
  repeat split; [exact H1 | | apply Forall_rev; exact H3].
  intros E. apply H2. apply (f_equal (@rev ascii)) in E.
  rewrite rev_involutive in E. exact E.
Qed.

Lemma ParseInt_hexOf (upper : bool) (n : Z) :
  0 <= n <= maxInt64 -> ParseInt (hexOf upper n) 16 = Some n.
Proof.
  intros Hn. destruct (hexOf_spec upper n ltac:(lia)) as (Hp & Hne & Hall).
  unfold ParseInt. destruct (hexOf upper n) as [|c ds] eqn:E; [congruence|].
  inversion Hall as [|? ? (d & _ & _ & _ & Hplus & Hminus) _]; subst.
  rewrite Hplus, Hminus. unfold parseUnsigned. rewrite Hp.
  replace ((minInt64 <=? n) && (n <=? maxInt64)) with true; [reflexivity|].
  symmetry. apply andb_true_iff. unfold minInt64, maxInt64 in *.
  split; [apply Z.leb_le | apply Z.leb_le]; lia.
Qed.

Lemma digitVal_ascii (c : ascii) (d : Z) :
  digitVal c = Some d -> (nat_of_ascii c < 128)%nat.
Proof.
  unfold digitVal. intros H.
  destruct (Z.leb_spec 48 (Z.of_nat (nat_of_ascii c)));
    destruct (Z.leb_spec (Z.of_nat (nat_of_ascii c)) 57);
    destruct (Z.leb_spec 97 (Z.of_nat (nat_of_ascii c)));
    destruct (Z.leb_spec (Z.of_nat (nat_of_ascii c)) 122);
    destruct (Z.leb_spec 65 (Z.of_nat (nat_of_ascii c)));
    destruct (Z.leb_spec (Z.of_nat (nat_of_ascii c)) 90);
    cbn [andb] in H; try discriminate; lia.
Qed.

(** A size line of ASCII without spaces is what TrimSpace leaves of
    it. *)
Lemma TrimSpace_line (s : bytes) :
  Forall (fun c => (nat_of_ascii c < 128)%nat /\ isSpace c = false) s ->
  TrimSpace (s ++ CRLF) = s.
Proof.
  intros H. unfold TrimSpace.
  destruct s as [|c s]; [reflexivity|].
  inversion H as [|? ? [Hc Hc'] Hs]; subst.
  rewrite <- app_comm_cons, trimLeft_head by assumption.
  rewrite app_comm_cons, rev_app_distr. cbn [rev CRLF app trimRight].
  replace (isSpace LF) with true by reflexivity.
  replace (isSpace CR) with true by reflexivity.
  apply Forall_rev in H. cbn [rev] in H.
  destruct (rev s ++ [c]) as [|x xs] eqn:E.
  - destruct (rev s); discriminate.
  - inversion H as [|? ? [Hx Hx'] _]; subst.
    rewrite trimRight_head by assumption.
    rewrite <- E, rev_app_distr, rev_involutive. reflexivity.
Qed.

Lemma cutAfter_line (s r : bytes) :
  Forall (fun c => c <> LF) s ->
  cutAfter LF (s ++ LF :: r) = Some (s ++ [LF], r).
Proof.
  induction 1 as [|c s Hc _ IH]; [reflexivity|].
  cbn [app cutAfter]. destruct (Ascii.eqb_spec c LF); [congruence|].
  rewrite IH. reflexivity.
Qed.

Lemma ReadString_line (s r : bytes) (e : error) :
  Forall (fun c => c <> LF) s ->
  ReadString (mkReader (s ++ LF :: r) e) LF = (s ++ [LF], None, mkReader r e).
Proof.
  intros H. unfold ReadString. cbn [pending failure].
  rewrite cutAfter_line by assumption. reflexivity.
Qed.

Lemma readFull_exact (c r : bytes) (e : error) :
  readFull (mkReader (c ++ r) e) (length c) = (c, None, mkReader r e).
Proof.
  unfold readFull. cbn [pending failure].
  rewrite take_app_length, drop_app_length, length_app.
  test (length c + length r <? length c)%nat false.
  reflexivity.
Qed.

(** No panic in [make] for bytes that the stream holds. *)
Lemma makePanics_held (size : Z) (reader : Reader) :
  0 <= size -> (Z.to_nat size <= length (pending reader))%nat ->
  makePanics size reader = false.
Proof.
  intros H0 H. unfold makePanics, len.
  test (size <? 0) false.
  test (Z.of_nat (length (pending reader)) <? size) false.
  rewrite andb_false_r. reflexivity.
Qed.

(** On a stream that is no longer than can be allocated, [make] panics
    exactly above the limit. *)
Lemma makePanics_bounded (size : Z) (reader : Reader) :
  0 <= size -> len (pending reader) <= maxAlloc ->
  makePanics size reader = (maxAlloc <? size).
Proof.
  intros H0 H. unfold makePanics.
  test (size <? 0) false.
  cbn [orb]. destruct (Z.ltb_spec maxAlloc size); [|reflexivity].
  test (len (pending reader) <? size) true.
  reflexivity.
Qed.


(** One turn of the loop on an encoded chunk. *)
Lemma chunkLoop_chunk (upper : bool) (fuel : nat) (chunk more body : bytes)
    (e : error) :
  isChunk chunk = true ->
  chunkLoop (S fuel) (mkReader (encodeChunk upper chunk ++ more) e) body
  = chunkLoop fuel (mkReader more e) (body ++ chunk).
Proof.
  intros Hc. unfold isChunk in Hc. apply andb_true_iff in Hc.
  destruct Hc as [Hpos Hmax]. apply Z.ltb_lt in Hpos. apply Z.leb_le in Hmax.
  destruct (hexOf_spec upper (len chunk) ltac:(lia)) as (_ & _ & Hall).
  unfold encodeChunk. cbn [chunkLoop].
  replace ((hexOf upper (len chunk) ++ CRLF ++ chunk ++ CRLF) ++ more)
    with ((hexOf upper (len chunk) ++ [CR]) ++ LF :: chunk ++ CRLF ++ more)
    by (rewrite <- !app_assoc; reflexivity).
  rewrite ReadString_line.
  2:{ apply Forall_app. split; [|repeat constructor; discriminate].
      eapply Forall_impl; [exact Hall|]. intros c (d & _ & _ & H & _). exact H. }
  rewrite <- app_assoc. change ([CR] ++ [LF]) with CRLF.
  rewrite TrimSpace_line.
  2:{ eapply Forall_impl; [exact Hall|]. intros c (d & Hd & H & _).
      split; [exact (digitVal_ascii c d Hd) | exact H]. }
  rewrite ParseInt_hexOf by lia.
  test (len chunk =? 0) false.
  rewrite makePanics_held
    by (unfold len; cbn [pending]; rewrite ?length_app; lia).
  unfold len. rewrite Nat2Z.id, readFull_exact.
  change (CRLF ++ more) with ([CR] ++ LF :: more).
  rewrite ReadString_line by (repeat constructor; discriminate).
  reflexivity.
Qed.

(** The last turn, on the chunk of size zero. *)
Lemma chunkLoop_last (fuel : nat) (rest body : bytes) (e : error) :
  chunkLoop (S fuel) (mkReader (str "0" ++ CRLF ++ CRLF ++ rest) e) body
  = Ret (body, None, mkReader rest e).
Proof. reflexivity. Qed.

Lemma chunkLoop_chunks (upper : bool) (chunks : list bytes) (fuel : nat)
    (rest body : bytes) (e : error) :
  forallb isChunk chunks = true ->
  (length chunks < fuel)%nat ->
  chunkLoop fuel
    (mkReader (concat (map (encodeChunk upper) chunks)
               ++ str "0" ++ CRLF ++ CRLF ++ rest) e) body
  = Ret (body ++ concat chunks, None, mkReader rest e).
Proof.
  revert fuel body.
  induction chunks as [|chunk chunks IH]; intros fuel body Hall Hfuel;
    (destruct fuel as [|fuel]; [cbn [length] in Hfuel; lia|]).
  - cbn [map concat app]. rewrite app_nil_r. apply chunkLoop_last.
  - cbn [forallb] in Hall. apply andb_true_iff in Hall.
    destruct Hall as [Hc Hall].
    cbn [map concat]. rewrite <- !app_assoc, chunkLoop_chunk by assumption.
    rewrite IH by (assumption || (cbn [length] in Hfuel; lia)).
    rewrite <- app_assoc. reflexivity.
Qed.

Lemma encodeChunked_length (upper : bool) (chunks : list bytes) :
  (length chunks < length (encodeChunked upper chunks))%nat.
Proof.
  unfold encodeChunked. rewrite length_app.
  assert (length chunks
          <= length (concat (map (encodeChunk upper) chunks)))%nat.
  { induction chunks as [|c cs IH]; [cbn; lia|].
    cbn [map concat length]. rewrite length_app. unfold encodeChunk at 1.
    rewrite !length_app. cbn [length CRLF]. lia. }
  cbn [length str list_ascii_of_string app CRLF]. lia.
Qed.

End Chunked.

(** C3: a body cut into chunks in any way, encoded chunk by chunk
    (size in hexadecimal, in either case of the digits, "\r\n", the
    bytes, "\r\n") and closed by the chunk of size zero, is read back by
    readChunkedBody byte for byte, without error, and the reader is left
    just after the encoding. *)
Theorem chunked_round_trip (upper : bool) (B : bytes) (chunks : list bytes)
    (rest : bytes) (e : error) :
  concat chunks = B ->
  forallb isChunk chunks = true ->
  readChunkedBody (mkReader (encodeChunked upper chunks ++ rest) e)
  = Ret (B, None, mkReader rest e).
Proof.
  intros <- Hall. unfold readChunkedBody. cbn [pending].
  pose proof (encodeChunked_length upper chunks) as Hlen.
  unfold encodeChunked. rewrite <- !app_assoc.
  rewrite chunkLoop_chunks; [reflexivity | assumption |].
  unfold encodeChunked in Hlen. rewrite !length_app in *. cbn [length] in *.
  lia.
Qed.

Lemma chunked_round_trip_witness :
  let chunks := [str "race "; str "c"; str "ondition, twenty-seven byte"] in
  forallb isChunk chunks = true /\
  encodeChunked true chunks
  = str "5" ++ CRLF ++ str "race " ++ CRLF
    ++ str "1" ++ CRLF ++ str "c" ++ CRLF
    ++ str "1B" ++ CRLF ++ str "ondition, twenty-seven byte" ++ CRLF
    ++ str "0" ++ CRLF ++ CRLF /\
  readChunkedBody
    (mkReader (encodeChunked true chunks ++ str "HTTP/1.1") (str "EOF"))
  = Ret (str "race condition, twenty-seven byte", None,
         mkReader (str "HTTP/1.1") (str "EOF")).
Proof.
  split; [reflexivity|]. split; [reflexivity|].
  exact (chunked_round_trip true (str "race condition, twenty-seven byte")
           [str "race "; str "c"; str "ondition, twenty-seven byte"]
           (str "HTTP/1.1") (str "EOF") eq_refl eq_refl).
Defined.

(** ** The loops end *)
Section Totality.

Lemma cutAfter_eq (d : ascii) (s line rest : bytes) :
  cutAfter d s = Some (line, rest) ->
  s = line ++ rest /\ (length rest < length s)%nat.
Proof.
  revert line. induction s as [|c s IH]; intros line; [discriminate|].
  cbn [cutAfter]. destruct (Ascii.eqb c d).
  - intros [= <- <-]. split; [reflexivity | cbn; lia].
  - destruct (cutAfter d s) as [[l r]|]; [|discriminate].
    intros [= <- <-]. destruct (IH l eq_refl) as [-> H].
    split; [reflexivity | cbn [length]; lia].
Qed.

(** A read that succeeds uses up at least one byte; no read adds any. *)
Lemma ReadString_pending (reader reader' : Reader) (line : bytes)
    (err : option error) :
  ReadString reader LF = (line, err, reader') ->
  (length (pending reader') <= length (pending reader))%nat /\
  (err = None -> (length (pending reader') < length (pending reader))%nat).
Proof.
  unfold ReadString.
  destruct (cutAfter LF (pending reader)) as [[l r]|] eqn:E.
  - intros [= <- <- <-]. apply cutAfter_eq in E. cbn [pending]. lia.
  - intros [= <- <- <-]. cbn [pending length]. split; [lia | discriminate].
Qed.

Lemma chunkLoop_total (fuel : nat) (reader : Reader) (body : bytes) :
  (length (pending reader) < fuel)%nat ->
  chunkLoop fuel reader body <> OutOfFuel.
Proof.
  revert reader body. induction fuel as [|fuel IH]; intros reader body Hf;
    [lia|].
  cbn [chunkLoop].
  destruct (ReadString reader LF) as [[sizeLine err] r1] eqn:E1.
  apply ReadString_pending in E1. destruct E1 as [_ H1].
  destruct err as [e|]; [discriminate|]. specialize (H1 eq_refl).
  destruct (ParseInt _ 16) as [size|]; [|discriminate].
  destruct (size =? 0).
  { destruct (ReadString r1 LF) as [[? ?] ?]. discriminate. }
  destruct (makePanics size r1); [discriminate|].
  unfold readFull.
  destruct (length (pending r1) <? Z.to_nat size)%nat; [discriminate|].
  destruct (ReadString _ LF) as [[? ?] r3] eqn:E3.
  apply ReadString_pending in E3. destruct E3 as [H3 _].
  cbn [pending] in H3. rewrite length_drop in H3.
  apply IH. lia.
Qed.

Lemma readChunkedBody_total (reader : Reader) :
  readChunkedBody reader <> OutOfFuel.
Proof. apply chunkLoop_total. lia. Qed.

Lemma headerLoop_total (fuel : nat) (reader : Reader) (response : bytes)
    (contentLength : Z) (chunked : bool) :
  (length (pending reader) < fuel)%nat ->
  exists v, headerLoop fuel reader response contentLength chunked = Ret v.
Proof.
  revert reader response contentLength chunked.
  induction fuel as [|fuel IH]; intros reader response cl ch Hf; [lia|].
  cbn [headerLoop].
  destruct (ReadString reader LF) as [[line err] r1] eqn:E1.
  apply ReadString_pending in E1. destruct E1 as [_ H1].
  destruct err as [e|]; [eauto|]. specialize (H1 eq_refl).
  destruct (TrimSpace line); [eauto|]. apply IH. lia.
Qed.

Lemma readHTTPResponse_total (reader : Reader) :
  readHTTPResponse reader <> OutOfFuel.
Proof.
  unfold readHTTPResponse.
  destruct (ReadString reader LF) as [[statusLine err] r1].
  destruct err as [e|]; [discriminate|].
  destruct (headerLoop_total (S (length (pending r1))) r1 statusLine (-1) false)
    as [[[e|[[response cl] ch]] r2] ->]; [lia | discriminate |].
  unfold readBody. destruct ch.
  - pose proof (readChunkedBody_total r2) as Hc.
    destruct (readChunkedBody r2) as [[[b [e|]] r3]| |];
      congruence || discriminate.
  - destruct (cl >? 0); [|discriminate].
    destruct (makePanics cl r2); [discriminate|].
    destruct (readFull r2 (Z.to_nat cl)) as [[b [e|]] r3];
      [destruct b|]; discriminate.
Qed.

Lemma parseHeaders_total (fuel : nat) (reader : Reader)
    (headers : gmap bytes bytes) :
  (length (pending reader) < fuel)%nat ->
  exists h, burp.parseHeaders fuel reader headers = Ret h.
Proof.
  revert reader headers.
  induction fuel as [|fuel IH]; intros reader headers Hf; [lia|].
  cbn [burp.parseHeaders].
  destruct (ReadString reader LF) as [[line err] r1] eqn:E1.
  apply ReadString_pending in E1. destruct E1 as [_ H1].
  destruct (TrimSpace line) as [|c t]; destruct err as [e|]; eauto;
    apply IH; specialize (H1 eq_refl); lia.
Qed.

(** ParseHTTPResponse always returns; nil for the empty string only. *)
Lemma ParseHTTPResponse_total (raw : bytes) (bodyOffset bodyLimit : Z) :
  raw <> [] ->
  exists parsed,
    burp.ParseHTTPResponse raw bodyOffset bodyLimit = Ret (Some parsed) /\
    burp.BodySize parsed = len (snd (burp.splitHeaderBody raw)) /\
    (burp.Body parsed, burp.Truncated parsed)
    = burp.applyOffsetLimit (snd (burp.splitHeaderBody raw))
        bodyOffset bodyLimit.
Proof.
  intros Hraw. unfold burp.ParseHTTPResponse.
  destruct raw as [|c raw]; [congruence|].
  destruct (burp.splitHeaderBody (c :: raw)) as [headerSection bodyBytes].
  destruct (ReadString _ LF) as [[statusLine err] r1].
  destruct (parseHeaders_total (S (length (pending r1))) r1 ∅)
    as [h ->]; [lia|].
  destruct (burp.applyOffsetLimit bodyBytes bodyOffset bodyLimit)
    as [body truncated] eqn:E.
  eexists. split; [reflexivity|]. cbn [snd]. rewrite E.
  split; reflexivity.
Qed.

End Totality.

(** ** The framing of a response body *)
Section Framing.

Lemma cutAfter_app (d : ascii) (s line rest more : bytes) :
  cutAfter d s = Some (line, rest) ->
  cutAfter d (s ++ more) = Some (line, rest ++ more).
Proof.
  revert line. induction s as [|c s IH]; intros line; [discriminate|].
  cbn [cutAfter app]. destruct (Ascii.eqb c d).
  - intros [= <- <-]. reflexivity.
  - destruct (cutAfter d s) as [[l r]|]; [|discriminate].
    intros [= <- <-]. rewrite (IH l eq_refl). reflexivity.
Qed.

Lemma isLine_ReadString (line more : bytes) (e : error) :
  isLine line = true ->
  ReadString (mkReader (line ++ more) e) LF = (line, None, mkReader more e).
Proof.
  unfold isLine, ReadString. cbn [pending failure].
  destruct (cutAfter LF line) as [[l [|c r]]|] eqn:E; try discriminate.
  intros _. rewrite (cutAfter_app _ _ _ _ more E).
  apply cutAfter_eq in E. destruct E as [-> _]. rewrite app_nil_r.
  reflexivity.
Qed.

Lemma isLine_length (line : bytes) : isLine line = true -> (0 < length line)%nat.
Proof. destruct line; [discriminate | cbn; lia]. Qed.

Lemma headerContentLength_spec (line : bytes) (cl : Z) :
  headerContentLength (TrimSpace line) cl
  = match contentLengthOf line with Some n => n | None => cl end.
Proof.
  unfold headerContentLength, contentLengthOf.
  destruct (HasPrefix _ _); reflexivity.
Qed.

Lemma headerChunked_spec (line : bytes) (ch : bool) :
  headerChunked (TrimSpace line) ch = ch || transferChunked line.
Proof.
  unfold headerChunked, transferChunked.
  destruct (HasPrefix _ _); cbn [andb]; [|rewrite orb_false_r; reflexivity].
  change (length (str "transfer-encoding:")) with 18%nat.
  destruct (Contains _ _); [rewrite orb_true_r | rewrite orb_false_r];
    reflexivity.
Qed.

(** The loop over the header lines computes what the headers say. *)
Lemma headerLoop_headers (headers : list bytes) (blank rest : bytes)
    (e : error) (fuel : nat) (response : bytes) (cl : Z) (ch : bool) :
  forallb isHeaderLine headers = true ->
  isBlankLine blank = true ->
  (length headers < fuel)%nat ->
  headerLoop fuel (mkReader (concat headers ++ blank ++ rest) e) response cl ch
  = Ret (inr (response ++ concat headers ++ blank,
              match lastContentLength headers with Some n => n | None => cl end,
              ch || existsb transferChunked headers),
         mkReader rest e).
Proof.
  intros Hh Hb. revert fuel response cl ch.
  induction headers as [|h hs IH]; intros fuel response cl ch Hf;
    (destruct fuel as [|fuel]; [cbn [length] in Hf; lia|]); cbn [headerLoop].
  - cbn [concat app]. unfold isBlankLine in Hb. apply andb_true_iff in Hb.
    destruct Hb as [Hl Ht]. rewrite isLine_ReadString by assumption.
    destruct (TrimSpace blank); [|discriminate].
    cbn [lastContentLength existsb]. rewrite orb_false_r. reflexivity.
  - cbn [forallb] in Hh. apply andb_true_iff in Hh. destruct Hh as [Hl Hhs].
    unfold isHeaderLine in Hl. apply andb_true_iff in Hl.
    destruct Hl as [Hl Ht]. cbn [concat]. rewrite <- app_assoc.
    rewrite isLine_ReadString by assumption.
    destruct (TrimSpace h) as [|c t] eqn:Et; [discriminate|]. rewrite <- Et.
    rewrite IH by (assumption || (cbn [length] in Hf; lia)).
    rewrite headerContentLength_spec, headerChunked_spec.
    cbn [lastContentLength existsb].
    rewrite <- !app_assoc, orb_assoc.
    destruct (lastContentLength hs); reflexivity.
Qed.

Lemma readBody_framed (headers : list bytes) (head : bytes) (reader : Reader) :
  len (pending reader) <= maxAlloc ->
  readBody reader head
    (match lastContentLength headers with Some n => n | None => -1 end)
    (false || existsb transferChunked headers)
  = readFramed (framing headers) head reader.
Proof.
  intros Hlen. unfold readBody, framing. cbn [orb].
  destruct (existsb transferChunked headers); [reflexivity|].
  destruct (lastContentLength headers) as [n|]; [|reflexivity].
  destruct (Z.gtb_spec n 0); [|reflexivity].
  rewrite makePanics_bounded by (assumption || lia).
  unfold readFull, readFramed.
  destruct (maxAlloc <? n); [reflexivity|].
  destruct (length (pending reader) <? Z.to_nat n)%nat; [|reflexivity].
  destruct (take (Z.to_nat n) (pending reader)); [|reflexivity].
  rewrite app_nil_r. reflexivity.
Qed.

Lemma concat_length_le (ls : list bytes) :
  forallb isHeaderLine ls = true -> (length ls <= length (concat ls))%nat.
Proof.
  induction ls as [|l ls IH]; [cbn; lia|]. cbn [forallb concat length].
  intros H. apply andb_true_iff in H. destruct H as [Hl Hls].
  unfold isHeaderLine in Hl. apply andb_true_iff in Hl. destruct Hl as [Hl _].
  apply isLine_length in Hl. rewrite length_app. specialize (IH Hls). lia.
Qed.




End Framing.

(** ** executeRace *)
Section Race.

Lemma lookup_map {A B : Type} (f : A -> B) (l : list A) (i : nat) :
  map f l !! i = option_map f (l !! i).
Proof.
  revert i. induction l as [|x l IH]; intros [|i]; cbn; auto.
Qed.

Lemma lookup_map_seq {A : Type} (f : nat -> A) (start n i : nat) :
  (i < n)%nat -> map f (seq start n) !! i = Some (f (start + i)%nat).
Proof.
  revert start i. induction n as [|n IH]; intros start [|i] H; cbn; try lia.
  - do 2 f_equal. lia.
  - rewrite IH by lia. do 2 f_equal. lia.
Qed.

Lemma dialAll_lookup (net : nat -> Slot) (count i : nat) :
  (i < count)%nat ->
  fst (dialAll net count) !! i = Some (fst (dialled net i)) /\
  snd (dialAll net count) !! i = Some (snd (dialled net i)) /\
  length (fst (dialAll net count)) = count /\
  length (snd (dialAll net count)) = count.
Proof.
  intros H. unfold dialAll, dialled. cbn [fst snd].
  rewrite !lookup_map_seq by assumption. cbn [Nat.add].
  rewrite !length_map, !length_seq.
  destruct (dial (net i)); auto.
Qed.

Lemma sendPrefixes_lookup (net : nat -> Slot) (count i : nat) :
  (i < count)%nat ->
  let d := dialAll net count in
  let s := sendPrefixes net (fst d) (snd d) in
  fst s !! i = Some (fst (afterPrefix net i)) /\
  snd s !! i = Some (snd (afterPrefix net i)) /\
  length (fst s) = count.
Proof.
  intros H d s.
  destruct (dialAll_lookup net count i H) as (H1 & H2 & H3 & H4).
  subst s d. unfold sendPrefixes. cbn [fst snd].
  rewrite !lookup_map, !list_lookup_imap, !length_map, length_imap.
  rewrite lookup_zip_with, length_zip_with.
  rewrite H1, H2, H3, H4. cbn.
  repeat split; lia || reflexivity.
Qed.


(** The entry of a slot, as phase 4 computes it from the cells, is the
    one that the slot's own network behaviour describes. *)
Lemma slotEntry_describes (net : nat -> Slot) (count : nat) (bodyLimit : Z)
    (i : nat) :
  (i < count)%nat ->
  let d := dialAll net count in
  let s := sendPrefixes net (fst d) (snd d) in
  slotEntry (fst s) (snd s) bodyLimit i = describeSlot net bodyLimit i.
Proof.
  intros H d s.
  destruct (sendPrefixes_lookup net count i H) as (H1 & H2 & _).
  subst s d. cbv zeta in H1, H2.
  unfold slotEntry. rewrite H1, H2.
  unfold afterPrefix, dialled, sendPrefix, describeSlot.
  destruct (dial (net i)) as [err|reader]; cbn [fst snd]; [reflexivity|].
  destruct (prefixWrite (net i)); cbn [fst snd]; [reflexivity|].
  destruct (prefixFlush (net i)); reflexivity.
Qed.



(** [ready] is zero exactly when every dial fails. *)
Lemma ready_zero (net : nat -> Slot) (count : nat) :
  length (filter (fun rc => is_Some rc) (fst (dialAll net count))) = 0%nat
  <-> allDialsFail net count.
Proof.
  rewrite length_zero_iff_nil. split.
  - intros Hnil i Hi.
    destruct (dialAll_lookup net count i Hi) as (H1 & _).
    unfold dialled in H1. destruct (dial (net i)) as [err|conn]; [eauto|].
    exfalso. cbn [fst] in H1.
    assert (Some conn ∈ filter (fun rc => is_Some rc) (fst (dialAll net count)))
      as Hin.
    { apply list_elem_of_filter. split; [eauto|].
      eapply list_elem_of_lookup_2. exact H1. }
    rewrite Hnil in Hin. inversion Hin.
  - intros Hall.
    destruct (filter _ _) as [|x l] eqn:E; [reflexivity|]. exfalso.
    assert (x ∈ filter (fun rc => is_Some rc) (fst (dialAll net count)))
      as Hin by (rewrite E; left).
    apply list_elem_of_filter in Hin. destruct Hin as [Hsome Hin].
    apply list_elem_of_lookup_1 in Hin. destruct Hin as [i Hi].
    assert (i < count)%nat as Hlt.
    { apply lookup_lt_Some in Hi. unfold dialAll in Hi. cbn [fst] in Hi.
      rewrite length_map, length_seq in Hi. exact Hi. }
    destruct (dialAll_lookup net count i Hlt) as (H1 & _).
    destruct (Hall i Hlt) as [err Herr].
    unfold dialled in H1. rewrite Herr in H1. cbn [fst] in H1.
    rewrite H1 in Hi. injection Hi as <-. destruct Hsome as [? ?].
    discriminate.
Qed.


End Race.
(** The window that offset and limit cut from a body. *)
Lemma applyOffsetLimit_window (body : bytes) (bodyOffset bodyLimit : Z) :
  let rest := drop (Z.to_nat bodyOffset) body in
  burp.applyOffsetLimit body bodyOffset bodyLimit
  = (if bodyLimit >? 0 then take (Z.to_nat bodyLimit) rest else rest,
     (bodyLimit >? 0) && (len rest >? bodyLimit)).
Proof.
  cbv zeta. unfold burp.applyOffsetLimit.
  destruct (Z.gtb_spec (len body) 0) as [Hb|Hb].
  - assert ((if bodyOffset >? 0
             then if bodyOffset >=? len body then []
                  else drop (Z.to_nat bodyOffset) body
             else body) = drop (Z.to_nat bodyOffset) body) as ->.
    { destruct (Z.gtb_spec bodyOffset 0) as [Ho|Ho].
      - destruct (Z.geb_spec bodyOffset (len body)) as [Hl|Hl];
          [|reflexivity].
        symmetry. apply drop_ge. unfold len in Hl. lia.
      - replace (Z.to_nat bodyOffset) with 0%nat by lia. reflexivity. }
    destruct (Z.gtb_spec bodyLimit 0) as [Hl|Hl]; [|reflexivity].
    cbn [andb].
    destruct (Z.gtb_spec (len (drop (Z.to_nat bodyOffset) body)) bodyLimit)
      as [Hr|Hr]; [reflexivity|].
    rewrite take_ge by (unfold len in Hr; lia). reflexivity.
  - assert (body = []) as ->
      by (destruct body; [reflexivity | unfold len in Hb; cbn in Hb; lia]).
    rewrite drop_nil, take_nil.
    destruct (Z.gtb_spec bodyLimit 0) as [Hl|Hl]; [|reflexivity].
    cbn [andb]. rewrite Z.gtb_ltb.
    replace (bodyLimit <? len (@nil ascii)) with false
      by (symmetry; apply Z.ltb_ge; unfold len; cbn [length]; lia).
    reflexivity.
Qed.




(** C1 fails at a response with a chunk of negative size.  Slot 1
    connects and its server answers with the chunk size -1; the slots 0
    and 2 are as before.  The reading task of slot 1 panics in [make],
    nothing recovers the panic, and executeRace returns no entries,
    whichever slot is completed first.  A Content-Length that is more
    than can be allocated does the same. *)
Lemma one_response_ends_the_run :
  let bad := okLine ++ str "Transfer-Encoding: chunked" ++ CRLF ++ CRLF
             ++ str "-1" ++ CRLF in
  let huge := okLine ++ str "Content-Length: 9223372036854775807" ++ CRLF
              ++ CRLF ++ str "hello" in
  let net := fun idx => match idx with
                        | 1%nat => answering bad
                        | _ => sampleNet idx
                        end in
  dial (net 1%nat) = inr (mkReader bad (str "EOF")) /\
  readHTTPResponse (mkReader bad (str "EOF")) = Panic /\
  executeRace net (prepareRequest (str "GET / HTTP/1.1")) 3 500
    [0; 1; 2]%nat = Panic /\
  executeRace net (prepareRequest (str "GET / HTTP/1.1")) 3 500
    [2; 1; 0]%nat = Panic /\
  executeRace (fun _ => answering huge)
    (prepareRequest (str "GET / HTTP/1.1")) 1 500 [0%nat] = Panic.
Proof. repeat split; vm_compute; reflexivity. Qed.

(** The entry of a slot is computed on any fuel. *)
Lemma describeSlot_total (net : nat -> Slot) (bodyLimit : Z) (idx : nat) :
  (exists entry, describeSlot net bodyLimit idx = Ret entry) \/
  describeSlot net bodyLimit idx = Panic.
Proof.
  unfold describeSlot.
  destruct (dial (net idx)) as [err|reader]; [eauto|].
  destruct (prefixWrite (net idx)); [eauto|].
  destruct (prefixFlush (net idx)); [eauto|].
  pose proof (readHTTPResponse_total reader) as Ht. unfold readSlot.
  destruct (readHTTPResponse reader) as [[[resp [err|]] r]| |];
    [eauto | | auto | congruence].
  destruct resp as [|c resp]; [cbn; eauto|].
  destruct (ParseHTTPResponse_total (c :: resp) 0 bodyLimit
              ltac:(discriminate)) as (parsed & -> & _). eauto.
Qed.

(** A panic among the writes of phase 4 is the result of the phase. *)
Lemma collect_panics (conns : list (option Reader))
    (connErrors : list (option error)) (bodyLimit : Z) (i : nat)
    (sched : list nat) (results : list RaceResponseEntry) :
  i ∈ sched ->
  slotEntry conns connErrors bodyLimit i = Panic ->
  (forall idx, idx ∈ sched ->
     (idx < length results)%nat /\
     ((exists entry, slotEntry conns connErrors bodyLimit idx = Ret entry) \/
      slotEntry conns connErrors bodyLimit idx = Panic)) ->
  collect conns connErrors bodyLimit sched results = Panic.
Proof.
  intros Hi Hp. revert results.
  induction sched as [|idx sched IH]; intros results Hall;
    [inversion Hi|].
  cbn [collect].
  destruct (Hall idx ltac:(left)) as [Hlt [[entry He] | He]];
    rewrite He; [|reflexivity].
  unfold store.
  replace (idx <? length results)%nat with true
    by (symmetry; apply Nat.ltb_lt; exact Hlt).
  apply IH.
  - apply elem_of_cons in Hi. destruct Hi as [-> | Hi]; [congruence | exact Hi].
  - intros j Hj. rewrite length_insert. apply Hall. right. exact Hj.
Qed.

(** X26.  A response that makes its reading task panic ends the run:
    when the slot [i] has a connection and has taken the prefix, and
    reading its response panics, executeRace returns nothing, whatever
    the other slots do and whatever the order in which the slots are
    completed. *)
Theorem panicking_read_ends_the_run (net : nat -> Slot) (rawRequest : bytes)
    (count : nat) (bodyLimit : Z) (sched : list nat) (i : nat)
    (reader : Reader) :
  nonEmpty rawRequest = true ->
  sched ≡ₚ seq 0 count ->
  (i < count)%nat ->
  dial (net i) = inr reader ->
  prefixWrite (net i) = None ->
  prefixFlush (net i) = None ->
  readHTTPResponse reader = Panic ->
  executeRace net rawRequest count bodyLimit sched = Panic.
Proof.
  intros Hraw Hperm Hi Hdial Hw Hf Hread.
  assert (forall idx, idx ∈ sched <-> (idx < count)%nat) as Hsched.
  { intros idx. rewrite Hperm, elem_of_seq. lia. }
  pose proof (ready_zero net count) as Hready.
  pose proof (fun j Hj => slotEntry_describes net count bodyLimit j Hj)
    as Hslot.
  cbv zeta in Hslot.
  unfold executeRace. destruct (dialAll net count) as [conns errs].
  cbn [fst snd] in *.
  destruct (length (filter (fun rc => is_Some rc) conns)) as [|k] eqn:Ek.
  { exfalso. destruct (proj1 Hready eq_refl i Hi) as [err Herr]. congruence. }
  cbn [Nat.eqb].
  destruct rawRequest as [|b raw]; [discriminate|]. cbn [splitLastByte].
  destruct (sendPrefixes net conns errs) as [conns2 errs2].
  cbn [fst snd] in Hslot.
  rewrite (collect_panics conns2 errs2 bodyLimit i); [reflexivity | | |].
  - apply Hsched, Hi.
  - rewrite Hslot by exact Hi. unfold describeSlot, readSlot.
    rewrite Hdial, Hw, Hf, Hread. reflexivity.
  - intros idx Hidx. apply Hsched in Hidx. rewrite length_replicate.
    split; [exact Hidx|]. rewrite Hslot by exact Hidx.
    apply describeSlot_total.
Qed.

Lemma panicking_read_ends_the_run_witness :
  let bad := okLine ++ str "Transfer-Encoding: chun" ++ ["226"; "132"; "170"]%char
             ++ str "ed" ++ CRLF ++ CRLF ++ str "-1" ++ CRLF in
  let net := fun idx => match idx with
                        | 2%nat => answering bad
                        | _ => sampleNet idx
                        end in
  readHTTPResponse (mkReader bad (str "EOF")) = Panic /\
  executeRace net (prepareRequest (str "GET / HTTP/1.1")) 3 500
    [2; 0; 1]%nat = Panic.
Proof.
  intros bad net. split; [reflexivity|].
  apply (panicking_read_ends_the_run net
           (prepareRequest (str "GET / HTTP/1.1")) 3 500 [2; 0; 1]%nat
           2%nat (mkReader bad (str "EOF"))); try reflexivity.
  - apply (Permutation_cons_append [0; 1]%nat 2%nat).
  - lia.
Defined.

(** C5: when every one of the [count] dials fails, executeRace returns
    one error and no entries, and the error names the failure of the
    first slot; and an error is returned in no other case. *)
Theorem all_dials_failed (net : nat -> Slot) (rawRequest : bytes)
    (count : nat) (bodyLimit : Z) (sched : list nat) :
  (0 < count)%nat ->
  (allDialsFail net count ->
   exists first,
     dial (net 0%nat) = inl first /\
     executeRace net rawRequest count bodyLimit sched
     = Ret (inr (str "all " ++ Itoa (Z.of_nat count)
                   ++ str " connections failed: " ++ first))) /\
  (forall e, executeRace net rawRequest count bodyLimit sched = Ret (inr e) ->
             allDialsFail net count).
Proof.
  intros Hcount.
  pose proof (ready_zero net count) as Hready.
  pose proof (dialAll_lookup net count 0 Hcount) as (_ & Herr & _).
  unfold executeRace. destruct (dialAll net count) as [conns errs].
  cbn [fst snd] in *. split.
  - intros Hall. destruct (Hall 0%nat Hcount) as [first Hfirst].
    exists first. split; [exact Hfirst|].
    apply Hready in Hall. rewrite Hall. cbn [Nat.eqb].
    rewrite Herr. unfold dialled. rewrite Hfirst. reflexivity.
  - intros e.
    destruct (length (filter (fun rc => is_Some rc) conns))%nat eqn:E.
    + intros _. apply Hready. reflexivity.
    + cbn [Nat.eqb]. destruct (splitLastByte rawRequest) as [[p l]| |];
        try discriminate.
      destruct (sendPrefixes net conns errs) as [c2 e2].
      destruct (collect _ _ _ _ _); discriminate.
Qed.

Lemma all_dials_failed_witness :
  (0 < 3)%nat /\
  allDialsFail (fun _ => refused) 3 /\
  executeRace (fun _ => refused) (prepareRequest (str "GET / HTTP/1.1")) 3
    500 [0; 1; 2]%nat
  = Ret (inr (str "all 3 connections failed: connection refused")).
Proof.
  assert (allDialsFail (fun _ => refused) 3) as Hall
    by (intros i _; eexists; reflexivity).
  split; [lia|]. split; [exact Hall|].
  destruct (proj1 (all_dials_failed (fun _ => refused)
                     (prepareRequest (str "GET / HTTP/1.1")) 3 500
                     [0; 1; 2]%nat ltac:(lia)) Hall)
    as (first & Hfirst & Hrun).
  injection Hfirst as <-. exact Hrun.
Defined.

(** ** The body limit *)




(** ** A body that is cut short *)

(** C4 at a chunked response that ends after three bytes of a chunk of
    five: the decoder has read the three bytes and reports them with the
    error, readHTTPResponse leaves them out of the response, and the
    entry of the slot has the status code and an empty body.  With a
    Content-Length instead, the three bytes are in the entry. *)
Lemma cut_chunked_body_is_dropped :
  readChunkedBody (mkReader (str "5" ++ CRLF ++ str "hel") (str "EOF"))
  = Ret (str "hel", Some (str "EOF"), mkReader [] (str "EOF")) /\
  executeRace (fun _ => answering cutChunked)
    (prepareRequest (str "GET / HTTP/1.1")) 1 500 [0%nat]
  = Ret (inl [{| Index := 0; StatusCode := 200; Body := [] |}]) /\
  executeRace (fun _ => answering cutFixed)
    (prepareRequest (str "GET / HTTP/1.1")) 1 500 [0%nat]
  = Ret (inl [{| Index := 0; StatusCode := 200; Body := str "hel" |}]).
Proof. repeat split; vm_compute; reflexivity. Qed.

Lemma effectiveCount_bounds_witness :
  effectiveCount 0 = 10 /\ effectiveCount (-3) = 10 /\
  effectiveCount 77 = 50 /\ effectiveCount 20 = 20.
Proof.
  split; [exact (proj1 (proj2 (effectiveCount_bounds 0)) ltac:(lia))|].
  split; [exact (proj1 (proj2 (effectiveCount_bounds (-3))) ltac:(lia))|].
  split; [exact (proj1 (proj2 (proj2 (effectiveCount_bounds 77))) ltac:(lia))|].
  exact (proj2 (proj2 (proj2 (effectiveCount_bounds 20))) ltac:(lia)).
Defined.

(** ** What else the reader does *)



(** The header loop on a stream that ends within the header lines. *)
Lemma headerLoop_cut (headers : list bytes) (partial : bytes) (e : error)
    (fuel : nat) (response : bytes) (cl : Z) (ch : bool) :
  forallb isHeaderLine headers = true ->
  cutAfter LF partial = None ->
  (length headers < fuel)%nat ->
  headerLoop fuel (mkReader (concat headers ++ partial) e) response cl ch
  = Ret (inl (str "reading headers: " ++ e), mkReader [] e).
Proof.
  intros Hh Hp. revert fuel response cl ch.
  induction headers as [|h hs IH]; intros fuel response cl ch Hf;
    (destruct fuel as [|fuel]; [cbn [length] in Hf; lia|]); cbn [headerLoop].
  - cbn [concat app]. unfold ReadString. cbn [pending failure].
    rewrite Hp. reflexivity.
  - cbn [forallb] in Hh. apply andb_true_iff in Hh. destruct Hh as [Hl Hhs].
    unfold isHeaderLine in Hl. apply andb_true_iff in Hl.
    destruct Hl as [Hl Ht]. cbn [concat]. rewrite <- app_assoc.
    rewrite isLine_ReadString by assumption.
    destruct (TrimSpace h) as [|c t] eqn:Et; [discriminate|].
    apply IH; [assumption | cbn [length] in Hf; lia].
Qed.

(** X3.  When the stream ends within the header lines, after any
    number of them, readHTTPResponse returns the error of the read and
    no part of the response. *)
Lemma cut_headers_are_an_error (statusLine : bytes) (headers : list bytes)
    (partial : bytes) (e : error) :
  isLine statusLine = true ->
  forallb isHeaderLine headers = true ->
  cutAfter LF partial = None ->
  readHTTPResponse (mkReader (statusLine ++ concat headers ++ partial) e)
  = Ret ([], Some (str "reading headers: " ++ e), mkReader [] e).
Proof.
  intros Hs Hh Hp. unfold readHTTPResponse.
  rewrite isLine_ReadString by assumption. cbn [pending].
  rewrite headerLoop_cut; [reflexivity | assumption | assumption |].
  pose proof (concat_length_le headers Hh). rewrite !length_app. lia.
Qed.

Lemma cut_headers_are_an_error_witness :
  let headers := [str "Server: x" ++ CRLF; str "Content-Length: 5" ++ CRLF] in
  isLine okLine = true /\
  forallb isHeaderLine headers = true /\
  cutAfter LF (str "Content-Ty") = None /\
  readHTTPResponse
    (mkReader (okLine ++ concat headers ++ str "Content-Ty") (str "EOF"))
  = Ret ([], Some (str "reading headers: EOF"), mkReader [] (str "EOF")) /\
  readHTTPResponse (mkReader (okLine ++ concat headers) (str "EOF"))
  = Ret ([], Some (str "reading headers: EOF"), mkReader [] (str "EOF")).
Proof.
  split; [reflexivity|]. split; [reflexivity|]. split; [reflexivity|].
  split.
  - exact (cut_headers_are_an_error okLine
             [str "Server: x" ++ CRLF; str "Content-Length: 5" ++ CRLF]
             (str "Content-Ty") (str "EOF") eq_refl eq_refl eq_refl).
  - rewrite <- (app_nil_r (concat _)).
    exact (cut_headers_are_an_error okLine
             [str "Server: x" ++ CRLF; str "Content-Length: 5" ++ CRLF]
             [] (str "EOF") eq_refl eq_refl eq_refl).
Defined.

(** * The rest of the code *)

(** ** readChunkedBody on a stream that stops being chunked *)

Section ChunkedEdges.

(** The turns of the loop on encoded chunks. *)
Lemma chunkLoop_prefix (upper : bool) (chunks : list bytes) (fuel : nat)
    (more body : bytes) (e : error) :
  forallb isChunk chunks = true ->
  chunkLoop (length chunks + fuel)
    (mkReader (concat (map (encodeChunk upper) chunks) ++ more) e) body
  = chunkLoop fuel (mkReader more e) (body ++ concat chunks).
Proof.
  revert body. induction chunks as [|chunk chunks IH]; intros body Hall.
  - cbn [map concat app length Nat.add]. rewrite app_nil_r. reflexivity.
  - cbn [forallb] in Hall. apply andb_true_iff in Hall. destruct Hall as [Hc Hall].
    cbn [map concat length Nat.add]. rewrite <- !app_assoc.
    rewrite chunkLoop_chunk by assumption.
    rewrite IH by assumption. rewrite <- app_assoc. reflexivity.
Qed.

Lemma encoded_chunks_length (upper : bool) (chunks : list bytes) :
  (length chunks <= length (concat (map (encodeChunk upper) chunks)))%nat.
Proof.
  induction chunks as [|c cs IH]; [cbn; lia|].
  cbn [map concat length]. rewrite length_app. unfold encodeChunk at 1.
  rewrite !length_app. cbn [length CRLF]. lia.
Qed.

(** readChunkedBody after the chunks that a stream starts with. *)
Lemma readChunkedBody_prefix (upper : bool) (chunks : list bytes)
    (more : bytes) (e : error) :
  forallb isChunk chunks = true ->
  exists fuel,
    readChunkedBody
      (mkReader (concat (map (encodeChunk upper) chunks) ++ more) e)
    = chunkLoop (S (length more + fuel)) (mkReader more e) (concat chunks).
Proof.
  intros Hall. unfold readChunkedBody. cbn [pending].
  pose proof (encoded_chunks_length upper chunks) as Hlen.
  exists (length (concat (map (encodeChunk upper) chunks)) - length chunks)%nat.
  rewrite <- (chunkLoop_prefix upper chunks _ more [] e Hall).
  f_equal. rewrite length_app. lia.
Qed.

(** X1.  After any number of chunks, a size line whose number is
    negative, or more than can be allocated, makes readChunkedBody
    panic: the size is neither an error nor zero, and [make] takes no
    such length. *)
Lemma chunk_size_out_of_range_panics (upper : bool) (chunks : list bytes)
    (sizeLine rest : bytes) (e : error) (size : Z) :
  forallb isChunk chunks = true ->
  isLine sizeLine = true ->
  ParseInt (TrimSpace sizeLine) 16 = Some size ->
  size < 0 \/ (maxAlloc < size /\ len rest <= maxAlloc) ->
  readChunkedBody
    (mkReader (concat (map (encodeChunk upper) chunks) ++ sizeLine ++ rest) e)
  = Panic.
Proof.
  intros Hall Hl Hp Hsize.
  destruct (readChunkedBody_prefix upper chunks (sizeLine ++ rest) e Hall)
    as [fuel ->].
  cbn [chunkLoop]. rewrite isLine_ReadString, Hp by assumption.
  assert (maxAlloc = 281474976710656) as Hmax by reflexivity.
  test (size =? 0) false.
  unfold makePanics. cbn [pending].
  destruct Hsize as [Hneg | [Hbig Hlen]].
  - test (size <? 0) true. reflexivity.
  - test (size <? 0) false.
    test (maxAlloc <? size) true.
    test (len rest <? size) true.
    reflexivity.
Qed.

Lemma chunk_size_out_of_range_panics_witness :
  readChunkedBody
    (mkReader (concat (map (encodeChunk false) [str "hello"])
               ++ (str "-1" ++ CRLF) ++ str "abc") (str "EOF"))
  = Panic /\
  readChunkedBody
    (mkReader (concat (map (encodeChunk false) [str "hello"])
               ++ (str "1000000000001" ++ CRLF) ++ str "abc") (str "EOF"))
  = Panic.
Proof.
  split.
  - apply (chunk_size_out_of_range_panics false [str "hello"]
             (str "-1" ++ CRLF) (str "abc") (str "EOF") (-1));
      try reflexivity.
    left. reflexivity.
  - apply (chunk_size_out_of_range_panics false [str "hello"]
             (str "1000000000001" ++ CRLF) (str "abc") (str "EOF")
             281474976710657); try reflexivity.
    right. split; [reflexivity | discriminate].
Defined.

(** X4.  After any number of chunks, a size line that is no hexadecimal
    number (a chunk extension, a stray header, an empty line) ends the
    body: readChunkedBody returns the chunks read so far and no error,
    and leaves the reader after that line.  The chunks are no more
    bytes than can be allocated. *)
Lemma malformed_size_line_ends_the_body (upper : bool) (chunks : list bytes)
    (sizeLine rest : bytes) (e : error) :
  forallb isChunk chunks = true ->
  len (concat chunks) <= maxAlloc ->
  isLine sizeLine = true ->
  ParseInt (TrimSpace sizeLine) 16 = None ->
  readChunkedBody
    (mkReader (concat (map (encodeChunk upper) chunks) ++ sizeLine ++ rest) e)
  = Ret (concat chunks, None, mkReader rest e).
Proof.
  intros Hall _ Hl Hp.
  destruct (readChunkedBody_prefix upper chunks (sizeLine ++ rest) e Hall)
    as [fuel ->].
  cbn [chunkLoop]. rewrite isLine_ReadString, Hp by assumption. reflexivity.
Qed.

Lemma malformed_size_line_ends_the_body_witness :
  readChunkedBody
    (mkReader (concat (map (encodeChunk false) [str "hello"; str "world"])
               ++ (str "5;name=value" ++ CRLF) ++ str "again") (str "EOF"))
  = Ret (str "helloworld", None, mkReader (str "again") (str "EOF")).
Proof.
  exact (malformed_size_line_ends_the_body false [str "hello"; str "world"]
           (str "5;name=value" ++ CRLF) (str "again") (str "EOF")
           eq_refl ltac:(discriminate) eq_refl eq_refl).
Defined.



End ChunkedEdges.

(** ** normalizeRawRequest and fixContentLength on every input *)

Section Preparation.

Lemma toCRLF_before_LF (t p r : bytes) :
  ReplaceAll t [LF] CRLF = p ++ LF :: r -> exists q, p = q ++ [CR].
Proof.
  revert p. induction t as [|c t IH]; intros p H.
  - destruct p; discriminate.
  - rewrite toCRLF_cons in H. destruct (Ascii.eqb_spec c LF) as [->|Hc].
    + cbn [CRLF app] in H. destruct p as [|a [|b p]].
      * discriminate.
      * exists []. injection H as Ha _. subst a. reflexivity.
      * injection H as Ha Hb H. subst a b. destruct (IH _ H) as [q ->].
        exists (CR :: LF :: q). reflexivity.
    + cbn [app] in H. destruct p as [|a p].
      * injection H as Ha _. congruence.
      * injection H as Ha H. subst a. destruct (IH _ H) as [q ->].
        exists (c :: q). reflexivity.
Qed.

(** X6.  In a normalised request every "\n" comes right after a "\r":
    wherever the result is cut before a "\n", the part before the cut
    ends with "\r". *)
Lemma normalized_LF_follows_CR (raw p r : bytes) :
  normalizeRawRequest raw = p ++ LF :: r -> exists q, p = q ++ [CR].
Proof.
  destruct (normalizeRawRequest_image raw) as [t ->].
  apply toCRLF_before_LF.
Qed.

Lemma normalized_LF_follows_CR_witness :
  normalizeRawRequest (str "GET / HTTP/1.1" ++ [LF] ++ str "Host: a")
  = (str "GET / HTTP/1.1" ++ [CR]) ++ LF :: str "Host: a" ++ CRLFCRLF /\
  exists q, str "GET / HTTP/1.1" ++ [CR] = q ++ [CR].
Proof.
  split; [reflexivity|].
  exact (normalized_LF_follows_CR
           (str "GET / HTTP/1.1" ++ [LF] ++ str "Host: a")
           (str "GET / HTTP/1.1" ++ [CR]) (str "Host: a" ++ CRLFCRLF) eq_refl).
Defined.

(** X7.  normalizeRawRequest changes line ends only: with every "\r\n"
    read as "\n", the result is the input, followed by the one or two
    "\n" that the end of the request was short of. *)
Lemma normalizeRawRequest_keeps_the_text (raw : bytes) :
  let text := ReplaceAll raw CRLF [LF] in
  let normalized := ReplaceAll (normalizeRawRequest raw) CRLF [LF] in
  normalized = text \/ normalized = text ++ [LF] \/
  normalized = text ++ [LF; LF].
Proof.
  cbv zeta.
  destruct (normalizeRawRequest_cases raw) as [[_ ->]|[_ [[_ ->]| ->]]].
  - left. apply toLF_toCRLF.
  - right; left.
    replace (ReplaceAll (ReplaceAll raw CRLF [LF]) [LF] CRLF ++ CRLF)
      with (ReplaceAll (ReplaceAll raw CRLF [LF] ++ [LF]) [LF] CRLF)
      by (rewrite toCRLF_app; reflexivity).
    apply toLF_toCRLF.
  - right; right.
    replace (ReplaceAll (ReplaceAll raw CRLF [LF]) [LF] CRLF ++ CRLFCRLF)
      with (ReplaceAll (ReplaceAll raw CRLF [LF] ++ [LF; LF]) [LF] CRLF)
      by (rewrite toCRLF_app; reflexivity).
    apply toLF_toCRLF.
Qed.

(** The header lines and the body of what fixContentLength returns. *)
Lemma fixContentLength_parts (raw : bytes) (idx : nat) :
  Go.Index raw CRLFCRLF = Some idx ->
  headerLines (headerLinesOf raw) /\
  headerLinesOf (fixContentLength raw)
  = withContentLength (len (bodyAfterHeaders raw)) (headerLinesOf raw) /\
  bodyAfterHeaders (fixContentLength raw) = bodyAfterHeaders raw.
Proof.
  intros Hidx.
  destruct (Index_headerLines raw idx Hidx) as (ls & B & Hls & Hraw & Hl & HB).
  assert (headerLinesOf raw = ls) as ->
    by (unfold headerLinesOf; rewrite Hidx; symmetry; exact Hl).
  assert (bodyAfterHeaders raw = B) as ->
    by (unfold bodyAfterHeaders; rewrite Hidx; symmetry; exact HB).
  split; [exact Hls|].
  rewrite Hraw, fixContentLength_header by assumption.
  pose proof (headerLines_withContentLength (len B) ls Hls) as Hls'.
  unfold headerLinesOf, bodyAfterHeaders.
  rewrite (headerLines_Index _ B Hls').
  rewrite take_app_length, drop_app_add.
  destruct Hls' as (Hne & Hfree & _).
  rewrite Split_Join by assumption.
  split; reflexivity.
Qed.

Lemma withContentLength_value (n : Z) (ls : list bytes) :
  Forall (fun l => isContentLength l = true -> l = contentLengthLine n)
    (withContentLength n ls).
Proof.
  unfold withContentLength. apply Forall_app. split.
  - apply List.Forall_forall. intros l Hl. apply in_map_iff in Hl.
    destruct Hl as (l0 & <- & _). unfold rebuildLine.
    destruct (isContentLength l0) eqn:E; [reflexivity | congruence].
  - destruct (_ && _); repeat constructor.
Qed.

Lemma withContentLength_others (n : Z) (ls : list bytes) :
  List.filter otherHeader (withContentLength n ls) = List.filter otherHeader ls.
Proof.
  unfold withContentLength. rewrite List.filter_app.
  replace (List.filter otherHeader
             (if negb (existsb isContentLength ls) && (n >? 0)
              then [contentLengthLine n] else [])) with (@nil bytes).
  2:{ destruct (_ && _); [|reflexivity]. cbn [List.filter].
      unfold otherHeader. rewrite contentLengthLine_is. reflexivity. }
  rewrite app_nil_r.
  induction ls as [|l ls IH]; [reflexivity|].
  cbn [map List.filter]. rewrite IH. unfold rebuildLine, otherHeader.
  destruct (isContentLength l) eqn:E.
  - rewrite contentLengthLine_is. reflexivity.
  - rewrite E. reflexivity.
Qed.

(** X8.  On a request that has a blank line, fixContentLength leaves the
    body as it is and the other header lines in their order; every
    Content-Length line of the result states the length of the body, and
    when the body is not empty there is such a line. *)
Lemma fixContentLength_states_the_body_length (raw : bytes) (idx : nat) :
  Go.Index raw CRLFCRLF = Some idx ->
  let fixed := fixContentLength raw in
  let body := bodyAfterHeaders raw in
  bodyAfterHeaders fixed = body /\
  List.filter otherHeader (headerLinesOf fixed)
  = List.filter otherHeader (headerLinesOf raw) /\
  Forall (fun l => isContentLength l = true ->
                   l = str "Content-Length: " ++ Itoa (len body))
    (headerLinesOf fixed) /\
  existsb isContentLength (headerLinesOf fixed)
  = existsb isContentLength (headerLinesOf raw) || (len body >? 0).
Proof.
  intros Hidx. cbv zeta.
  destruct (fixContentLength_parts raw idx Hidx) as (_ & -> & ->).
  split; [reflexivity|]. split; [apply withContentLength_others|].
  split; [apply withContentLength_value|].
  unfold withContentLength. rewrite existsb_app, existsb_rebuildLine.
  destruct (existsb isContentLength (headerLinesOf raw)); [reflexivity|].
  destruct (len (bodyAfterHeaders raw) >? 0); [|reflexivity].
  cbn [negb andb existsb orb]. rewrite contentLengthLine_is. reflexivity.
Qed.

Lemma fixContentLength_states_the_body_length_witness :
  let raw := str "POST / HTTP/1.1" ++ CRLF ++ str "content-length: 1"
             ++ CRLF ++ str "Host: a" ++ CRLFCRLF ++ str "k=v&x=y" in
  fixContentLength raw
  = str "POST / HTTP/1.1" ++ CRLF ++ str "Content-Length: 7"
    ++ CRLF ++ str "Host: a" ++ CRLFCRLF ++ str "k=v&x=y" /\
  bodyAfterHeaders (fixContentLength raw) = str "k=v&x=y" /\
  List.filter otherHeader (headerLinesOf (fixContentLength raw))
  = [str "POST / HTTP/1.1"; str "Host: a"].
Proof.
  intros raw. split; [reflexivity|].
  pose proof (fixContentLength_states_the_body_length raw 43%nat eq_refl)
    as (H1 & H2 & _).
  split; [exact H1 | exact H2].
Defined.

(** X9.  Whatever the input, the request that the handlers prepare has a
    blank line, every Content-Length line of its header block states the
    number of bytes that follow the blank line, and there is such a line
    when bytes follow. *)
Lemma prepared_request_is_consistent (raw : bytes) :
  let prepared := prepareRequest raw in
  (exists idx, Go.Index prepared CRLFCRLF = Some idx) /\
  Forall (fun l => isContentLength l = true ->
                   l = str "Content-Length: "
                       ++ Itoa (len (bodyAfterHeaders prepared)))
    (headerLinesOf prepared) /\
  existsb isContentLength (headerLinesOf prepared)
  = existsb isContentLength (headerLinesOf (normalizeRawRequest raw))
    || nonEmpty (bodyAfterHeaders prepared).
Proof.
  cbv zeta. unfold prepareRequest.
  destruct (normalizeRawRequest_suffix raw) as [p Hp].
  destruct (Index_app_Some p CRLFCRLF []) as [idx Hidx].
  rewrite app_nil_r, <- Hp in Hidx.
  destruct (fixContentLength_parts _ idx Hidx) as (Hls & Hlines & Hbody).
  split.
  - destruct (Index_headerLines _ idx Hidx) as (ls & B & Hh & Hraw & _).
    rewrite Hraw, fixContentLength_header by assumption.
    eexists. apply headerLines_Index.
    apply headerLines_withContentLength. assumption.
  - rewrite Hlines, Hbody. split; [apply withContentLength_value|].
    unfold withContentLength. rewrite existsb_app, existsb_rebuildLine.
    destruct (existsb isContentLength _); [reflexivity|].
    destruct (bodyAfterHeaders (normalizeRawRequest raw)) as [|c b];
      [reflexivity|].
    replace (len (c :: b) >? 0) with true
      by (symmetry; apply Z.gtb_lt; unfold len; cbn [length]; lia).
    cbn [negb andb existsb orb nonEmpty]. rewrite contentLengthLine_is.
    reflexivity.
Qed.

End Preparation.

(** ** ParseHTTPResponse: offset and limit *)

Section BodyWindow.

(** X10.  ParseHTTPResponse returns a response for every input but the
    empty one.  Its Body is the window that offset and limit cut from
    the bytes after the blank line: the bytes from the offset on (all of
    them for an offset that is not positive, none from the end on), and
    of these the first [bodyLimit] when the limit is positive, all of
    them otherwise.  BodySize is the size of the whole body whatever the
    window, and Truncated tells that bytes after the window were left
    out. *)
Lemma ParseHTTPResponse_body_window (c : ascii) (s : bytes)
    (bodyOffset bodyLimit : Z) :
  let raw := c :: s in
  let rest := drop (Z.to_nat bodyOffset) (bodyOf raw) in
  exists parsed,
    burp.ParseHTTPResponse raw bodyOffset bodyLimit = Ret (Some parsed) /\
    burp.Body parsed
    = (if bodyLimit >? 0 then take (Z.to_nat bodyLimit) rest else rest) /\
    burp.BodySize parsed = len (bodyOf raw) /\
    burp.Truncated parsed = (bodyLimit >? 0) && (len rest >? bodyLimit).
Proof.
  cbv zeta.
  destruct (ParseHTTPResponse_total (c :: s) bodyOffset bodyLimit
              ltac:(discriminate)) as (parsed & Hp & Hsize & Hbody).
  rewrite applyOffsetLimit_window in Hbody. injection Hbody as Hb Ht.
  exists parsed. unfold bodyOf. auto.
Qed.

Lemma pageOf_window (raw : bytes) (bodyOffset bodyLimit : Z) :
  0 < bodyLimit ->
  pageOf raw bodyOffset bodyLimit
  = take (Z.to_nat bodyLimit) (drop (Z.to_nat bodyOffset) (bodyOf raw)).
Proof.
  intros Hl. unfold pageOf. destruct raw as [|c s].
  - cbn. rewrite drop_nil, take_nil. reflexivity.
  - destruct (ParseHTTPResponse_total (c :: s) bodyOffset bodyLimit
                ltac:(discriminate)) as (parsed & -> & _ & Hbody).
    rewrite applyOffsetLimit_window in Hbody. injection Hbody as -> _.
    test (bodyLimit >? 0) true. reflexivity.
Qed.

Lemma take_add_drop {A : Type} (a b : nat) (l : list A) :
  take (a + b) l = take a l ++ take b (drop a l).
Proof.
  revert l. induction a as [|a IH]; intros l; [reflexivity|].
  destruct l as [|x l]; [cbn; rewrite take_nil; reflexivity|].
  cbn. rewrite IH. reflexivity.
Qed.

(** X11.  Reading a response page by page gives its body: with a
    positive limit, the bodies that ParseHTTPResponse returns at the
    offsets 0, limit, 2 limit, ... put one after the other are the first
    bytes of the whole body, and all of it once the pages reach its
    end. *)
Lemma pages_make_the_body (raw : bytes) (bodyLimit : Z) (n : nat) :
  0 < bodyLimit ->
  let pages :=
    map (fun i => pageOf raw (Z.of_nat i * bodyLimit) bodyLimit) (seq 0 n) in
  concat pages = take (n * Z.to_nat bodyLimit) (bodyOf raw) /\
  (len (bodyOf raw) <= Z.of_nat n * bodyLimit -> concat pages = bodyOf raw).
Proof.
  intros Hl. cbv zeta.
  assert (concat (map (fun i => pageOf raw (Z.of_nat i * bodyLimit) bodyLimit)
                    (seq 0 n))
          = take (n * Z.to_nat bodyLimit) (bodyOf raw)) as H.
  { induction n as [|n IH]; [reflexivity|].
    rewrite seq_S, map_app, concat_app, IH. cbn [Nat.add map concat].
    rewrite app_nil_r, pageOf_window by assumption.
    replace (Z.to_nat (Z.of_nat n * bodyLimit))
      with (n * Z.to_nat bodyLimit)%nat by lia.
    replace (S n * Z.to_nat bodyLimit)%nat
      with (n * Z.to_nat bodyLimit + Z.to_nat bodyLimit)%nat by lia.
    symmetry. apply take_add_drop. }
  split; [exact H|]. intros Hall. rewrite H.
  apply take_ge. unfold len in Hall. lia.
Qed.

Lemma pages_make_the_body_witness :
  let raw := okLine ++ CRLF ++ str "0123456789" in
  [pageOf raw 0 4; pageOf raw 4 4; pageOf raw 8 4]
  = [str "0123"; str "4567"; str "89"] /\
  concat [pageOf raw 0 4; pageOf raw 4 4; pageOf raw 8 4] = str "0123456789".
Proof.
  intros raw. split; [reflexivity|].
  exact (proj2 (pages_make_the_body raw 4 3 eq_refl) ltac:(discriminate)).
Defined.

End BodyWindow.
Import handlers.

(** ** raceRequestHandler: the summary *)

Section Summary.

Lemma statusCounts_from (results : list RaceResponseEntry) (counts : gmap Z Z)
    (code : Z) :
  fold_left
    (fun counts r =>
       <[StatusCode r := default 0 (counts !! StatusCode r) + 1]> counts)
    results counts !! code
  = match counts !! code with
    | Some n => Some (n + withStatus code results)
    | None => if withStatus code results =? 0 then None
              else Some (withStatus code results)
    end.
Proof.
  revert counts. induction results as [|r results IH]; intros counts.
  - cbn [fold_left]. unfold withStatus, len. cbn [List.filter length].
    destruct (counts !! code); [f_equal; lia | reflexivity].
  - cbn [fold_left]. rewrite IH.
    assert (0 <= withStatus code results) as Hpos by (unfold withStatus, len; lia).
    unfold withStatus in *. cbn [List.filter].
    destruct (Z.eqb_spec (StatusCode r) code) as [->|Hne].
    + rewrite lookup_insert_eq. unfold len in *. cbn [length].
      destruct (counts !! code) as [n|]; cbv [default from_option id].
      * f_equal. lia.
      * destruct (Z.eqb_spec (Z.of_nat (S (length (List.filter
                    (fun r0 => StatusCode r0 =? code) results)))) 0);
          [lia | f_equal; lia].
    + rewrite lookup_insert_ne by assumption. reflexivity.
Qed.

(** X12.  The summary of a race counts every result once under its
    status code: a code is a key of [statusCounts] exactly when some
    result carries it, and its count is the number of results that
    do. *)
Lemma statusCounts_counts (results : list RaceResponseEntry) (code : Z) :
  statusCounts results !! code
  = if withStatus code results =? 0 then None
    else Some (withStatus code results).
Proof.
  unfold statusCounts. rewrite statusCounts_from, lookup_empty. reflexivity.
Qed.



End Summary.

(** ** ExtractText *)

Section ExtractText.

Lemma Join_lines (t : bytes) (ts : list bytes) (sep : bytes) :
  Join (t :: ts) sep = t ++ concat (map (fun u => sep ++ u) ts).
Proof.
  revert t. induction ts as [|u ts IH]; intros t.
  - cbn. rewrite app_nil_r. reflexivity.
  - change (Join (t :: u :: ts) sep) with (t ++ sep ++ Join (u :: ts) sep).
    rewrite IH. cbn [map concat]. rewrite <- app_assoc. reflexivity.
Qed.

Lemma ExtractText_from (content : list client.Content) (c : ascii)
    (text : bytes) :
  fold_left
    (fun text c =>
       match c with
       | client.TextContent t =>
           let text := if nonEmpty text then text ++ [LF] else text in
           text ++ t
       | client.OtherContent => text
       end) content (c :: text)
  = Join ((c :: text) :: textsOf content) [LF].
Proof.
  rewrite Join_lines. revert c text.
  induction content as [|[t|] content IH]; intros c text.
  - cbn. rewrite app_nil_r. reflexivity.
  - cbn [fold_left textsOf]. cbn zeta.
    cbn [nonEmpty].
    change (((c :: text) ++ [LF]) ++ t) with (c :: (text ++ [LF]) ++ t).
    rewrite IH. cbn [map concat].
    rewrite !app_comm_cons, <- !app_assoc. reflexivity.
  - cbn [fold_left textsOf]. apply IH.
Qed.

(** X13.  ExtractText puts the texts of the text items of a result on
    lines of their own, one "\n" between two texts, and passes over the
    items of other kinds; an empty text is a line as well, except at the
    start, where empty texts leave no trace. *)
Lemma ExtractText_joins_the_texts (content : list client.Content) :
  client.ExtractText content = Join (skipEmpty (textsOf content)) [LF].
Proof.
  unfold client.ExtractText.
  induction content as [|[[|c t]|] content IH].
  - reflexivity.
  - cbn [fold_left textsOf skipEmpty]. exact IH.
  - cbn [fold_left textsOf skipEmpty]. cbn zeta.
    cbn [nonEmpty].
    cbn [app]. apply ExtractText_from.
  - cbn [fold_left textsOf]. exact IH.
Qed.

End ExtractText.

(** ** UnwrapResponse and UnwrapRequest *)

Section Unwrap.

(** Bytes that cannot start [marker] are passed over. *)
Lemma Index_skip (u s m : bytes) (c : ascii) :
  Forall (fun d => Ascii.eqb d c = false) u ->
  Go.Index (u ++ s) (c :: m)
  = option_map (fun i => (length u + i)%nat) (Go.Index s (c :: m)).
Proof.
  induction 1 as [|d u Hd _ IH].
  - cbn [app length Nat.add]. destruct (Go.Index s (c :: m)); reflexivity.
  - cbn [app]. rewrite Index_cons. cbn [HasPrefix]. rewrite Hd. cbn [andb].
    rewrite IH. destruct (Go.Index s (c :: m)); reflexivity.
Qed.

(** A prefix that reaches into a part starting with [c] holds [c]. *)
Lemma HasPrefix_within (q rest m : bytes) (c : ascii) :
  Forall (fun d => Ascii.eqb c d = false) m ->
  HasPrefix (q ++ c :: rest) m = true -> HasPrefix q m = true.
Proof.
  intros Hm. revert q. induction Hm as [|a m Ha _ IH]; intros q H.
  - destruct q; reflexivity.
  - destruct q as [|e q]; cbn [app HasPrefix] in *.
    + rewrite Ha in H. discriminate.
    + apply andb_true_iff in H. destruct H as [-> H].
      cbn [andb]. apply IH. exact H.
Qed.

(** The first occurrence of a marker whose first byte it has only
    once. *)
Lemma Index_marker (p r m : bytes) (c : ascii) :
  Forall (fun d => Ascii.eqb c d = false) m ->
  Go.Index p (c :: m) = None ->
  Go.Index (p ++ (c :: m) ++ r) (c :: m) = Some (length p).
Proof.
  intros Hm. induction p as [|d p IH]; intros Hp.
  - apply Index_here. apply (HasPrefix_app (c :: m) r).
  - rewrite Index_cons in Hp.
    destruct (HasPrefix (d :: p) (c :: m)) eqn:E; [discriminate|].
    destruct (Go.Index p (c :: m)) eqn:Ei; [discriminate|].
    change ((d :: p) ++ (c :: m) ++ r) with (d :: (p ++ (c :: m) ++ r)).
    rewrite Index_cons, (IH eq_refl). cbn [length option_map].
    replace (HasPrefix (d :: p ++ (c :: m) ++ r) (c :: m)) with false;
      [reflexivity|].
    symmetry. cbn [HasPrefix] in *.
    destruct (Ascii.eqb d c); [|reflexivity]. cbn [andb] in *.
    destruct (HasPrefix (p ++ (c :: m) ++ r) m) eqn:E2; [|reflexivity].
    change ((c :: m) ++ r) with (c :: (m ++ r)) in E2.
    apply HasPrefix_within in E2; [congruence | exact Hm].
Qed.

Lemma LastIndex_none (s x : bytes) :
  Go.Index s x = None -> LastIndex s x = None.
Proof.
  induction s as [|c s IH]; intros H.
  - cbn in *. destruct (HasPrefix [] x); [discriminate | reflexivity].
  - rewrite Index_cons in H.
    destruct (HasPrefix (c :: s) x) eqn:E; [discriminate|].
    destruct (Go.Index s x) eqn:Ei; [discriminate|].
    cbn [LastIndex]. rewrite (IH eq_refl), E. reflexivity.
Qed.

Lemma LastIndex_app (p t x : bytes) (i : nat) :
  LastIndex t x = Some i -> LastIndex (p ++ t) x = Some (length p + i)%nat.
Proof.
  intros H. induction p as [|c p IH]; [exact H|].
  cbn [app LastIndex length Nat.add]. rewrite IH. reflexivity.
Qed.

(** The last occurrence of such a marker, when none follows. *)
Lemma LastIndex_marker (p r m : bytes) (c : ascii) :
  Forall (fun d => Ascii.eqb d c = false) m ->
  Go.Index r (c :: m) = None ->
  LastIndex (p ++ (c :: m) ++ r) (c :: m) = Some (length p).
Proof.
  intros Hm Hr.
  replace (length p) with (length p + 0)%nat by lia.
  apply LastIndex_app. cbn [app LastIndex].
  rewrite LastIndex_none by (rewrite Index_skip, Hr by assumption; reflexivity).
  change (c :: m ++ r) with ((c :: m) ++ r). rewrite HasPrefix_app.
  reflexivity.
Qed.

Lemma Contains_false (s x : bytes) :
  Contains s x = false -> Go.Index s x = None.
Proof. unfold Contains. destruct (Go.Index s x); [discriminate | reflexivity]. Qed.

(** X14.  Unwrapping undoes Burp's wrapping: from the rendering of an
    exchange, UnwrapRequest returns the request and UnwrapResponse the
    response.  The request must not hold the marker of the response and
    the annotations not their own marker; the response may hold
    both. *)
Lemma unwrap_wrapped (wrapper request response annotations : bytes) :
  wrapper = parser.reqPrefix \/ wrapper = parser.reqPrefix2 ->
  Contains request parser.respMarker = false ->
  Contains annotations parser.annMarker = false ->
  parser.UnwrapRequest (wrapped wrapper request response annotations)
  = request /\
  parser.UnwrapResponse (wrapped wrapper request response annotations)
  = response.
Proof.
  intros Hw Hreq Hann. apply Contains_false in Hreq, Hann.
  assert (LastIndex (wrapped wrapper request response annotations)
            parser.annMarker
          = Some (length (wrapper ++ request ++ parser.respMarker ++ response)))
    as Hlast.
  { unfold wrapped.
    replace (wrapper ++ request ++ parser.respMarker ++ response
             ++ parser.annMarker ++ annotations)
      with ((wrapper ++ request ++ parser.respMarker ++ response)
            ++ parser.annMarker ++ annotations)
      by (rewrite <- !app_assoc; reflexivity).
    apply LastIndex_marker; [|exact Hann].
    repeat constructor. }
  assert (take (length (wrapper ++ request ++ parser.respMarker ++ response))
            (wrapped wrapper request response annotations)
          = wrapper ++ request ++ parser.respMarker ++ response) as Htake.
  { unfold wrapped.
    replace (wrapper ++ request ++ parser.respMarker ++ response
             ++ parser.annMarker ++ annotations)
      with ((wrapper ++ request ++ parser.respMarker ++ response)
            ++ parser.annMarker ++ annotations)
      by (rewrite <- !app_assoc; reflexivity).
    apply take_app_length. }
  assert (Go.Index (wrapper ++ request ++ parser.respMarker ++ response)
            parser.respMarker
          = Some (length (wrapper ++ request))) as Hfirst.
  { rewrite app_assoc. apply Index_marker; [repeat constructor|].
    rewrite Index_skip.
    - replace (Go.Index request _) with (@None nat)
        by (symmetry; exact Hreq).
      reflexivity.
    - destruct Hw as [-> | ->]; repeat constructor. }
  unfold parser.UnwrapRequest, parser.UnwrapResponse.
  rewrite Hlast, Htake, Hfirst. split.
  - rewrite app_assoc, take_app_length.
    destruct Hw as [-> | ->].
    + rewrite HasPrefix_app, drop_app_length. reflexivity.
    + replace (HasPrefix (parser.reqPrefix2 ++ request) parser.reqPrefix)
        with false by reflexivity.
      rewrite HasPrefix_app, drop_app_length. reflexivity.
  - rewrite (app_assoc wrapper), drop_app_add, drop_app_length. reflexivity.
Qed.

Lemma unwrap_wrapped_witness :
  let raw :=
    str "HttpRequestResponse{httpRequest=GET /a, b HTTP/1.1"
    ++ str ", httpResponse=HTTP/1.1 200 OK"
    ++ str ", messageAnnotations=Annotations{notes=, highlightColor=NONE}}" in
  parser.UnwrapRequest raw = str "GET /a, b HTTP/1.1" /\
  parser.UnwrapResponse raw = str "HTTP/1.1 200 OK".
Proof.
  exact (unwrap_wrapped parser.reqPrefix (str "GET /a, b HTTP/1.1")
           (str "HTTP/1.1 200 OK") (str "notes=, highlightColor=NONE}}")
           (or_introl eq_refl) eq_refl eq_refl).
Defined.

End Unwrap.

(** ** ParseScannerIssues *)

Section ScannerIssues.

Lemma issueLine_fields (detailLimit : Z) (issue : parser.ScannerIssue)
    (line : bytes) :
  let issue' := parser.issueLine detailLimit issue line in
  parser.IssueDetail issue' = parser.IssueDetail issue \/
  exists detail,
    parser.IssueDetail issue'
    = (if (detailLimit >? 0) && (len detail >? detailLimit)
       then take (Z.to_nat detailLimit) detail ++ str "..."
       else detail).
Proof.
  cbv zeta. unfold parser.issueLine.
  repeat match goal with
         | |- context [if ?b then _ else _] =>
             lazymatch b with
             | (_ >? _) && _ => fail
             | _ => destruct b
             end
         end; cbn [parser.IssueDetail]; eauto.
Qed.

(** The issue of a block that is not blank. *)
Lemma issueOfBlock_some (detailLimit : Z) (block : bytes) :
  notBlank block = true ->
  exists issue,
    parser.issueOfBlock detailLimit block = Some issue /\
    nonEmpty (parser.Name issue) = true /\
    parser.IssueDetail issue
    = parser.IssueDetail
        (fold_left (parser.issueLine detailLimit)
           (Split (TrimSpace block) [LF])
           {| parser.Name := []; parser.Severity := [];
              parser.Confidence := []; parser.URL := [];
              parser.IssueDetail := [] |}).
Proof.
  unfold notBlank, parser.issueOfBlock.
  destruct (TrimSpace block) as [|c b] eqn:E; [discriminate|]. intros _.
  set (issue := fold_left _ _ _).
  destruct (parser.Name issue) as [|n ns] eqn:En.
  - replace (len (c :: b) >? 0) with true by reflexivity.
    cbn [parser.Name].
    destruct (len (c :: b) >? 200) eqn:E200.
    + cbn [take app]. eexists. split; [reflexivity|]. split; reflexivity.
    + eexists. split; [reflexivity|]. split; reflexivity.
  - rewrite En. exists issue. rewrite En. repeat split.
Qed.

Lemma issueOfBlock_none (detailLimit : Z) (block : bytes) :
  notBlank block = false -> parser.issueOfBlock detailLimit block = None.
Proof.
  unfold notBlank, parser.issueOfBlock.
  destruct (TrimSpace block); [reflexivity | discriminate].
Qed.

Lemma omap_cons {A B : Type} (f : A -> option B) (x : A) (l : list A) :
  omap f (x :: l)
  = match f x with Some y => y :: omap f l | None => omap f l end.
Proof. reflexivity. Qed.

Lemma omap_issueOfBlock (detailLimit : Z) (blocks : list bytes) :
  length (omap (parser.issueOfBlock detailLimit) blocks)
  = length (List.filter notBlank blocks) /\
  Forall (fun issue => nonEmpty (parser.Name issue) = true)
    (omap (parser.issueOfBlock detailLimit) blocks).
Proof.
  induction blocks as [|b blocks [IHl IHn]]; [split; [reflexivity|constructor]|].
  rewrite omap_cons. cbn [List.filter].
  destruct (notBlank b) eqn:E.
  - destruct (issueOfBlock_some detailLimit b E) as (issue & -> & Hn & _).
    cbn [length]. split; [congruence | constructor; assumption].
  - rewrite issueOfBlock_none by assumption. split; assumption.
Qed.

(** X15.  ParseScannerIssues returns one issue for every block of the
    output that is not blank, and every issue has a name: a block
    without a name line, or with an empty name, is named by its own
    text. *)
Lemma every_block_is_an_issue (raw : bytes) (detailLimit : Z) :
  let issues := parser.ParseScannerIssues raw detailLimit in
  len issues = len (List.filter notBlank (parser.splitIssueBlocks raw)) /\
  Forall (fun issue => nonEmpty (parser.Name issue) = true) issues.
Proof.
  cbv zeta. unfold parser.ParseScannerIssues.
  destruct raw as [|c raw]; [split; [reflexivity | constructor]|].
  destruct (omap_issueOfBlock detailLimit (parser.splitIssueBlocks (c :: raw)))
    as [Hl Hn].
  unfold len. rewrite Hl. split; [reflexivity | exact Hn].
Qed.

Lemma fold_issueLine_detail (detailLimit : Z) (lines : list bytes)
    (issue : parser.ScannerIssue) :
  0 < detailLimit ->
  len (parser.IssueDetail issue) <= detailLimit + 3 ->
  len (parser.IssueDetail (fold_left (parser.issueLine detailLimit) lines issue))
  <= detailLimit + 3.
Proof.
  intros Hl. revert issue. induction lines as [|l lines IH]; intros issue Hi;
    [exact Hi|].
  cbn [fold_left]. apply IH.
  destruct (issueLine_fields detailLimit issue l) as [-> | [detail ->]];
    [exact Hi|].
  test (detailLimit >? 0) true. cbn [andb].
  destruct (Z.gtb_spec (len detail) detailLimit) as [Hd|Hd]; [|lia].
  unfold len in *. rewrite length_app, length_take. cbn [length str list_ascii_of_string].
  lia.
Qed.

(** X16.  The detail of an issue is bounded: getScannerIssuesHandler
    passes 500 for a DetailLimit of 0 and the limit itself when it is
    positive, and ParseScannerIssues then returns no IssueDetail longer
    than that limit and the three bytes of "...". *)
Lemma issue_detail_is_bounded (raw : bytes) (inputDetailLimit : Z) :
  0 <= inputDetailLimit ->
  Forall (fun issue =>
            len (parser.IssueDetail issue)
            <= (if inputDetailLimit =? 0 then 500 else inputDetailLimit) + 3)
    (parser.ParseScannerIssues raw (effectiveDetailLimit inputDetailLimit)).
Proof.
  intros Hin.
  assert (effectiveDetailLimit inputDetailLimit
          = if inputDetailLimit =? 0 then 500 else inputDetailLimit) as ->.
  { unfold effectiveDetailLimit.
    destruct (Z.eqb_spec inputDetailLimit 0); [reflexivity|].
    test (inputDetailLimit <? 0) false. reflexivity. }
  set (limit := if inputDetailLimit =? 0 then 500 else inputDetailLimit).
  assert (0 < limit) as Hl
    by (unfold limit; destruct (Z.eqb_spec inputDetailLimit 0); lia).
  unfold parser.ParseScannerIssues. destruct raw as [|c raw]; [constructor|].
  induction (parser.splitIssueBlocks (c :: raw)) as [|b blocks IH];
    [constructor|].
  rewrite omap_cons.
  destruct (notBlank b) eqn:E.
  - destruct (issueOfBlock_some limit b E) as (issue & -> & _ & Hd).
    constructor; [|exact IH]. rewrite Hd.
    apply fold_issueLine_detail; [exact Hl|].
    unfold len. cbn [parser.IssueDetail length]. lia.
  - rewrite issueOfBlock_none by assumption. exact IH.
Qed.

Lemma issue_detail_is_bounded_witness :
  let raw := str "Name: SQL injection" ++ [LF]
             ++ str "Detail: 0123456789abcdefghij" in
  map parser.IssueDetail (parser.ParseScannerIssues raw (effectiveDetailLimit 10))
  = [str "0123456789..."] /\
  Forall (fun issue => len (parser.IssueDetail issue) <= 10 + 3)
    (parser.ParseScannerIssues raw (effectiveDetailLimit 10)).
Proof.
  intros raw. split; [reflexivity|].
  exact (issue_detail_is_bounded raw 10 ltac:(lia)).
Defined.

End ScannerIssues.

(** ** raceRequestHandler *)

Section Handler.

Variable SplitHostPort : bytes -> option (bytes * bytes).


(** X17.  What raceRequestHandler makes of its input.  It fails without
    a raw request, and without a host in the input and in the Host
    header; otherwise it calls executeRace with a count in [1, 50], a
    body limit that is not 0, the prepared request, TLS unless the input
    says otherwise, and a port that is not 0: the port of the input, or
    else the one that the host carries, or else 443 with TLS and 80
    without. *)
Lemma raceCall_outcome (input : RaceRequestInput) :
  let target :=
    if nonEmpty (Host input) then Host input
    else parser.Host (parser.ParseRawRequest (Raw input)) in
  let carried :=
    match SplitHostPort target with
    | Some (_, p) => default 0 (Atoi p)
    | None => 0
    end in
  match raceCall SplitHostPort input with
  | inl err =>
      (Raw input = [] /\ err = str "raw HTTP request is required") \/
      (target = [] /\
       err = str "host is required (provide in input or Host header)")
  | inr call =>
      nonEmpty (Raw input) = true /\ nonEmpty target = true /\
      host call = match SplitHostPort target with
                  | Some (h, _) => h
                  | None => target
                  end /\
      1 <= count call <= 50 /\
      (bodyLimit call =? 0) = false /\
      rawBytes call = prepareRequest (Raw input) /\
      useTLS call = default true (TLS input) /\
      (port call =? 0) = false /\
      port call = (if Port input =? 0
                   then if carried =? 0
                        then if useTLS call then 443 else 80
                        else carried
                   else Port input)
  end.
Proof.
  cbv zeta. unfold raceCall.
  destruct (Raw input) as [|c raw] eqn:Eraw; [left; split; reflexivity|].
  set (parsed := parser.ParseRawRequest (c :: raw)).
  replace (match Host input with [] => parser.Host parsed | _ => Host input end)
    with (if nonEmpty (Host input) then Host input else parser.Host parsed)
    by (destruct (Host input); reflexivity).
  destruct (if nonEmpty (Host input) then Host input else parser.Host parsed)
    as [|a h]; [right; split; reflexivity|].
  assert (1 <= effectiveCount (Count input) <= 50) as Hcount.
  { unfold effectiveCount, defaultRaceCount, maxRaceCount.
    destruct (Z.leb_spec (Count input) 0);
      [cbn; lia | destruct (Z.gtb_spec (Count input) 50); lia]. }
  assert ((effectiveBodyLimit (BodyLimit input) =? 0) = false) as Hlimit.
  { unfold effectiveBodyLimit, defaultRaceBodyLimit.
    destruct (Z.eqb_spec (BodyLimit input) 0) as [|Hne]; [reflexivity|].
    apply Z.eqb_neq. exact Hne. }
  assert (forall tls : bool, ((if tls then 443 else 80) =? 0) = false) as Hdef
    by (intros [|]; reflexivity).
  destruct (SplitHostPort (a :: h)) as [[h' p]|];
    cbn [host count bodyLimit rawBytes useTLS port];
    (split; [reflexivity|]); (split; [reflexivity|]); (split; [reflexivity|]);
    (split; [exact Hcount|]); (split; [exact Hlimit|]);
    (split; [reflexivity|]); (split; [destruct (TLS input); reflexivity|]).
  - destruct (Z.eqb_spec (Port input) 0) as [Hp|Hp].
    + destruct (Atoi p) as [pn|]; cbv [default from_option id].
      * destruct (Z.eqb_spec pn 0) as [Hz|Hz].
        -- split; [apply Hdef | reflexivity].
        -- split; [apply Z.eqb_neq; exact Hz | reflexivity].
      * rewrite Hp. cbn [Z.eqb]. split; [apply Hdef | reflexivity].
    + assert ((Port input =? 0) = false) as Hpf by (apply Z.eqb_neq; exact Hp).
      rewrite ?Hpf. split; reflexivity.
  - destruct (Z.eqb_spec (Port input) 0) as [Hp|Hp].
    + rewrite ?Hp. cbn [Z.eqb]. split; [apply Hdef | reflexivity].
    + assert ((Port input =? 0) = false) as Hpf by (apply Z.eqb_neq; exact Hp).
      rewrite ?Hpf. split; reflexivity.
Qed.



End Handler.


(** ** ParseRawRequest *)

Section TrimASCII.

Lemma trimBytes_head (c : ascii) (s : bytes) :
  isSpace c = false -> trimBytes (c :: s) = c :: s.
Proof. intros H. cbn. rewrite H. reflexivity. Qed.

Lemma trimBytes_snoc (x : bytes) (c : ascii) :
  trimBytes (x ++ [c])
  = match trimBytes x with
    | [] => if isSpace c then [] else [c]
    | t => t ++ [c]
    end.
Proof.
  induction x as [|d x IH]; [reflexivity|].
  cbn [app trimBytes]. destruct (isSpace d); [exact IH | reflexivity].
Qed.

Lemma trimBytes_cons (c : ascii) (w : bytes) :
  rev (trimBytes (rev (c :: w)))
  = match rev (trimBytes (rev w)) with
    | [] => if isSpace c then [] else [c]
    | t => c :: t
    end.
Proof.
  cbn [rev]. rewrite trimBytes_snoc.
  destruct (trimBytes (rev w)) as [|d t] eqn:E.
  - cbn [rev]. destruct (isSpace c); reflexivity.
  - rewrite rev_app_distr. cbn [rev app].
    destruct (rev t ++ [d]) eqn:E2; [destruct (rev t); discriminate|].
    reflexivity.
Qed.

Lemma trimBytes_idempotent (s : bytes) : trimBytes (trimBytes s) = trimBytes s.
Proof.
  induction s as [|c s IH]; [reflexivity|].
  cbn [trimBytes]. destruct (isSpace c) eqn:E; [exact IH|].
  cbn [trimBytes]. rewrite E. reflexivity.
Qed.

(** Trimming on the left and on the right commute. *)
Lemma trimBytes_commute (w : bytes) :
  trimBytes (rev (trimBytes (rev w))) = rev (trimBytes (rev (trimBytes w))).
Proof.
  induction w as [|c w IH]; [reflexivity|].
  rewrite trimBytes_cons. cbn [trimBytes].
  destruct (isSpace c) eqn:E.
  - rewrite <- IH. destruct (rev (trimBytes (rev w))) as [|d t]; [reflexivity|].
    cbn [trimBytes]. rewrite E. reflexivity.
  - rewrite trimBytes_cons.
    destruct (rev (trimBytes (rev w))) as [|d t]; rewrite ?E;
      cbn [trimBytes]; rewrite E; reflexivity.
Qed.

Lemma trimASCII_trimRight (w : bytes) :
  trimASCII (rev (trimBytes (rev w))) = trimASCII w.
Proof.
  unfold trimASCII. rewrite (trimBytes_commute w), rev_involutive.
  rewrite trimBytes_idempotent. reflexivity.
Qed.

Lemma trimASCII_space (c : ascii) (v : bytes) :
  isSpace c = true -> trimASCII (c :: v) = trimASCII v.
Proof. intros H. unfold trimASCII. cbn [trimBytes]. rewrite H. reflexivity. Qed.

(** A text between two bytes that are no white space is trimmed. *)
Lemma trimASCII_trimmed (a b : ascii) (s : bytes) :
  isSpace a = false -> isSpace b = false ->
  trimASCII (a :: s ++ [b]) = a :: s ++ [b].
Proof.
  intros Ha Hb. unfold trimASCII. rewrite trimBytes_head by assumption.
  change (a :: s ++ [b]) with ((a :: s) ++ [b]). rewrite rev_app_distr.
  change (rev [b] ++ rev (a :: s)) with (b :: rev (a :: s)).
  rewrite trimBytes_head by assumption.
  change (b :: rev (a :: s)) with (rev [b] ++ rev (a :: s)).
  rewrite <- rev_app_distr. apply rev_involutive.
Qed.

Lemma trimASCII_token (s : bytes) :
  Forall (fun c => isSpace c = false) s -> trimASCII s = s.
Proof.
  intros H. destruct s as [|a s]; [reflexivity|].
  destruct s as [|b s _] using rev_ind.
  - inversion H; subst. unfold trimASCII. cbn [trimBytes rev app].
    rewrite H2. cbn [trimBytes rev app]. rewrite H2. reflexivity.
  - apply trimASCII_trimmed.
    + inversion H; assumption.
    + inversion H as [|? ? _ Hs]; subst. apply Forall_app in Hs.
      destruct Hs as [_ Hs]. inversion Hs; assumption.
Qed.

(** Trimming a text that ends with a byte that is no white space,
    followed by more. *)
Lemma trimASCII_head (a c : ascii) (s w : bytes) :
  isSpace a = false -> isSpace c = false ->
  trimASCII ((a :: s) ++ c :: w) = (a :: s) ++ c :: rev (trimBytes (rev w)).
Proof.
  intros Ha Hc. unfold trimASCII.
  change ((a :: s) ++ c :: w) with (a :: (s ++ c :: w)).
  rewrite trimBytes_head by assumption.
  change (a :: (s ++ c :: w)) with ((a :: s) ++ c :: w).
  induction w as [|d w IH] using rev_ind.
  - cbn [rev trimBytes]. rewrite rev_app_distr.
    change (rev [c] ++ rev (a :: s)) with (c :: rev (a :: s)).
    rewrite trimBytes_head by assumption.
    change (c :: rev (a :: s)) with (rev [c] ++ rev (a :: s)).
    rewrite <- rev_app_distr. apply rev_involutive.
  - rewrite (rev_app_distr w [d]).
    change (rev [d] ++ rev w) with (d :: rev w).
    replace ((a :: s) ++ c :: w ++ [d]) with (((a :: s) ++ c :: w) ++ [d])
      by (rewrite <- app_assoc; reflexivity).
    rewrite (rev_app_distr _ [d]).
    change (rev [d] ++ rev ((a :: s) ++ c :: w))
      with (d :: rev ((a :: s) ++ c :: w)).
    cbn [trimBytes]. destruct (isSpace d) eqn:Ed; [exact IH|].
    change (d :: rev ((a :: s) ++ c :: w))
      with (rev [d] ++ rev ((a :: s) ++ c :: w)).
    rewrite <- rev_app_distr, rev_involutive.
    change (d :: rev w) with (rev [d] ++ rev w).
    rewrite <- rev_app_distr, rev_involutive.
    rewrite <- app_assoc. reflexivity.
Qed.

Lemma trimASCII_snoc (s : bytes) (c : ascii) :
  isSpace c = true -> trimASCII (s ++ [c]) = trimASCII s.
Proof.
  intros H. unfold trimASCII. rewrite <- !trimBytes_commute.
  rewrite rev_app_distr. cbn [rev app trimBytes]. rewrite H. reflexivity.
Qed.

Lemma isASCII_trimRight (w : bytes) :
  isASCII w = true -> isASCII (rev (trimBytes (rev w))) = true.
Proof.
  intros H. rewrite isASCII_rev. apply trimBytes_ascii.
  rewrite isASCII_rev. exact H.
Qed.

(** The same of TrimSpace, on texts of ASCII. *)
Lemma TrimSpace_trimRight (w : bytes) :
  isASCII w = true -> TrimSpace (rev (trimBytes (rev w))) = TrimSpace w.
Proof.
  intros H. rewrite !TrimSpace_ascii by (exact H || apply isASCII_trimRight, H).
  apply trimASCII_trimRight.
Qed.

Lemma TrimSpace_token (s : bytes) :
  isASCII s = true -> Forall (fun c => isSpace c = false) s ->
  TrimSpace s = s.
Proof.
  intros Ha H. rewrite TrimSpace_ascii by exact Ha.
  apply trimASCII_token, H.
Qed.

Lemma TrimSpace_head (a c : ascii) (s w : bytes) :
  isASCII ((a :: s) ++ c :: w) = true ->
  isSpace a = false -> isSpace c = false ->
  TrimSpace ((a :: s) ++ c :: w) = (a :: s) ++ c :: rev (trimBytes (rev w)).
Proof.
  intros H Ha Hc. rewrite TrimSpace_ascii by exact H.
  apply trimASCII_head; assumption.
Qed.

Lemma TrimSpace_CRLF (s : bytes) :
  isASCII s = true -> TrimSpace (s ++ CRLF) = TrimSpace s.
Proof.
  intros H. rewrite !TrimSpace_ascii
    by (exact H || (apply isASCII_app; split; [exact H | reflexivity])).
  change CRLF with ([CR] ++ [LF]). rewrite app_assoc.
  rewrite !trimASCII_snoc by reflexivity. reflexivity.
Qed.

End TrimASCII.

Section RawRequest.

(** Cutting at a separator of one byte. *)
Lemma splitFrom_byte (limit : option nat) (c sep : ascii) (s : bytes) :
  splitFrom 0 limit (c :: s) [sep]
  = match limit with
    | Some O => [c :: s]
    | _ => if Ascii.eqb c sep
           then [] :: splitFrom 0 (option_map Nat.pred limit) s [sep]
           else consHead c (splitFrom 0 limit s [sep])
    end.
Proof.
  cbn [splitFrom HasPrefix length Nat.sub]. rewrite andb_true_r.
  destruct limit as [[|k]|]; reflexivity.
Qed.

(** The first field: the bytes before the first separator. *)
Lemma splitFrom_field (k : nat) (sep : ascii) (field rest : bytes) :
  Forall (fun c => Ascii.eqb c sep = false) field ->
  splitFrom 0 (Some (S k)) (field ++ sep :: rest) [sep]
  = field :: splitFrom 0 (Some k) rest [sep].
Proof.
  induction 1 as [|c field Hc _ IH].
  - cbn [app]. rewrite splitFrom_byte, Ascii.eqb_refl. reflexivity.
  - cbn [app]. rewrite splitFrom_byte, Hc, IH. reflexivity.
Qed.

Lemma Split_field (sep : ascii) (field rest : bytes) :
  Forall (fun c => Ascii.eqb c sep = false) field ->
  Split (field ++ sep :: rest) [sep] = field :: Split rest [sep].
Proof.
  unfold Split. induction 1 as [|c field Hc _ IH].
  - cbn [app]. rewrite splitFrom_byte, Ascii.eqb_refl. reflexivity.
  - cbn [app]. rewrite splitFrom_byte, Hc, IH. reflexivity.
Qed.

Lemma Split_one (sep : ascii) (field : bytes) :
  Forall (fun c => Ascii.eqb c sep = false) field ->
  Split field [sep] = [field].
Proof.
  unfold Split. induction 1 as [|c field Hc _ IH]; [reflexivity|].
  rewrite splitFrom_byte, Hc, IH. reflexivity.
Qed.

(** The lines of a text are the lines it was joined from. *)
Lemma Split_Join_byte (sep : ascii) (l : bytes) (ls : list bytes) :
  Forall (Forall (fun c => Ascii.eqb c sep = false)) (l :: ls) ->
  Split (Join (l :: ls) [sep]) [sep] = l :: ls.
Proof.
  revert l. induction ls as [|l' ls IH]; intros l H.
  - apply Split_one. inversion H; assumption.
  - change (Join (l :: l' :: ls) [sep]) with (l ++ sep :: Join (l' :: ls) [sep]).
    inversion H; subst. rewrite Split_field, IH by assumption. reflexivity.
Qed.

(** "\r\n" to "\n" in a text that starts with bytes other than "\r". *)
Lemma toLF_skip (p s : bytes) :
  Forall (fun c => Ascii.eqb c CR = false) p ->
  ReplaceAll (p ++ s) CRLF [LF] = p ++ ReplaceAll s CRLF [LF].
Proof.
  induction 1 as [|c p Hc _ IH]; [reflexivity|].
  cbn [app]. rewrite toLF_other, IH; [reflexivity|].
  cbn [HasPrefix CRLF]. rewrite Hc. reflexivity.
Qed.

Lemma toLF_lines (nl : bytes) (l : bytes) (ls : list bytes) (t : bytes) :
  nl = [LF] \/ nl = CRLF ->
  Forall (Forall (fun c => Ascii.eqb c CR = false)) (l :: ls) ->
  ReplaceAll (Join (l :: ls) nl ++ nl ++ t) CRLF [LF]
  = Join (l :: ls) [LF] ++ LF :: ReplaceAll t CRLF [LF].
Proof.
  intros Hnl. revert l. induction ls as [|l' ls IH]; intros l H;
    inversion H as [|? ? Hl Hls]; subst.
  - cbn [Join]. rewrite toLF_skip by assumption.
    destruct Hnl as [-> | ->]; [|reflexivity].
    cbn [app]. rewrite toLF_other by reflexivity. reflexivity.
  - change (Join (l :: l' :: ls) nl) with (l ++ nl ++ Join (l' :: ls) nl).
    change (Join (l :: l' :: ls) [LF]) with (l ++ LF :: Join (l' :: ls) [LF]).
    rewrite <- !app_assoc, toLF_skip by assumption.
    specialize (IH l' Hls).
    destruct Hnl as [-> | ->].
    + cbn [app] in *. rewrite toLF_other by reflexivity. rewrite IH.
      reflexivity.
    + cbn [app CRLF] in *. rewrite toLF_crlf, IH. reflexivity.
Qed.

(** The first blank line of a text whose lines are not empty. *)
Lemma Index_blank_line (l : bytes) (ls : list bytes) (t : bytes) :
  Forall (fun l => nonEmpty l = true /\
                   Forall (fun c => Ascii.eqb c LF = false) l) (l :: ls) ->
  Go.Index (Join (l :: ls) [LF] ++ [LF; LF] ++ t) [LF; LF]
  = Some (length (Join (l :: ls) [LF])).
Proof.
  revert l. induction ls as [|l' ls IH]; intros l H;
    inversion H as [|? ? [Hne Hl] Hls]; subst.
  - cbn [Join]. rewrite Index_skip by assumption.
    cbn [app]. rewrite Index_here by reflexivity.
    cbn [option_map]. f_equal. lia.
  - change (Join (l :: l' :: ls) [LF]) with (l ++ LF :: Join (l' :: ls) [LF]).
    rewrite <- app_assoc, Index_skip by assumption.
    cbn [app]. rewrite Index_cons.
    inversion Hls as [|? ? [Hne' Hl'] _]; subst.
    replace (HasPrefix (LF :: Join (l' :: ls) [LF] ++ LF :: LF :: t) [LF; LF])
      with false.
    2:{ destruct l' as [|c l']; [discriminate|].
        inversion Hl' as [|? ? Hc _]; subst.
        destruct ls; cbn [Join app HasPrefix]; rewrite Hc; reflexivity. }
    specialize (IH l' Hls). cbn [app] in IH. rewrite IH.
    cbn [option_map]. f_equal. rewrite length_app. cbn [length]. lia.
Qed.

End RawRequest.

Section ParseRawRequest.

Lemma isToken_bytes (s : bytes) :
  isToken s = true ->
  nonEmpty s = true /\
  Forall (fun c => isSpace c = false) s /\
  Forall (fun c => Ascii.eqb c " " = false) s /\
  Forall (fun c => Ascii.eqb c CR = false) s /\
  Forall (fun c => Ascii.eqb c LF = false) s.
Proof.
  unfold isToken. intros H. apply andb_true_iff in H. destruct H as [Hne H].
  split; [exact Hne|].
  assert (Forall (fun c => isSpace c = false) s) as Hs.
  { apply List.Forall_forall. intros c Hc.
    rewrite forallb_forall in H. apply H in Hc.
    destruct (isSpace c); [discriminate | reflexivity]. }
  split; [exact Hs|].
  repeat split; (eapply Forall_impl; [exact Hs|]); intros c Hc;
    match goal with |- Ascii.eqb c ?d = false =>
      destruct (Ascii.eqb_spec c d) as [->|]; [discriminate | reflexivity]
    end.
Qed.

Lemma isPlain_bytes (s : bytes) :
  isPlain s = true ->
  Forall (fun c => Ascii.eqb c CR = false) s /\
  Forall (fun c => Ascii.eqb c LF = false) s.
Proof.
  unfold isPlain. intros H. rewrite forallb_forall in H.
  split; apply List.Forall_forall; intros c Hc; apply H in Hc;
    destruct (Ascii.eqb c CR), (Ascii.eqb c LF); discriminate || reflexivity.
Qed.

Lemma isWord_bytes (s : bytes) :
  isWord s = true -> isToken s = true /\ isASCII s = true.
Proof. unfold isWord. intros H. apply andb_true_iff in H. exact H. Qed.

Lemma isField_header (h : bytes * bytes) :
  isField h = true ->
  isHeader h = true /\ isASCII (fst h) = true /\ isASCII (snd h) = true.
Proof.
  unfold isField. intros H. apply andb_true_iff in H. destruct H as [H Hv].
  apply andb_true_iff in H. tauto.
Qed.

Lemma isField_headers (hs : list (bytes * bytes)) :
  forallb isField hs = true -> forallb isHeader hs = true.
Proof.
  intros H. apply forallb_forall. intros h Hin.
  rewrite forallb_forall in H. apply isField_header, H, Hin.
Qed.

(** A typed header is a line without "\r" and "\n" that is not
    empty. *)
Lemma headerText_line (h : bytes * bytes) :
  isHeader h = true ->
  nonEmpty (headerText h) = true /\
  Forall (fun c => Ascii.eqb c CR = false) (headerText h) /\
  Forall (fun c => Ascii.eqb c LF = false) (headerText h).
Proof.
  unfold isHeader, headerText. destruct h as [k v]. cbn [fst snd].
  intros H. apply andb_true_iff in H. destruct H as [H Hv].
  apply andb_true_iff in H. destruct H as [Hk _].
  apply isToken_bytes in Hk. destruct Hk as (Hne & _ & _ & Hcr & Hlf).
  apply isPlain_bytes in Hv. destruct Hv as [Hvcr Hvlf].
  split; [destruct k; [discriminate | reflexivity]|].
  split; apply Forall_app; (split; [assumption|]);
    repeat (constructor; [reflexivity|]); assumption.
Qed.

(** The fields of a typed header line, as the parsers cut them. *)
Lemma headerLine_fields (h : bytes * bytes) :
  isField h = true ->
  exists a rest,
    TrimSpace (headerText h) = a :: rest /\
    Go.Index (a :: rest) (str ":") = Some (length (fst h)) /\
    (0 <? length (fst h))%nat = true /\
    TrimSpace (take (length (fst h)) (a :: rest)) = fst h /\
    TrimSpace (drop (length (fst h) + 1) (a :: rest)) = TrimSpace (snd h).
Proof.
  intros H. apply isField_header in H. destruct H as (H & Hka & Hva).
  revert H Hka Hva.
  unfold isHeader, headerText. destruct h as [k v]. cbn [fst snd].
  intros H Hka Hva. apply andb_true_iff in H. destruct H as [H _].
  apply andb_true_iff in H. destruct H as [Hk Hcolon].
  apply isToken_bytes in Hk. destruct Hk as (Hne & Hsp & _).
  assert (Forall (fun c => Ascii.eqb c ":" = false) k) as Hc.
  { apply List.Forall_forall. intros c Hin.
    rewrite forallb_forall in Hcolon. apply Hcolon in Hin.
    destruct (Ascii.eqb c ":"); [discriminate | reflexivity]. }
  destruct k as [|a k]; [discriminate|].
  assert (isASCII (" "%char :: v) = true) as Hsv
    by (apply isASCII_cons; split; [apply Nat.ltb_lt; reflexivity | exact Hva]).
  set (R := rev (trimBytes (rev (" "%char :: v)))).
  exists a, (k ++ ":"%char :: R).
  change (a :: k ++ ":"%char :: R) with ((a :: k) ++ ":"%char :: R).
  split.
  { change ((a :: k) ++ str ": " ++ v)
      with ((a :: k) ++ ":"%char :: " "%char :: v).
    apply TrimSpace_head; [| inversion Hsp; assumption | reflexivity].
    apply isASCII_app. split; [exact Hka|].
    apply isASCII_cons. split; [apply Nat.ltb_lt; reflexivity | exact Hsv]. }
  split.
  { change (str ":") with [":"%char]. rewrite Index_skip by assumption.
    rewrite (Index_here (":"%char :: R) [":"%char]) by reflexivity.
    cbn [option_map]. f_equal. lia. }
  split; [reflexivity|]. split.
  { rewrite take_app_length. apply TrimSpace_token; assumption. }
  replace (length (a :: k) + 1)%nat with (length ((a :: k) ++ [":"%char]))
    by (rewrite length_app; reflexivity).
  replace ((a :: k) ++ ":"%char :: R) with (((a :: k) ++ [":"%char]) ++ R)
    by (rewrite <- app_assoc; reflexivity).
  rewrite drop_app_length. unfold R.
  rewrite TrimSpace_trimRight by exact Hsv.
  apply TrimSpace_space. reflexivity.
Qed.

(** One turn of the header loop on a typed header. *)
Lemma requestHeader_header (headers : gmap bytes bytes) (host : bytes)
    (h : bytes * bytes) :
  isField h = true ->
  parser.requestHeader (headers, host) (headerText h)
  = (<[fst h := TrimSpace (snd h)]> headers,
     if EqualFold (fst h) (str "host") then TrimSpace (snd h) else host).
Proof.
  intros H. unfold parser.requestHeader.
  destruct (headerLine_fields h H) as (a & rest & -> & -> & -> & -> & ->).
  reflexivity.
Qed.

Lemma fold_requestHeader (hs : list (bytes * bytes))
    (headers : gmap bytes bytes) (host : bytes) :
  forallb isField hs = true ->
  fold_left parser.requestHeader (map headerText hs) (headers, host)
  = (fold_left (fun m h => <[fst h := TrimSpace (snd h)]> m) hs headers,
     fold_left (fun host h => if EqualFold (fst h) (str "host")
                              then TrimSpace (snd h) else host) hs host).
Proof.
  revert headers host. induction hs as [|h hs IH]; intros headers host H;
    [reflexivity|].
  cbn [forallb] in H. apply andb_true_iff in H. destruct H as [Hh H].
  cbn [map fold_left]. rewrite requestHeader_header by assumption.
  apply IH. exact H.
Qed.

(** X19.  ParseRawRequest reads a request as it is typed in ASCII: from
    the text of a request line with method, path and version, headers
    "name: value" and a body, with line ends "\n" or "\r\n", it returns
    the method and the path, the trimmed values of the headers under
    their names, as Host the value of the last header called "host" in
    any case of the letters, and the body with its "\r\n" turned into
    "\n".  The path and the body may hold bytes outside of ASCII. *)
Lemma ParseRawRequest_reads_the_request (method path version : bytes)
    (headers : list (bytes * bytes)) (nl body : bytes) :
  isWord method = true -> isToken path = true -> isWord version = true ->
  forallb isField headers = true ->
  nl = [LF] \/ nl = CRLF ->
  parser.ParseRawRequest (requestText method path version headers nl body)
  = {| parser.Method := method; parser.Path := path;
       parser.Host := hostOf headers; parser.Headers := headerMap headers;
       parser.Body := ReplaceAll body CRLF [LF] |}.
Proof.
  intros Hm Hp Hv Hf Hnl.
  apply isWord_bytes in Hm, Hv.
  destruct Hm as [Hm Hma]. destruct Hv as [Hv Hva].
  pose proof (isField_headers headers Hf) as Hh.
  apply isToken_bytes in Hm, Hp, Hv.
  destruct Hm as (Hmne & Hmsp & Hmb & Hmcr & Hmlf).
  destruct Hp as (Hpne & Hpsp & Hpb & Hpcr & Hplf).
  destruct Hv as (Hvne & Hvsp & Hvb & Hvcr & Hvlf).
  set (line := method ++ str " " ++ path ++ str " " ++ version).
  assert (Forall (fun l => nonEmpty l = true /\
                           Forall (fun c => Ascii.eqb c CR = false) l /\
                           Forall (fun c => Ascii.eqb c LF = false) l)
            (line :: map headerText headers)) as Hlines.
  { constructor.
    - split; [destruct method; [discriminate | reflexivity]|].
      split; unfold line; repeat (apply Forall_app; split);
        assumption || (repeat constructor).
    - apply List.Forall_forall. intros l Hl. apply in_map_iff in Hl.
      destruct Hl as (h & <- & Hin). apply headerText_line.
      rewrite forallb_forall in Hh. apply Hh. exact Hin. }
  unfold parser.ParseRawRequest, requestText, rawRequestOf. fold line.
  rewrite toLF_lines;
    [| exact Hnl
     | eapply Forall_impl; [exact Hlines|]; intros l (_ & H & _); exact H].
  replace (ReplaceAll (nl ++ body) CRLF [LF])
    with (LF :: ReplaceAll body CRLF [LF])
    by (destruct Hnl as [-> | ->]; reflexivity).
  change (Join (line :: map headerText headers) [LF]
          ++ LF :: LF :: ReplaceAll body CRLF [LF])
    with (Join (line :: map headerText headers) [LF]
          ++ [LF; LF] ++ ReplaceAll body CRLF [LF]).
  rewrite Index_blank_line
    by (eapply Forall_impl; [exact Hlines|]; intros l (H1 & _ & H2); auto).
  rewrite take_app_length.
  replace (length (Join (line :: map headerText headers) [LF]) + 2)%nat
    with (length (Join (line :: map headerText headers) [LF] ++ [LF; LF]))
    by (rewrite length_app; reflexivity).
  rewrite app_assoc, drop_app_length.
  rewrite Split_Join_byte
    by (eapply Forall_impl; [exact Hlines|]; intros l (_ & _ & H); exact H).
  assert (TrimSpace line = line) as ->.
  { unfold line. destruct method as [|a m]; [discriminate|].
    destruct version as [|b v _] using rev_ind; [discriminate|].
    replace ((a :: m) ++ str " " ++ path ++ str " " ++ v ++ [b])
      with (a :: (m ++ str " " ++ path ++ str " " ++ v) ++ [b])
      by (cbn [app]; rewrite <- !app_assoc; reflexivity).
    apply isASCII_cons in Hma. apply isASCII_app in Hva.
    destruct Hva as [_ Hb]. apply isASCII_cons in Hb.
    apply Forall_app in Hvsp. destruct Hvsp as [_ Hbs].
    apply TrimSpace_trimmed; try tauto.
    - inversion Hmsp; assumption.
    - inversion Hbs; assumption. }
  assert (SplitN line (str " ") 3
          = method :: path :: splitFrom 0 (Some 0%nat) version [" "%char])
    as ->.
  { unfold SplitN, line. change (3 =? 0) with false. change (3 <? 0) with false.
    cbv iota. change (Z.to_nat (3 - 1)) with 2%nat.
    change (str " ") with [" "%char]. cbn [app].
    rewrite !splitFrom_field by assumption. reflexivity. }
  rewrite fold_requestHeader by assumption. reflexivity.
Qed.

Lemma ParseRawRequest_reads_the_request_witness :
  let parsed :=
    parser.ParseRawRequest
      (str "POST /login?next=/a HTTP/1.1" ++ CRLF
       ++ str "Host: a.test" ++ CRLF
       ++ str "X-Trace:   1 2  " ++ CRLF
       ++ str "HOST: b.test:8443" ++ CRLF ++ CRLF
       ++ str "a=1" ++ CRLF ++ str "b=2") in
  parser.Method parsed = str "POST" /\
  parser.Path parsed = str "/login?next=/a" /\
  parser.Host parsed = str "b.test:8443" /\
  parser.Headers parsed !! str "X-Trace" = Some (str "1 2") /\
  parser.Body parsed = str "a=1" ++ [LF] ++ str "b=2".
Proof.
  intros parsed.
  pose proof (ParseRawRequest_reads_the_request (str "POST")
                (str "/login?next=/a") (str "HTTP/1.1")
                [(str "Host", str "a.test"); (str "X-Trace", str "  1 2  ");
                 (str "HOST", str "b.test:8443")]
                CRLF (str "a=1" ++ CRLF ++ str "b=2")
                eq_refl eq_refl eq_refl eq_refl (or_intror eq_refl)) as H.
  change (parser.ParseRawRequest _) with parsed in H. rewrite H.
  repeat split; vm_compute; reflexivity.
Defined.

End ParseRawRequest.

(** ** ParseHTTPResponse on a typed response *)

Section ParseHTTPResponse.

Lemma isPhrase_reason (tail : bytes) :
  isPhrase tail = true -> isReason tail = true /\ isASCII tail = true.
Proof. unfold isPhrase. intros H. apply andb_true_iff in H. exact H. Qed.

Lemma headerText_ascii (h : bytes * bytes) :
  isField h = true -> isASCII (headerText h) = true.
Proof.
  intros H. apply isField_header in H. destruct H as (_ & Hk & Hv).
  unfold headerText. apply isASCII_app. split; [exact Hk|].
  apply isASCII_app. split; [reflexivity | exact Hv].
Qed.

Lemma statusLine_ascii (version code tail : bytes) :
  isASCII version = true -> isASCII code = true -> isASCII tail = true ->
  isASCII (version ++ str " " ++ code ++ tail) = true.
Proof.
  intros Hv Hc Ht. repeat (apply isASCII_app; split); auto.
Qed.

Lemma splitFrom_one (limit : option nat) (sep : ascii) (field : bytes) :
  Forall (fun c => Ascii.eqb c sep = false) field ->
  splitFrom 0 limit field [sep] = [field].
Proof.
  induction 1 as [|c field Hc _ IH]; [reflexivity|].
  rewrite splitFrom_byte, Hc, IH. destruct limit as [[|k]|]; reflexivity.
Qed.

(** The status code of a typed status line is its second field. *)
Lemma statusCodeOf_line (version code tail : bytes) :
  isWord version = true -> isWord code = true -> isPhrase tail = true ->
  burp.statusCodeOf (TrimSpace (version ++ str " " ++ code ++ tail))
  = default 0 (Atoi code).
Proof.
  intros Hv Hc Ht. apply isWord_bytes in Hv, Hc. apply isPhrase_reason in Ht.
  destruct Hv as [Hv Hva]. destruct Hc as [Hc Hca]. destruct Ht as [Ht Hta].
  pose proof (statusLine_ascii version code tail Hva Hca Hta) as Hascii.
  apply isToken_bytes in Hv, Hc.
  destruct Hv as (Hvne & Hvsp & Hvb & _). destruct Hc as (Hcne & Hcsp & Hcb & _).
  assert (exists R, TrimSpace (version ++ str " " ++ code ++ tail)
                    = version ++ " "%char :: code ++ R /\
                    (R = [] \/ exists t, R = " "%char :: t)) as (R & -> & HR).
  { exists (rev (trimBytes (rev tail))). split.
    - destruct version as [|a v]; [discriminate|].
      destruct code as [|b c _] using rev_ind; [discriminate|].
      revert Hascii.
      replace ((a :: v) ++ str " " ++ (c ++ [b]) ++ tail)
        with ((a :: v ++ str " " ++ c) ++ b :: tail)
        by (cbn [app]; rewrite <- !app_assoc; reflexivity).
      intros Hascii. rewrite TrimSpace_head.
      + cbn [app]. rewrite <- !app_assoc. reflexivity.
      + exact Hascii.
      + inversion Hvsp; assumption.
      + apply Forall_app in Hcsp. destruct Hcsp as [_ Hb].
        inversion Hb; assumption.
    - unfold isReason in Ht. apply andb_true_iff in Ht. destruct Ht as [_ Ht].
      destruct tail as [|c reason]; [left; reflexivity|].
      apply Ascii.eqb_eq in Ht. subst c. rewrite trimBytes_cons.
      destruct (rev (trimBytes (rev reason))); [left | right; eauto].
      reflexivity. }
  unfold burp.statusCodeOf, SplitN.
  change (3 =? 0) with false. change (3 <? 0) with false. cbv iota.
  change (Z.to_nat (3 - 1)) with 2%nat. change (str " ") with [" "%char].
  rewrite splitFrom_field by assumption.
  destruct HR as [-> | [t ->]].
  - rewrite app_nil_r, splitFrom_one by assumption.
    cbn. destruct (Atoi code); reflexivity.
  - rewrite splitFrom_field by assumption.
    replace (len (version :: code :: splitFrom 0 (Some 0%nat) t [" "%char]) >=? 2)
      with true
      by (symmetry; apply Z.geb_le; unfold len; cbn [length]; lia).
    cbn. destruct (Atoi code); reflexivity.
Qed.

Lemma cutAfter_none (s : bytes) :
  Forall (fun c => Ascii.eqb c LF = false) s -> cutAfter LF s = None.
Proof.
  induction 1 as [|c s Hc _ IH]; [reflexivity|].
  cbn [cutAfter]. rewrite Hc, IH. reflexivity.
Qed.

Lemma noLF_neq (s : bytes) :
  Forall (fun c => Ascii.eqb c LF = false) s -> Forall (fun c => c <> LF) s.
Proof.
  intros H. eapply Forall_impl; [exact H|]. intros c Hc ->.
  rewrite Ascii.eqb_refl in Hc. discriminate.
Qed.

(** The header loop on typed headers. *)
Lemma parseHeaders_headers (hs : list (bytes * bytes)) (fuel : nat)
    (headers : gmap bytes bytes) (e : error) :
  forallb isField hs = true ->
  (length hs < fuel)%nat ->
  burp.parseHeaders fuel (mkReader (Join (map headerText hs) CRLF) e) headers
  = Ret (fold_left (fun m h => <[fst h := TrimSpace (snd h)]> m) hs headers).
Proof.
  revert fuel headers. induction hs as [|h hs IH]; intros fuel headers Hh Hf;
    (destruct fuel as [|fuel]; [cbn [length] in Hf; lia|]).
  - reflexivity.
  - cbn [forallb] in Hh. apply andb_true_iff in Hh. destruct Hh as [Hh Hhs].
    destruct (headerText_line h (proj1 (isField_header h Hh)))
      as (_ & _ & Hlf).
    pose proof (headerText_ascii h Hh) as Hascii.
    destruct (headerLine_fields h Hh) as (a & rest & Hl & Hi & Hp & Hk & Hv).
    cbn [burp.parseHeaders]. destruct hs as [|h' hs].
    + cbn [map Join]. unfold ReadString. cbn [pending failure].
      rewrite cutAfter_none by assumption.
      rewrite Hl, Hi, Hp, Hk, Hv. reflexivity.
    + change (Join (map headerText (h :: h' :: hs)) CRLF)
        with (headerText h ++ CRLF ++ Join (map headerText (h' :: hs)) CRLF).
      replace (headerText h ++ CRLF ++ Join (map headerText (h' :: hs)) CRLF)
        with ((headerText h ++ [CR])
              ++ LF :: Join (map headerText (h' :: hs)) CRLF)
        by (rewrite <- app_assoc; reflexivity).
      rewrite ReadString_line.
      2:{ apply Forall_app. split; [apply noLF_neq; assumption|].
          repeat constructor. discriminate. }
      rewrite <- app_assoc. change ([CR] ++ [LF]) with CRLF.
      rewrite TrimSpace_CRLF by exact Hascii. rewrite Hl, Hi, Hp, Hk, Hv.
      apply IH; [exact Hhs | cbn [length] in *; lia].
Qed.

Lemma headers_length (hs : list (bytes * bytes)) :
  forallb isHeader hs = true ->
  (length hs <= length (Join (map headerText hs) CRLF))%nat.
Proof.
  induction hs as [|h hs IH]; intros H; [cbn; lia|].
  cbn [forallb] in H. apply andb_true_iff in H. destruct H as [Hh Hhs].
  destruct (headerText_line h Hh) as (Hne & _).
  destruct hs as [|h' hs].
  - cbn [map Join length]. destruct (headerText h); [discriminate | cbn; lia].
  - change (Join (map headerText (h :: h' :: hs)) CRLF)
      with (headerText h ++ CRLF ++ Join (map headerText (h' :: hs)) CRLF).
    rewrite !length_app. specialize (IH Hhs). cbn [length CRLF] in *. lia.
Qed.

(** ParseHTTPResponse on a typed response. *)
Lemma ParseHTTPResponse_typed (version code tail : bytes)
    (headers : list (bytes * bytes)) (body : bytes) (bodyOffset bodyLimit : Z) :
  isWord version = true -> isWord code = true -> isPhrase tail = true ->
  forallb isField headers = true ->
  burp.ParseHTTPResponse (responseText version code tail headers body)
    bodyOffset bodyLimit
  = Ret (Some {|
      burp.StatusCode := default 0 (Atoi code);
      burp.StatusLine := TrimSpace (version ++ str " " ++ code ++ tail);
      burp.Headers := headerMap headers;
      burp.Body := fst (burp.applyOffsetLimit body bodyOffset bodyLimit);
      burp.BodySize := len body;
      burp.Truncated := snd (burp.applyOffsetLimit body bodyOffset bodyLimit)
    |}).
Proof.
  intros Hv Hc Ht Hf.
  pose proof (statusCodeOf_line version code tail Hv Hc Ht) as Hcode.
  pose proof (isField_headers headers Hf) as Hh.
  apply isWord_bytes in Hv, Hc. apply isPhrase_reason in Ht.
  destruct Hv as [Hv Hva]. destruct Hc as [Hc Hca]. destruct Ht as [Ht Hta].
  pose proof (statusLine_ascii version code tail Hva Hca Hta) as Hascii.
  set (line := version ++ str " " ++ code ++ tail) in *.
  assert (Forall (fun c => Ascii.eqb c CR = false) line /\
          Forall (fun c => Ascii.eqb c LF = false) line) as [Hcr Hlf].
  { apply isToken_bytes in Hv, Hc.
    destruct Hv as (_ & _ & _ & Hvcr & Hvlf).
    destruct Hc as (_ & _ & _ & Hccr & Hclf).
    unfold isReason in Ht. apply andb_true_iff in Ht. destruct Ht as [Ht _].
    apply isPlain_bytes in Ht. destruct Ht as [Htcr Htlf].
    split; unfold line; repeat (apply Forall_app; split);
      assumption || (repeat constructor). }
  assert (headerLines (line :: map headerText headers)) as Hlines.
  { split; [discriminate|]. split.
    - constructor; [apply noLF_crlfFree, noLF_neq; assumption|].
      apply List.Forall_forall. intros l Hl. apply in_map_iff in Hl.
      destruct Hl as (h & <- & Hin). apply noLF_crlfFree, noLF_neq.
      rewrite forallb_forall in Hh. apply (headerText_line h (Hh h Hin)).
    - cbn [List.tail]. apply List.Forall_forall. intros l Hl. apply in_map_iff in Hl.
      destruct Hl as (h & <- & Hin).
      rewrite forallb_forall in Hh.
      destruct (headerText_line h (Hh h Hin)) as (Hne & _).
      intros E. rewrite E in Hne. discriminate. }
  unfold burp.ParseHTTPResponse, responseText, rawRequestOf. fold line.
  destruct (Join (line :: map headerText headers) CRLF ++ CRLF ++ CRLF ++ body)
    as [|c0 raw0] eqn:Eraw.
  { destruct version; [discriminate|]. destruct headers; discriminate. }
  rewrite <- Eraw. clear Eraw c0 raw0.
  unfold burp.splitHeaderBody.
  change (CRLF ++ CRLF ++ body) with (CRLFCRLF ++ body).
  rewrite (headerLines_Index _ body Hlines).
  rewrite take_app_length.
  replace (length (Join (line :: map headerText headers) CRLF) + 4)%nat
    with (length (Join (line :: map headerText headers) CRLF ++ CRLFCRLF))
    by (rewrite length_app; reflexivity).
  rewrite app_assoc, drop_app_length.
  destruct (burp.applyOffsetLimit body bodyOffset bodyLimit)
    as [window truncated].
  cbn [fst snd].
  destruct headers as [|h hs].
  - cbn [map Join]. unfold ReadString. cbn [pending failure].
    rewrite cutAfter_none by assumption. rewrite Hcode. reflexivity.
  - change (Join (line :: map headerText (h :: hs)) CRLF)
      with (line ++ CRLF ++ Join (map headerText (h :: hs)) CRLF).
    replace (line ++ CRLF ++ Join (map headerText (h :: hs)) CRLF)
      with ((line ++ [CR]) ++ LF :: Join (map headerText (h :: hs)) CRLF)
      by (rewrite <- app_assoc; reflexivity).
    rewrite ReadString_line.
    2:{ apply Forall_app. split; [apply noLF_neq; assumption|].
        repeat constructor. discriminate. }
    rewrite <- app_assoc. change ([CR] ++ [LF]) with CRLF.
    rewrite TrimSpace_CRLF by exact Hascii. rewrite Hcode. cbn [pending].
    rewrite parseHeaders_headers;
      [reflexivity | assumption
       | pose proof (headers_length (h :: hs) Hh); lia].
Qed.

(** X20.  ParseHTTPResponse reads a response as it is typed in ASCII:
    from a status line "<version> <code>" with or without a reason phrase,
    headers "name: value", a blank line and a body, with line ends
    "\r\n", it returns as StatusCode the number that the code field
    spells (0 when it spells none), the trimmed status line, the
    trimmed values of the headers under their names, and the window of
    the body that offset and limit cut. *)
Lemma ParseHTTPResponse_reads_the_response (version code tail : bytes)
    (headers : list (bytes * bytes)) (body : bytes) (bodyOffset bodyLimit : Z) :
  isWord version = true -> isWord code = true -> isPhrase tail = true ->
  forallb isField headers = true ->
  let rest := drop (Z.to_nat bodyOffset) body in
  burp.ParseHTTPResponse (responseText version code tail headers body)
    bodyOffset bodyLimit
  = Ret (Some {|
      burp.StatusCode := default 0 (Atoi code);
      burp.StatusLine := TrimSpace (version ++ str " " ++ code ++ tail);
      burp.Headers := headerMap headers;
      burp.Body := if bodyLimit >? 0 then take (Z.to_nat bodyLimit) rest
                   else rest;
      burp.BodySize := len body;
      burp.Truncated := (bodyLimit >? 0) && (len rest >? bodyLimit) |}).
Proof.
  intros Hv Hc Ht Hh. cbv zeta.
  rewrite ParseHTTPResponse_typed by assumption.
  rewrite applyOffsetLimit_window. reflexivity.
Qed.

Lemma ParseHTTPResponse_reads_the_response_witness :
  let raw := str "HTTP/2 404" ++ CRLF
             ++ str "Content-Type: text/plain" ++ CRLF
             ++ str "content-type:   text/html  " ++ CRLF ++ CRLF
             ++ str "not found" in
  exists parsed,
    burp.ParseHTTPResponse raw 4 3 = Ret (Some parsed) /\
    burp.StatusCode parsed = 404 /\
    burp.StatusLine parsed = str "HTTP/2 404" /\
    burp.Headers parsed !! str "content-type" = Some (str "text/html") /\
    (burp.Body parsed, burp.BodySize parsed, burp.Truncated parsed)
    = (str "fou", 9, true).
Proof.
  intros raw. eexists. split.
  - exact (ParseHTTPResponse_reads_the_response (str "HTTP/2") (str "404") []
             [(str "Content-Type", str "text/plain");
              (str "content-type", str "  text/html  ")]
             (str "not found") 4 3 eq_refl eq_refl eq_refl eq_refl).
  - repeat split; vm_compute; reflexivity.
Defined.

End ParseHTTPResponse.

(** ** From the connection to the entry of a race *)

Section RaceEntry.

Lemma responseText_wire (line : bytes) (headers : list (bytes * bytes))
    (rest : bytes) :
  Join (line :: map headerText headers) CRLF ++ CRLF ++ rest
  = (line ++ CRLF) ++ concat (wireHeaders headers) ++ rest.
Proof.
  revert line. induction headers as [|h hs IH]; intros line.
  - cbn [map Join wireHeaders concat app]. rewrite <- app_assoc. reflexivity.
  - change (Join (line :: map headerText (h :: hs)) CRLF)
      with (line ++ CRLF ++ Join (headerText h :: map headerText hs) CRLF).
    rewrite <- !app_assoc, IH. cbn [wireHeaders map concat].
    rewrite <- !app_assoc. reflexivity.
Qed.

Lemma isLine_CRLF (line : bytes) :
  Forall (fun c => Ascii.eqb c LF = false) line ->
  isLine (line ++ CRLF) = true.
Proof.
  intros H. unfold isLine.
  replace (line ++ CRLF) with ((line ++ [CR]) ++ LF :: [])
    by (rewrite <- app_assoc; reflexivity).
  rewrite cutAfter_line; [reflexivity|].
  apply Forall_app. split; [apply noLF_neq; assumption|].
  repeat constructor. discriminate.
Qed.

Lemma wireHeaders_lines (headers : list (bytes * bytes)) :
  forallb isField headers = true ->
  forallb isHeaderLine (wireHeaders headers) = true.
Proof.
  induction headers as [|h hs IH]; intros H; [reflexivity|].
  cbn [forallb] in H. apply andb_true_iff in H. destruct H as [Hh Hhs].
  cbn [wireHeaders map forallb]. apply andb_true_iff. split; [|apply IH, Hhs].
  unfold isHeaderLine. apply andb_true_iff. split.
  - apply isLine_CRLF. apply (headerText_line h (proj1 (isField_header h Hh))).
  - rewrite TrimSpace_CRLF by (apply headerText_ascii, Hh).
    destruct (headerLine_fields h Hh) as (a & rest & -> & _). reflexivity.
Qed.

(** readHTTPResponse on a typed response. *)
Lemma readHTTPResponse_typed (version code tail : bytes)
    (headers : list (bytes * bytes)) (wire more : bytes) (e : error) :
  isWord version = true -> isWord code = true -> isPhrase tail = true ->
  forallb isField headers = true ->
  len (wire ++ more) <= maxAlloc ->
  readHTTPResponse
    (mkReader (responseText version code tail headers wire ++ more) e)
  = readFramed (framing (wireHeaders headers))
      (responseText version code tail headers [])
      (mkReader (wire ++ more) e).
Proof.
  intros Hv Hc Ht Hh Hlen. unfold responseText, rawRequestOf.
  apply isWord_bytes in Hv, Hc. apply isPhrase_reason in Ht.
  destruct Hv as [Hv _]. destruct Hc as [Hc _]. destruct Ht as [Ht _].
  set (line := version ++ str " " ++ code ++ tail).
  assert (Forall (fun c => Ascii.eqb c LF = false) line) as Hlf.
  { apply isToken_bytes in Hv, Hc.
    destruct Hv as (_ & _ & _ & _ & Hvlf). destruct Hc as (_ & _ & _ & _ & Hclf).
    unfold isReason in Ht. apply andb_true_iff in Ht. destruct Ht as [Ht _].
    apply isPlain_bytes in Ht. destruct Ht as [_ Htlf].
    unfold line; repeat (apply Forall_app; split);
      assumption || (repeat constructor). }
  rewrite !responseText_wire, app_nil_r, <- !app_assoc.
  pose proof (wireHeaders_lines headers Hh) as Hlines.
  unfold readHTTPResponse.
  rewrite (app_assoc line CRLF), isLine_ReadString by (apply isLine_CRLF, Hlf).
  cbn [pending].
  rewrite (headerLoop_headers (wireHeaders headers) CRLF (wire ++ more));
    [| assumption | reflexivity |].
  - rewrite readBody_framed by exact Hlen.
    rewrite <- !app_assoc. reflexivity.
  - pose proof (concat_length_le _ Hlines). rewrite !length_app. lia.
Qed.

(** X21.  The entry of a race for a server that answers in full: when
    the connection of a slot delivers a response typed in ASCII whose
    body arrives as its headers announce (under a Content-Length that
    states its size, in chunks under Transfer-Encoding: chunked, or not
    at all), the entry of the slot holds the index of the slot, the
    status code of the status line, and the body, decoded and cut to the
    body limit when that is positive.  Bytes that follow the response on
    the connection change nothing.  The connection delivers no more
    bytes than can be allocated. *)
Lemma entry_of_a_full_response (version code tail : bytes)
    (headers : list (bytes * bytes)) (wire body more : bytes) (e : error)
    (bodyLimit : Z) (idx : nat) :
  isWord version = true -> isWord code = true -> isPhrase tail = true ->
  forallb isField headers = true ->
  carries (wireHeaders headers) wire body ->
  len (wire ++ more) <= maxAlloc ->
  readSlot (mkReader (responseText version code tail headers wire ++ more) e)
    bodyLimit idx
  = Ret {| Index := Z.of_nat idx;
           StatusCode := default 0 (Atoi code);
           Body := if bodyLimit >? 0 then take (Z.to_nat bodyLimit) body
                   else body |}.
Proof.
  intros Hv Hc Ht Hh Hw Hlen. unfold readSlot.
  rewrite readHTTPResponse_typed by assumption.
  assert (readFramed (framing (wireHeaders headers))
            (responseText version code tail headers [])
            (mkReader (wire ++ more) e)
          = Ret (responseText version code tail headers body, None,
                 mkReader more e)) as ->.
  { assert (forall b, responseText version code tail headers [] ++ b
                      = responseText version code tail headers b) as Happ.
    { intros b. unfold responseText, rawRequestOf.
      rewrite app_nil_r, <- !app_assoc. reflexivity. }
    destruct Hw as [[-> ->] | [(-> & upper & chunks & Hch & -> & ->)
                              | (-> & -> & ->)]].
    - cbn [readFramed pending failure].
      replace (maxAlloc <? len body) with false
        by (symmetry; apply Z.ltb_ge; unfold len in *;
            rewrite length_app in Hlen; lia).
      unfold len.
      rewrite Nat2Z.id, take_app_length, drop_app_length, Happ. reflexivity.
    - cbn [readFramed]. unfold readChunkedBody, encodeChunked. cbn [pending].
      rewrite <- !app_assoc.
      rewrite (chunkLoop_chunks upper chunks _ more [] e Hch).
      + cbn [app]. rewrite Happ. reflexivity.
      + pose proof (encodeChunked_length upper chunks) as Hl.
        unfold encodeChunked in Hl.
        rewrite !length_app in *. cbn [length app] in *. lia.
    - cbn [readFramed app]. reflexivity. }
  rewrite ParseHTTPResponse_typed by assumption.
  rewrite applyOffsetLimit_window. cbn [fst burp.StatusCode burp.Body].
  rewrite drop_0. reflexivity.
Qed.

Lemma entry_of_a_full_response_witness :
  let stream := str "HTTP/1.1 409 Conflict" ++ CRLF
                ++ str "Transfer-Encoding: chunked" ++ CRLF ++ CRLF
                ++ str "7" ++ CRLF ++ str "already" ++ CRLF
                ++ str "5" ++ CRLF ++ str " used" ++ CRLF
                ++ str "0" ++ CRLF ++ CRLF in
  readSlot (mkReader (stream ++ str "HTTP/1.1 200 OK") (str "EOF")) 9 4
  = Ret {| Index := 4; StatusCode := 409; Body := str "already u" |}.
Proof.
  apply (entry_of_a_full_response (str "HTTP/1.1") (str "409") (str " Conflict")
           [(str "Transfer-Encoding", str "chunked")]
           (encodeChunked false [str "already"; str " used"])
           (str "already used") (str "HTTP/1.1 200 OK") (str "EOF") 9 4);
    try reflexivity; [|discriminate].
  right; left. split; [reflexivity|].
  exists false, [str "already"; str " used"]. repeat split.
Defined.

End RaceEntry.

(** ** splitHttpRequestResponseBlocks *)

Section Blocks.

Lemma closingBrace_shift (s : bytes) (depth : Z) (i : nat) :
  parser.closingBrace s depth i
  = option_map (fun n => (i + n)%nat) (parser.closingBrace s depth 0).
Proof.
  revert depth i. induction s as [|c s IH]; intros depth i; [reflexivity|].
  cbn [parser.closingBrace].
  assert (forall d, parser.closingBrace s d (S i)
                    = option_map (fun n => (i + n)%nat)
                        (parser.closingBrace s d 1)) as Hs.
  { intros d. rewrite (IH d (S i)), (IH d 1%nat).
    destruct (parser.closingBrace s d 0); cbn [option_map]; [f_equal; lia|].
    reflexivity. }
  destruct (Ascii.eqb c "{"); [apply Hs|].
  destruct (Ascii.eqb c "}"); [|apply Hs].
  cbv zeta. destruct (depth - 1 =? 0); [cbn [option_map]; f_equal; lia|].
  apply Hs.
Qed.

Lemma closingBrace_app (s rest : bytes) (depth : Z) (i n : nat) :
  parser.closingBrace s depth i = Some n ->
  parser.closingBrace (s ++ rest) depth i = Some n.
Proof.
  revert depth i. induction s as [|c s IH]; intros depth i; [discriminate|].
  cbn [app parser.closingBrace].
  destruct (Ascii.eqb c "{"); [apply IH|].
  destruct (Ascii.eqb c "}"); [|apply IH].
  cbv zeta. destruct (depth - 1 =? 0); [auto | apply IH].
Qed.

Lemma isBlock_parts (block : bytes) :
  isBlock block = true ->
  (exists inner, block = str "HttpRequestResponse{" ++ inner) /\
  parser.closingBrace block 0 0 = Some (length block).
Proof.
  unfold isBlock. intros H. apply andb_true_iff in H. destruct H as [Hp Hc].
  apply HasPrefix_true in Hp. split; [exact Hp|].
  destruct (parser.closingBrace block 0 0) as [n|]; [|discriminate].
  apply Nat.eqb_eq in Hc. subst n. reflexivity.
Qed.

Lemma Index_gap (gap inner rest : bytes) :
  isGap gap = true ->
  Go.Index (gap ++ (str "HttpRequestResponse{" ++ inner) ++ rest)
    (str "HttpRequestResponse{")
  = Some (length gap).
Proof.
  unfold isGap. intros H. apply negb_true_iff, Contains_false in H.
  rewrite <- (app_assoc _ inner rest).
  apply (Index_marker gap (inner ++ rest) (str "ttpRequestResponse{") "H");
    [repeat constructor | exact H].
Qed.

(** One turn of the outer loop on a block after a gap. *)
Lemma blocksLoop_block (fuel : nat) (gap block rest : bytes)
    (blocks : list bytes) :
  isGap gap = true -> isBlock block = true ->
  parser.blocksLoop (S fuel) (gap ++ block ++ rest) blocks
  = parser.blocksLoop fuel rest (blocks ++ [block]).
Proof.
  intros Hg Hb. apply isBlock_parts in Hb. destruct Hb as [[inner Hi] Hc].
  cbn [parser.blocksLoop].
  rewrite Hi at 1. rewrite Index_gap by assumption.
  rewrite drop_app_length.
  rewrite closingBrace_shift, (closingBrace_app block rest 0 0 _ Hc).
  cbn [option_map].
  replace (length gap <? length gap + length block)%nat with true.
  2:{ symmetry. apply Nat.ltb_lt. rewrite Hi, length_app. cbn [length str
        list_ascii_of_string]. lia. }
  replace (length gap + length block - length gap)%nat with (length block)
    by lia.
  rewrite take_app_length.
  rewrite app_assoc, <- length_app, drop_app_length. reflexivity.
Qed.

Lemma blocksLoop_blocks (parts : list (bytes * bytes)) (fuel : nat)
    (rest : bytes) (blocks : list bytes) :
  forallb (fun p => isGap (fst p) && isBlock (snd p)) parts = true ->
  parser.blocksLoop (length parts + fuel) (blocksText parts ++ rest) blocks
  = parser.blocksLoop fuel rest (blocks ++ map snd parts).
Proof.
  revert blocks. induction parts as [|[g b] parts IH]; intros blocks H.
  - cbn [map length Nat.add blocksText concat app]. rewrite app_nil_r.
    reflexivity.
  - cbn [forallb fst snd] in H. apply andb_true_iff in H.
    destruct H as [Hp H]. apply andb_true_iff in Hp. destruct Hp as [Hg Hb].
    cbn [length Nat.add blocksText map concat fst snd].
    rewrite <- !app_assoc, blocksLoop_block by assumption.
    fold (blocksText parts). rewrite IH by assumption.
    rewrite <- app_assoc. reflexivity.
Qed.

Lemma blocksText_length (parts : list (bytes * bytes)) :
  forallb (fun p => isGap (fst p) && isBlock (snd p)) parts = true ->
  (length parts <= length (blocksText parts))%nat.
Proof.
  induction parts as [|[g b] parts IH]; intros H; [cbn; lia|].
  cbn [forallb fst snd] in H. apply andb_true_iff in H.
  destruct H as [Hp H]. apply andb_true_iff in Hp. destruct Hp as [_ Hb].
  apply isBlock_parts in Hb. destruct Hb as [[inner ->] _].
  cbn [blocksText map concat fst snd length]. fold (blocksText parts).
  rewrite !length_app. specialize (IH H). cbn [length str list_ascii_of_string].
  lia.
Qed.

(** X22.  splitHttpRequestResponseBlocks finds the blocks of a proxy
    history: from blocks "HttpRequestResponse{...}", each closed by the
    brace that matches its first one, with any text that does not hold
    "HttpRequestResponse{" before, between and after them, it returns
    the blocks, in their order and without the text around them. *)
Lemma blocks_are_found (parts : list (bytes * bytes)) (rest : bytes) :
  forallb (fun p => isGap (fst p) && isBlock (snd p)) parts = true ->
  isGap rest = true ->
  parser.splitHttpRequestResponseBlocks (blocksText parts ++ rest)
  = Ret (map snd parts).
Proof.
  intros Hp Hr. unfold parser.splitHttpRequestResponseBlocks.
  pose proof (blocksText_length parts Hp) as Hl.
  replace (S (length (blocksText parts ++ rest)))
    with (length parts
          + S (length (blocksText parts ++ rest) - length parts))%nat
    by (rewrite length_app in *; lia).
  rewrite blocksLoop_blocks by assumption.
  cbn [parser.blocksLoop app]. unfold isGap in Hr.
  apply negb_true_iff, Contains_false in Hr. rewrite Hr. reflexivity.
Qed.

Lemma blocks_are_found_witness :
  parser.splitHttpRequestResponseBlocks
    (str "2 items: HttpRequestResponse{httpRequest=GET /a, "
     ++ str "messageAnnotations=Annotations{notes=}}, "
     ++ str "HttpRequestResponse{httpRequest=GET /b} end")
  = Ret [str "HttpRequestResponse{httpRequest=GET /a, "
         ++ str "messageAnnotations=Annotations{notes=}}";
         str "HttpRequestResponse{httpRequest=GET /b}"].
Proof.
  exact (blocks_are_found
           [(str "2 items: ",
             str "HttpRequestResponse{httpRequest=GET /a, "
             ++ str "messageAnnotations=Annotations{notes=}}");
            (str ", ", str "HttpRequestResponse{httpRequest=GET /b}")]
           (str " end") eq_refl eq_refl).
Defined.

(** X23.  A block that is never closed ends the split: the blocks
    before it are returned, and the open block is lost with all that
    follows it, further blocks included. *)
Lemma open_block_ends_the_split (parts : list (bytes * bytes))
    (gap open : bytes) :
  forallb (fun p => isGap (fst p) && isBlock (snd p)) parts = true ->
  isGap gap = true ->
  HasPrefix open (str "HttpRequestResponse{") = true ->
  parser.closingBrace open 0 0 = None ->
  parser.splitHttpRequestResponseBlocks (blocksText parts ++ gap ++ open)
  = Ret (map snd parts).
Proof.
  intros Hp Hg Ho Hc. unfold parser.splitHttpRequestResponseBlocks.
  pose proof (blocksText_length parts Hp) as Hl.
  replace (S (length (blocksText parts ++ gap ++ open)))
    with (length parts
          + S (length (blocksText parts ++ gap ++ open) - length parts))%nat
    by (rewrite length_app in *; lia).
  rewrite blocksLoop_blocks by assumption.
  cbn [parser.blocksLoop app]. apply HasPrefix_true in Ho.
  destruct Ho as [inner Hi].
  pose proof (Index_gap gap inner [] Hg) as HI.
  rewrite app_nil_r, <- Hi in HI. rewrite HI.
  rewrite drop_app_length, closingBrace_shift, Hc. reflexivity.
Qed.

Lemma open_block_ends_the_split_witness :
  parser.splitHttpRequestResponseBlocks
    (str "HttpRequestResponse{httpRequest=GET /a}, "
     ++ str "HttpRequestResponse{httpRequest=GET /{b, "
     ++ str "HttpRequestResponse{httpRequest=GET /c}")
  = Ret [str "HttpRequestResponse{httpRequest=GET /a}"].
Proof.
  exact (open_block_ends_the_split
           [([], str "HttpRequestResponse{httpRequest=GET /a}")]
           (str ", ")
           (str "HttpRequestResponse{httpRequest=GET /{b, "
            ++ str "HttpRequestResponse{httpRequest=GET /c}")
           eq_refl eq_refl eq_refl eq_refl).
Defined.

End Blocks.

(** ** sendRequestHandler: the fallback to HTTP/1.1 *)

Section Fallback.

(** X24.  The answer of the HTTP/2 attempt is replaced by an HTTP/1.1
    attempt when it is blank, or when it starts with "HTTP/" and the
    text between its first and its second space is exactly "502".  The
    test cuts the whole answer at spaces, not its status line: a status
    line "HTTP/2 502" that ends without a reason phrase is followed by
    "\r\n" and the next line before the next space, and asks for no
    fallback. *)
Lemma fallback_on_502 (version field tail : bytes) :
  isToken version = true ->
  HasPrefix version (str "HTTP/") = true ->
  forallb (fun c => negb (Ascii.eqb c " ")) field = true ->
  endsField tail = true ->
  needsFallback (version ++ str " " ++ field ++ tail)
  = if decide (field = str "502") then true else false.
Proof.
  intros Hv Hp Hf Ht. apply isToken_bytes in Hv.
  destruct Hv as (Hne & Hsp & Hb & _).
  assert (Forall (fun c => Ascii.eqb c " " = false) field) as Hfield.
  { apply List.Forall_forall. intros c Hc.
    rewrite forallb_forall in Hf. apply Hf in Hc.
    destruct (Ascii.eqb c " "); [discriminate | reflexivity]. }
  unfold needsFallback.
  destruct version as [|a v]; [discriminate|].
  assert (a = "H"%char) as Ha.
  { cbn [HasPrefix str list_ascii_of_string] in Hp.
    apply andb_true_iff in Hp. destruct Hp as [Hp _].
    apply Ascii.eqb_eq in Hp. exact Hp. }
  change ((a :: v) ++ str " " ++ field ++ tail)
    with (a :: (v ++ str " " ++ field ++ tail)).
  rewrite TrimSpace_nonEmpty
    by (subst a; reflexivity || (apply Nat.ltb_lt; reflexivity)).
  change (a :: (v ++ str " " ++ field ++ tail))
    with ((a :: v) ++ str " " ++ field ++ tail).
  apply HasPrefix_true in Hp. destruct Hp as [r Hr].
  rewrite Hr at 1. rewrite <- app_assoc, HasPrefix_app. cbn [negb andb].
  unfold SplitN.
  change (3 =? 0) with false. change (3 <? 0) with false. cbv iota.
  change (Z.to_nat (3 - 1)) with 2%nat. change (str " ") with [" "%char].
  change ((a :: v) ++ [" "%char] ++ field ++ tail)
    with ((a :: v) ++ " "%char :: field ++ tail).
  rewrite splitFrom_field by assumption.
  destruct tail as [|c t].
  - rewrite app_nil_r, splitFrom_one by assumption. reflexivity.
  - cbn [endsField] in Ht. apply Ascii.eqb_eq in Ht. subst c.
    rewrite splitFrom_field by assumption.
    replace (len ((a :: v) :: field :: splitFrom 0 (Some 0%nat) t [" "%char])
             >=? 2) with true
      by (symmetry; apply Z.geb_le; unfold len; cbn [length]; lia).
    reflexivity.
Qed.

Lemma fallback_on_502_witness :
  needsFallback (str "HTTP/2 502 Bad Gateway" ++ CRLF ++ str "Server: x")
  = true /\
  needsFallback (str "HTTP/2 502" ++ CRLF ++ str "Server: x") = false.
Proof.
  split.
  - exact (fallback_on_502 (str "HTTP/2") (str "502")
             (str " Bad Gateway" ++ CRLF ++ str "Server: x")
             eq_refl eq_refl eq_refl eq_refl).
  - exact (fallback_on_502 (str "HTTP/2") (str "502" ++ CRLF ++ str "Server:")
             (str " x") eq_refl eq_refl eq_refl eq_refl).
Defined.

End Fallback.
